(** * data-agent: the synthesis-and-safe-execution pipeline of [app.py]

    A shallow embedding of the text-processing and control-flow core of
    [src/app.py] and the properties its specification states about it.

    Modelling conventions.
    - A Python [str] is a list of characters; characters are the code
      points below 256 ([ascii]).  Whitespace ([str.isspace], the regex
      class [\s]) and [str.lower] are the restrictions of Python's
      Unicode tables to that range.
    - [str.find] and [str.rfind] return a [Z], [-1] when nothing is found,
      as in Python.
    - Calls that leave the process (the model gateway, the web scraper,
      the analytic engine, child processes, the JSON parser) are
      oracles: fields of a world record, indexed by the call site.
    - Exceptions are values: fallible code returns a sum.
    - The program file [chatgpt_code.py] is held as the text on disk.
      The file system is POSIX and is taken to work: a file opens, a
      line feed is written as it is, and what was written is what is
      read.  A read in text mode turns the carriage returns into line
      feeds; a write of a text of the gateway fails when the text
      cannot be encoded. *)

From Stdlib Require Import String Ascii ZArith Lia Bool Arith List.
From Stdlib Require DecimalString Decimal DecimalNat.
Import ListNotations.

Set Warnings "-register-all".

Definition str := list ascii.

(** String literals of the source are written [lit "..."]. *)
Definition lit (s : string) : str := list_ascii_of_string s.

(** The double quote, and literals in which [^] stands for it. *)
Definition dq : ascii := ascii_of_nat 34.

Definition litq (s : string) : str :=
  map (fun c => if Ascii.eqb c "^"%char then dq else c) (lit s).

(* ================================================================= *)
(** ** Python string primitives *)

Module PyStr.

Definition code (c : ascii) : nat := nat_of_ascii c.

Definition chr_eqb (a b : ascii) : bool := Ascii.eqb a b.

(** [str.isspace] on code points below 256. *)
Definition is_space (c : ascii) : bool :=
  let n := code c in
  ((9 <=? n) && (n <=? 13)) || ((28 <=? n) && (n <=? 32))
  || (n =? 133) || (n =? 160).

(** [str.lower] on code points below 256: A-Z, and the Latin-1 capitals
    192..222 except the multiplication sign 215. *)
Definition lower_chr (c : ascii) : ascii :=
  let n := code c in
  if ((65 <=? n) && (n <=? 90))
     || ((192 <=? n) && (n <=? 222) && negb (n =? 215))
  then ascii_of_nat (n + 32) else c.

Definition lower (s : str) : str := map lower_chr s.

Fixpoint str_eqb (a b : str) : bool :=
  match a, b with
  | [], [] => true
  | x :: a', y :: b' => chr_eqb x y && str_eqb a' b'
  | _, _ => false
  end.

Fixpoint startswith (s p : str) {struct p} : bool :=
  match p, s with
  | [], _ => true
  | x :: p', y :: s' => chr_eqb x y && startswith s' p'
  | _ :: _, [] => false
  end.

Definition endswith (s p : str) : bool := startswith (rev s) (rev p).

(** [s.lstrip()], [s.rstrip()], [s.strip()]. *)
Fixpoint lstrip (s : str) : str :=
  match s with
  | c :: s' => if is_space c then lstrip s' else s
  | [] => []
  end.

Definition rstrip (s : str) : str := rev (lstrip (rev s)).

Definition strip (s : str) : str := rstrip (lstrip s).

(** Index of the first occurrence of [sub] in [s], if any. *)
Fixpoint index_of (s sub : str) : option nat :=
  if startswith s sub then Some 0
  else match s with
       | [] => None
       | _ :: s' => option_map S (index_of s' sub)
       end.

(** [s.find(sub)]. *)
Definition find (s sub : str) : Z :=
  match index_of s sub with
  | Some i => Z.of_nat i
  | None => (-1)%Z
  end.

(** [s.find(sub, start)] for [start >= 0]. *)
Definition find_from (s sub : str) (start : nat) : Z :=
  if length s <? start then (-1)%Z
  else match index_of (skipn start s) sub with
       | Some i => Z.of_nat (start + i)
       | None => (-1)%Z
       end.

(** Index of the last occurrence of the character [c] in [s]. *)
Fixpoint last_index (c : ascii) (s : str) : option nat :=
  match s with
  | [] => None
  | x :: s' =>
      match last_index c s' with
      | Some j => Some (S j)
      | None => if chr_eqb x c then Some 0 else None
      end
  end.

(** [s.rfind(c, 0, stop)] for a one-character [c] and [stop >= 0]. *)
Definition rfind_chr (s : str) (c : ascii) (stop : nat) : Z :=
  match last_index c (firstn stop s) with
  | Some j => Z.of_nat j
  | None => (-1)%Z
  end.

(** [sub in s]. *)
Definition contains (s sub : str) : bool :=
  match index_of s sub with Some _ => true | None => false end.

(** [s[a:b]] for [0 <= a], [0 <= b]. *)
Definition slice (s : str) (a b : nat) : str := firstn (b - a) (skipn a s).

(** [s.replace(old, new)] for a non-empty [old]: every non-overlapping
    occurrence, left to right. *)
Fixpoint replace_aux (old new : str) (skip : nat) (s : str) : str :=
  match s with
  | [] => []
  | c :: s' =>
      match skip with
      | S k => replace_aux old new k s'
      | O => if startswith s old
             then new ++ replace_aux old new (length old - 1) s'
             else c :: replace_aux old new 0 s'
      end
  end.

Definition replace (s old new : str) : str := replace_aux old new 0 s.

(** [s.split(sep)] for a one-character separator. *)
Fixpoint split_chr (sep : ascii) (s : str) : list str :=
  match s with
  | [] => [[]]
  | c :: s' =>
      if chr_eqb c sep then [] :: split_chr sep s'
      else match split_chr sep s' with
           | l :: ls => (c :: l) :: ls
           | [] => [[c]]
           end
  end.

(** [sep.join(parts)]. *)
Fixpoint join (sep : str) (parts : list str) : str :=
  match parts with
  | [] => []
  | [p] => p
  | p :: ps => p ++ sep ++ join sep ps
  end.

(** The longest prefix of characters satisfying [f], and what follows
    it. *)
Fixpoint take_while (f : ascii -> bool) (s : str) : str :=
  match s with
  | c :: s' => if f c then c :: take_while f s' else []
  | [] => []
  end.

Fixpoint drop_while (f : ascii -> bool) (s : str) : str :=
  match s with
  | c :: s' => if f c then drop_while f s' else s
  | [] => []
  end.

(** [x in xs] for a list of strings. *)
Definition mem (x : str) (xs : list str) : bool := existsb (str_eqb x) xs.

(** [str(n)] for a natural number. *)
Definition of_nat (n : nat) : str :=
  list_ascii_of_string (DecimalString.NilEmpty.string_of_uint (Nat.to_uint n)).

(** [max(xs, key=len)]: the first element of maximal length. *)
Fixpoint max_by_len (best : str) (xs : list str) : str :=
  match xs with
  | [] => best
  | x :: xs' =>
      if length best <? length x then max_by_len x xs' else max_by_len best xs'
  end.

End PyStr.

(* ================================================================= *)
(** ** OutputValidator: [extract_json_from_output], [is_valid_json_output] *)

Module OutputValidator.
Import PyStr.

(** One attempt of the pattern [o.*c] (with [re.DOTALL]) at the head of
    [s]: the greedy [.*] runs to the end of the text and backtracks to
    the last [c], so the match is the span from this [o] to the last
    [c] after it. *)
Definition span_at (o c : ascii) (s : str) : option str :=
  match s with
  | x :: rest =>
      if chr_eqb x o then
        match last_index c rest with
        | Some j => Some (x :: firstn (S j) rest)
        | None => None
        end
      else None
  | [] => None
  end.

(** [re.findall(o.*c, s, re.DOTALL)]: leftmost matches, each search
    resuming where the previous match ended. *)
Fixpoint findall_span (o c : ascii) (skip : nat) (s : str) : list str :=
  match s with
  | [] => []
  | _ :: rest =>
      match skip with
      | S k => findall_span o c k rest
      | O =>
          match span_at o c s with
          | Some m => m :: findall_span o c (length m - 1) rest
          | None => findall_span o c 0 rest
          end
      end
  end.

Definition lbrace : ascii := "{"%char.
Definition rbrace : ascii := "}"%char.
Definition lbracket : ascii := "["%char.
Definition rbracket : ascii := "]"%char.

Definition extract_json_from_output (output : str) : str :=
  let output := strip output in
  let object_matches := findall_span lbrace rbrace 0 output in
  match object_matches with
  | m :: ms => max_by_len m ms
  | [] =>
      let array_matches := findall_span lbracket rbracket 0 output in
      match array_matches with
      | m :: ms => max_by_len m ms
      | [] => output
      end
  end.

Definition is_valid_json_output (output : str) : bool :=
  let output := strip output in
  (startswith output [lbrace] && endswith output [rbrace])
  || (startswith output [lbracket] && endswith output [rbracket]).

End OutputValidator.

(* ================================================================= *)
(** ** AccessSanitizer: the path-sanitising pass of [aianalyst] *)

Module AccessSanitizer.
Import PyStr.

Inductive ptype : Type := Csv | Parquet | Open.

Definition ptype_eqb (a b : ptype) : bool :=
  match a, b with
  | Csv, Csv | Parquet, Parquet | Open, Open => true
  | _, _ => false
  end.

Definition newline : ascii := ascii_of_nat 10.
Definition space : ascii := " "%char.
Definition squote : ascii := "'"%char.

(** The character class of the two quote characters. *)
Definition is_quote (c : ascii) : bool := chr_eqb c squote || chr_eqb c dq.

(** A match object: [m.start()], [m.group(0)], [m.group(1)]. *)
Record rmatch : Type := mkMatch {
  m_start : nat;
  m_group0 : str;
  m_group1 : str
}.

(** The maximal run of non-quote characters at the head of [s], and
    the rest. *)
Fixpoint take_path (s : str) : str * str :=
  match s with
  | c :: s' =>
      if is_quote c then ([], s)
      else let (p, r) := take_path s' in (c :: p, r)
  | [] => ([], [])
  end.

(** One attempt of a pattern of the table at the head of [s]: the
    literal [call] (the call name with its opening parenthesis), a
    quote, one or more non-quote characters (group 1), a quote.
    The greedy class runs to the next quote or to the end of the text;
    a shorter run is followed by a character of the class, never by a
    quote, so backtracking finds nothing more. *)
Definition match_at (call s : str) : option (str * str) :=
  if startswith s call then
    match skipn (length call) s with
    | q1 :: rest =>
        if is_quote q1 then
          match take_path rest with
          | (c :: p, q2 :: _) => Some (call ++ q1 :: (c :: p) ++ [q2], c :: p)
          | _ => None
          end
        else None
    | [] => None
    end
  else None.

(** [re.finditer(patt, s)]: leftmost matches from position [pos], each
    search resuming where the previous match ended. *)
Fixpoint finditer_from (call : str) (skip pos : nat) (s : str) : list rmatch :=
  match s with
  | [] => []
  | _ :: rest =>
      match skip with
      | S k => finditer_from call k (S pos) rest
      | O =>
          match match_at call s with
          | Some (g0, g1) =>
              mkMatch pos g0 g1 :: finditer_from call (length g0 - 1) (S pos) rest
          | None => finditer_from call 0 (S pos) rest
          end
      end
  end.

Definition finditer (call code : str) : list rmatch := finditer_from call 0 0 code.

(** The [patterns] table: call prefix and type tag. *)
Definition patterns : list (str * ptype) :=
  [ (lit "pd.read_csv(", Csv);
    (lit "pd.read_parquet(", Parquet);
    (lit "read_csv_auto(", Csv);
    (lit "read_parquet(", Parquet);
    (lit "open(", Open) ].

(** [os.path.basename] (POSIX). *)
Definition basename (p : str) : str :=
  skipn (Z.to_nat (rfind_chr p "/"%char (length p) + 1)) p.

(** [path in allowed_paths or os.path.basename(path) in allowed_paths]. *)
Definition allowed_path (allowed_paths : list str) (path : str) : bool :=
  mem path allowed_paths || mem (basename path) allowed_paths.

(** The [re.sub] with [count=1] of the non-assignment branch: the
    leftmost occurrence of [path] between two equal quotes loses its
    content, the two quotes stay. *)
Fixpoint sub_quoted_once (path line : str) : str :=
  match line with
  | [] => []
  | q :: rest =>
      if is_quote q && startswith rest (path ++ [q])
      then q :: q :: skipn (length path + 1) rest
      else q :: sub_quoted_once path rest
  end.

(** [line_start] and [line_end]: the bounds of the line of the current
    text that holds offset [start]. *)
Definition line_start_of (_code : str) (start : nat) : nat :=
  Z.to_nat (rfind_chr _code newline start + 1).

Definition line_end_of (_code : str) (start : nat) : nat :=
  let line_end := find_from _code [newline] start in
  if (line_end =? -1)%Z then length _code else Z.to_nat line_end.

Definition offending_line_of (_code : str) (m : rmatch) : str :=
  slice _code (line_start_of _code (m_start m)) (line_end_of _code (m_start m)).

(** [eq_pos != -1 and eq_pos < patt_pos]: the line has an equals sign
    before the first occurrence of the matched text. *)
Definition is_assignment (offending_line : str) (m : rmatch) : bool :=
  let eq_pos := find offending_line (lit "=") in
  let patt_pos := find offending_line (m_group0 m) in
  negb (eq_pos =? -1)%Z && (eq_pos <? patt_pos)%Z.

(** The assignment branch: the line up to and including the first
    equals sign, then an empty-string literal, behind as many spaces
    as the line had leading whitespace. *)
Definition blank_rhs (offending_line : str) : str :=
  let eq_pos := find offending_line (lit "=") in
  let var_name := firstn (Z.to_nat (eq_pos + 1)) offending_line in
  let replacement := var_name ++ lit " ''" in
  let leading_ws := length offending_line - length (lstrip offending_line) in
  repeat space leading_ws ++ replacement.

(** The other branch: the quoted path is emptied in place. *)
Definition blank_path (offending_path offending_line : str) : str :=
  let new_line := sub_quoted_once offending_path offending_line in
  let leading_ws := length offending_line - length (lstrip offending_line) in
  repeat space leading_ws ++ lstrip new_line.

(** The body of the inner loop for one match [m] of a pattern tagged
    [pt], on the current text [_code]. *)
Definition process_match (allowed_paths : list str) (pt : ptype)
                         (_code : str) (m : rmatch) : str :=
  let path := m_group1 m in
  if negb (mem path allowed_paths) && negb (mem (basename path) allowed_paths) then
    let line_start := line_start_of _code (m_start m) in
    let line_end := line_end_of _code (m_start m) in
    let offending_line := slice _code line_start line_end in
    if is_assignment offending_line m then
      firstn line_start _code ++ blank_rhs offending_line ++ skipn line_end _code
    else
      if ptype_eqb pt Parquet then _code
      else
        firstn line_start _code ++ blank_path path offending_line
          ++ skipn line_end _code
  else _code.

(** The inner loop: the matches are those of the text as it was when
    the loop over this pattern began. *)
Definition sanitize_pattern (allowed_paths : list str) (_code : str)
                            (p : str * ptype) : str :=
  fold_left (process_match allowed_paths (snd p)) (finditer (fst p) _code) _code.

(** The whole pass over the pattern table. *)
Definition sanitize (allowed_paths : list str) (_code : str) : str :=
  fold_left (sanitize_pattern allowed_paths) patterns _code.

(** [path not in allowed_paths and os.path.basename(path) not in
    allowed_paths]. *)
Definition disallowed (allowed_paths : list str) (m : rmatch) : bool :=
  negb (mem (m_group1 m) allowed_paths)
  && negb (mem (basename (m_group1 m)) allowed_paths).

(** [_modified] at the end of the pass: some match of some pattern,
    taken in the text as it stood when the loop over that pattern
    began, has a path that is not allowed.  It is set for a Parquet
    match too. *)
Definition modified (allowed_paths : list str) (_code : str) : bool :=
  snd (fold_left
         (fun (acc : str * bool) (p : str * ptype) =>
            (sanitize_pattern allowed_paths (fst acc) p,
             snd acc || existsb (disallowed allowed_paths)
                                (finditer (fst p) (fst acc))))
         patterns (_code, false)).

(** The property the pass is meant to establish: every match of a
    CSV-read or file-open pattern in [_code] names an allowed path. *)
Definition reads_allowed (allowed_paths : list str) (_code : str) : bool :=
  forallb
    (fun p : str * ptype =>
       ptype_eqb (snd p) Parquet
       || forallb (fun m => allowed_path allowed_paths (m_group1 m))
                  (finditer (fst p) _code))
    patterns.

End AccessSanitizer.

(* ================================================================= *)
(** ** Exceptions *)

Inductive exn : Type :=
| ValueError
| KeyError
| IndexError
| TypeError
| AttributeError
| UnicodeEncodeError
| TimeoutExpired
| JSONDecodeError
| OtherException.

(** A computation that returns a value or raises. *)
Definition M (A : Type) : Type := (exn + A)%type.

Definition ret {A : Type} (a : A) : M A := inr a.
Definition raise {A : Type} (e : exn) : M A := inl e.

Definition bind {A B : Type} (m : M A) (k : A -> M B) : M B :=
  match m with
  | inl e => inl e
  | inr a => k a
  end.

(** [try: m except Exception as e: h e]. *)
Definition try_except {A : Type} (m : M A) (h : exn -> M A) : M A :=
  match m with
  | inl e => h e
  | inr a => inr a
  end.

Declare Scope py_scope.
Delimit Scope py_scope with py.
Notation "x <- m ;; k" := (bind m (fun x => k))
  (at level 61, m at next level, right associativity) : py_scope.

(* ================================================================= *)
(** ** SourceDiscoverer: [extract_urls_with_regex] *)

Module SourceDiscoverer.
Import PyStr.

(** An element of [database_files]. *)
Record db_file : Type := mkDbFile {
  url : str;
  format : str;
  description : str
}.

(** The dictionary the extractor returns. *)
Record sources : Type := mkSources {
  scrape_urls : list str;
  database_files : list db_file;
  has_data_sources : bool
}.

(** The class of characters a URL is made of: no whitespace, quote or
    angle bracket. *)
Definition url_chr (c : ascii) : bool :=
  negb (is_space c || chr_eqb c "'"%char || chr_eqb c dq
        || chr_eqb c "<"%char || chr_eqb c ">"%char).

(** One attempt of a scheme followed by one or more URL characters at
    the head of [s]; the class is greedy and nothing follows it. *)
Definition url_at (scheme s : str) : option str :=
  if startswith s scheme then
    match take_while url_chr (skipn (length scheme) s) with
    | [] => None
    | body => Some (scheme ++ body)
    end
  else None.

(** The URL pattern with its optional [s]: the longer scheme is tried
    first, the shorter one after backtracking. *)
Definition http_url_at (s : str) : option str :=
  match url_at (lit "https://") s with
  | Some u => Some u
  | None => url_at (lit "http://") s
  end.

Definition s3_url_at (s : str) : option str := url_at (lit "s3://") s.

(** [re.findall] for a pattern without groups. *)
Fixpoint findall_from (at_head : str -> option str) (skip : nat) (s : str)
  : list str :=
  match s with
  | [] => []
  | _ :: rest =>
      match skip with
      | S k => findall_from at_head k rest
      | O =>
          match at_head s with
          | Some m => m :: findall_from at_head (length m - 1) rest
          | None => findall_from at_head 0 rest
          end
      end
  end.

Definition findall (at_head : str -> option str) (s : str) : list str :=
  findall_from at_head 0 s.

(** Removal of the trailing run of full stops, commas, semicolons and
    closing parentheses. *)
Definition trailing_punct (c : ascii) : bool :=
  chr_eqb c "."%char || chr_eqb c ","%char || chr_eqb c ";"%char
  || chr_eqb c ")"%char.

Definition clean (url : str) : str := rev (drop_while trailing_punct (rev url)).

Definition skip_patterns : list str :=
  [ lit "example.com"; lit "documentation"; lit "github.com"; lit "docs.";
    lit "help."; lit "/docs/"; lit "/help/"; lit "/guide/"; lit "/tutorial/" ].

(** [any(pattern in text for pattern in patterns)]. *)
Definition any_in (patterns : list str) (text : str) : bool :=
  existsb (fun pattern => contains text pattern) patterns.

Definition database_exts : list str := [ lit ".parquet"; lit ".csv"; lit ".json" ].

Definition format_type_of (clean_url : str) : str :=
  if contains clean_url (lit ".parquet") then lit "parquet"
  else if contains clean_url (lit ".csv") then lit "csv"
  else lit "json".

(** The body of the first loop for one URL, on the two lists. *)
Definition classify (acc : list str * list db_file) (url : str)
  : list str * list db_file :=
  let (scrape_urls, database_files) := acc in
  let clean_url := clean url in
  if any_in skip_patterns (lower clean_url) then acc
  else if any_in database_exts (lower clean_url) then
    let format_type := format_type_of clean_url in
    (scrape_urls,
     database_files
       ++ [mkDbFile clean_url format_type
             (lit "Database file (" ++ format_type ++ lit ")")])
  else if negb (any_in [lit "ecourts.gov.in"] (lower clean_url)) then
    (scrape_urls ++ [clean_url], database_files)
  else acc.

(** [s.split()]: the maximal runs of non-whitespace characters. *)
Fixpoint split_ws (s : str) : list str :=
  match s with
  | [] => []
  | c :: s' =>
      if is_space c then split_ws s'
      else match s' with
           | [] => [[c]]
           | d :: _ =>
               if is_space d then [c] :: split_ws s'
               else match split_ws s' with
                    | t :: ts => (c :: t) :: ts
                    | [] => [[c]]
                    end
           end
  end.

Definition placeholders : list str :=
  [ lit "xyz"; lit "example"; lit "***"; lit "EXAMPLE" ].

(** The body of the second loop for one S3 path. *)
Definition add_s3 (database_files : list db_file) (s3_url : str)
  : M (list db_file) :=
  if any_in placeholders s3_url then ret database_files
  else
    match split_ws s3_url with
    | clean_s3 :: _ =>
        ret (database_files
               ++ [mkDbFile clean_s3 (lit "parquet") (lit "S3 parquet file")])
    | [] => raise IndexError
    end.

(** A [for] loop whose body may raise. *)
Fixpoint for_each {A S : Type} (body : S -> A -> M S) (xs : list A) (st : S)
  : M S :=
  match xs with
  | [] => ret st
  | x :: xs' => bind (body st x) (for_each body xs')
  end.

Definition extract_urls_with_regex (question_text : str) : M sources :=
  let urls := findall http_url_at question_text in
  let (scrape_urls, database_files) := fold_left classify urls ([], []) in
  let s3_urls := findall s3_url_at question_text in
  bind (for_each add_s3 s3_urls database_files) (fun database_files =>
  ret (mkSources scrape_urls database_files
         ((0 <? length scrape_urls) || (0 <? length database_files)))).

End SourceDiscoverer.

(* ================================================================= *)
(** ** Scraping: [scrape_all_urls] *)

Module Scraper.
Import PyStr.

(** A table: column names and rows of cells. *)
Record DataFrame : Type := mkDataFrame {
  df_columns : list str;
  df_rows : list (list str)
}.

(** [df.empty]: some axis has length zero. *)
Definition df_empty (df : DataFrame) : bool :=
  (length (df_columns df) =? 0) || (length (df_rows df) =? 0).

(** [df.shape]. *)
Definition df_shape (df : DataFrame) : nat * nat :=
  (length (df_rows df), length (df_columns df)).

(** [df.head(n).to_dict('records')]. *)
Definition df_head_records (n : nat) (df : DataFrame) : list (list (str * str)) :=
  map (fun row => combine (df_columns df) row) (firstn n (df_rows df)).

(** The outside of the loop body.  [extract_data i url] is the table the
    scraper returns for the call of position [i], or the exception it
    raises; [to_csv i filename df] is the write of that table. *)
Record World : Type := mkWorld {
  extract_data : nat -> str -> M DataFrame;
  to_csv : nat -> str -> DataFrame -> M unit
}.

(** An element of [scraped_data]. *)
Record scraped : Type := mkScraped {
  filename : str;
  source_url : str;
  shape : nat * nat;
  columns : list str;
  sample_data : list (list (str * str));
  description : str
}.

(** The name chosen for position [i]. *)
Definition filename_for (i : nat) : str :=
  if 0 <? i then lit "data" ++ of_nat (i + 1) ++ lit ".csv" else lit "data.csv".

(** The [try] block of one iteration: the entry to append, if any. *)
Definition scrape_one (w : World) (i : nat) (url : str) : M (option scraped) :=
  (df <- extract_data w i url ;;
   if negb (df_empty df) then
     let filename := filename_for i in
     _ <- to_csv w i filename df ;;
     ret (Some (mkScraped filename url (df_shape df) (df_columns df)
                  (df_head_records 3 df) (lit "Scraped data from " ++ url)))
   else ret None)%py.

(** The loop over [enumerate(urls)] from position [i], with the list
    built so far; an exception in the body is caught and the loop goes
    on. *)
Fixpoint scrape_loop (w : World) (i : nat) (urls : list str)
                     (scraped_data : list scraped) : M (list scraped) :=
  match urls with
  | [] => ret scraped_data
  | url :: rest =>
      (scraped_data <-
         try_except
           (r <- scrape_one w i url ;;
            match r with
            | Some entry => ret (scraped_data ++ [entry])
            | None => ret scraped_data
            end)
           (fun _ => ret scraped_data) ;;
       scrape_loop w (S i) rest scraped_data)%py
  end.

Definition scrape_all_urls (w : World) (urls : list str) : M (list scraped) :=
  scrape_loop w 0 urls [].

End Scraper.

(* ================================================================= *)
(** ** SchemaProbe: [get_database_schemas] *)

Module SchemaProbe.
Import PyStr.

(** A database-file reference: a dictionary in which each of the three
    keys may be absent. *)
Record db_ref : Type := mkDbRef {
  ref_url : option str;
  ref_format : option str;
  ref_description : option str
}.

(** The table function a query reads through. *)
Inductive reader : Type := ReadCsvAuto | ReadParquet | ReadJsonAuto.

(** What the two queries on one source give back: the schema rows and
    the sample rows. *)
Record probe : Type := mkProbe {
  column_name : list str;
  column_type : list str;
  sample_rows : list (list (str * str))
}.

(** An item of [database_files].  The list comes out of a JSON text
    that nothing validates, so an item is a dictionary or a value of
    another kind (a string, a number, a list, [null]); the values a
    dictionary holds under the three keys are taken to be strings. *)
Inductive item : Type :=
| Dict (db_file : db_ref)
| NotDict.

(** The analytic engine and the file system.  [connect] and [close]
    are the opening and the closing of the connection, both outside
    every handler; [load_extensions] is the pair of extension installs;
    [query i r url] stands for the two queries issued for the item of
    position [i]. *)
Record World : Type := mkWorld {
  connect : M unit;
  load_extensions : M unit;
  path_exists : str -> bool;
  query : nat -> reader -> str -> M probe;
  close : M unit
}.

Record schema_info : Type := mkSchema {
  columns : list str;
  column_types : list (str * str)
}.

(** An element of [database_info]. *)
Record db_info : Type := mkDbInfo {
  filename : str;
  source_url : str;
  format : str;
  schema : schema_info;
  sample_data : list (list (str * str));
  description : str;
  total_columns : nat
}.

(** [d[key]]. *)
Definition getitem (field : option str) : M str :=
  match field with
  | Some v => ret v
  | None => raise KeyError
  end.

Definition hard_excluded : str := lit "s3://indian-high-court-judgments".

(** The [try] block of one iteration: [None] stands for [continue]. *)
Definition probe_one (w : World) (i : nat) (db_file : db_ref) : M (option db_info) :=
  (url <- getitem (ref_url db_file) ;;
   format_type <- getitem (ref_format db_file) ;;
   if (length url =? 0) || contains url hard_excluded then ret None
   else
     let run (r : reader) : M (option db_info) :=
       p <- query w i r url ;;
       let schema_info :=
         mkSchema (column_name p) (combine (column_name p) (column_type p)) in
       ret (Some (mkDbInfo
                    (lit "database_" ++ of_nat (i + 1))
                    url format_type schema_info (sample_rows p)
                    (match ref_description db_file with
                     | Some d => d
                     | None => lit "Database file (" ++ format_type ++ lit ")"
                     end)
                    (length (columns schema_info)))) in
     if contains format_type (lit "csv") || endswith url (lit ".csv") then
       if path_exists w url then run ReadCsvAuto else run ReadCsvAuto
     else if contains format_type (lit "parquet") || endswith url (lit ".parquet") then
       run ReadParquet
     else if contains format_type (lit "json") || endswith url (lit ".json") then
       run ReadJsonAuto
     else ret None)%py.

(** The [try] block on an item of any kind: subscripting a value that
    is not a dictionary by a key raises [TypeError]. *)
Definition probe_item (w : World) (i : nat) (db_file : item) : M (option db_info) :=
  match db_file with
  | Dict d => probe_one w i d
  | NotDict => raise TypeError
  end.

(** The handler of one iteration.  Its message is built from
    [db_file.get('url')], a method that only a dictionary has: for any
    other item the handler itself raises [AttributeError]. *)
Definition report (db_file : item) : M unit :=
  match db_file with
  | Dict _ => ret tt
  | NotDict => raise AttributeError
  end.

(** The loop over [enumerate(database_files)] from position [i]. *)
Fixpoint probe_loop (w : World) (i : nat) (database_files : list item)
                    (database_info : list db_info) : M (list db_info) :=
  match database_files with
  | [] => ret database_info
  | db_file :: rest =>
      (database_info <-
         try_except
           (r <- probe_item w i db_file ;;
            match r with
            | Some entry => ret (database_info ++ [entry])
            | None => ret database_info
            end)
           (fun _ => _ <- report db_file ;; ret database_info) ;;
       probe_loop w (S i) rest database_info)%py
  end.

(** The whole function.  The connection is opened before the loop and
    closed after it, outside any handler. *)
Definition get_database_schemas (w : World) (database_files : list item)
  : M (list db_info) :=
  (_ <- connect w ;;
   _ <- try_except (load_extensions w) (fun _ => ret tt) ;;
   database_info <- probe_loop w 0 database_files [] ;;
   _ <- close w ;;
   ret database_info)%py.

End SchemaProbe.

(* ================================================================= *)
(** ** The text clean-ups around synthesis *)

Module CodeCleaning.
Import PyStr.

Definition newline : ascii := ascii_of_nat 10.
Definition fence : str := lit "```".

(** The fence removal of the first synthesis. *)
Definition strip_fences (raw_code : str) : str :=
  let raw_code := strip raw_code in
  if contains raw_code fence
  then replace (replace raw_code (lit "```python") []) fence []
  else raw_code.

(** The line-by-line fence removal of a repair. *)
Fixpoint clean_lines (in_code_block : bool) (lines : list str) : list str :=
  match lines with
  | [] => []
  | line :: rest =>
      if startswith (strip line) fence then clean_lines (negb in_code_block) rest
      else if in_code_block
              || (negb (startswith (strip line) fence) && negb (contains line fence))
      then line :: clean_lines in_code_block rest
      else clean_lines in_code_block rest
  end.

Definition clean_fixed_code (fixed_code : str) : str :=
  strip (join [newline] (clean_lines false (split_chr newline fixed_code))).

(** The class of characters of an argument value: neither a comma nor
    a closing parenthesis. *)
Definition arg_chr (c : ascii) : bool :=
  negb (chr_eqb c ","%char || chr_eqb c ")"%char).

(** The part of the [quality=] pattern after its group, at the head of
    [t]: a comma, the keyword, the equals sign, each after optional
    whitespace, and a non-empty value.  Gives the length matched. *)
Definition quality_tail (t : str) : option nat :=
  match t with
  | c :: t1 =>
      if chr_eqb c ","%char then
        let t2 := drop_while is_space t1 in
        if startswith t2 (lit "quality") then
          match drop_while is_space (skipn 7 t2) with
          | e :: t4 =>
              if chr_eqb e "="%char then
                match take_while arg_chr t4 with
                | [] => None
                | v => Some (length t - length t4 + length v)
                end
              else None
          | [] => None
          end
        else None
      else None
  | [] => None
  end.

(** The lazy run of characters other than a closing parenthesis that
    ends the group: the shortest one after which the tail matches. *)
Fixpoint lazy_args (r : str) : option (nat * nat) :=
  match quality_tail r with
  | Some n => Some (0, n)
  | None =>
      match r with
      | c :: r' =>
          if chr_eqb c ")"%char then None
          else match lazy_args r' with
               | Some (k, n) => Some (S k, n)
               | None => None
               end
      | [] => None
      end
  end.

(** One attempt of the whole pattern at the head of [s]: the text of
    group 1 and the length of the match. *)
Definition quality_at (s : str) : option (str * nat) :=
  if startswith s (lit "savefig") then
    match drop_while is_space (skipn 7 s) with
    | p :: r3 =>
        if chr_eqb p "("%char then
          match lazy_args r3 with
          | Some (k, n) =>
              let g1 := length s - length r3 + k in
              Some (firstn g1 s, g1 + n)
          | None => None
          end
        else None
    | [] => None
    end
  else None.

(** The [re.sub] that drops a [quality=] argument from [savefig] calls:
    every match is replaced by its group 1. *)
Fixpoint strip_quality_from (skip : nat) (s : str) : str :=
  match s with
  | [] => []
  | c :: rest =>
      match skip with
      | S k => strip_quality_from k rest
      | O =>
          match quality_at s with
          | Some (g1, n) => g1 ++ strip_quality_from (n - 1) rest
          | None => c :: strip_quality_from 0 rest
          end
      end
  end.

Definition strip_quality (_code : str) : str := strip_quality_from 0 _code.

(** [re.search] for the missing-module message: the module name. *)
Definition module_at (s : str) : option str :=
  if startswith s (lit "No module named '") then
    let r := skipn 17 s in
    let name := take_while (fun c => negb (chr_eqb c "'"%char)) r in
    match name, skipn (length name) r with
    | _ :: _, _ :: _ => Some name
    | _, _ => None
    end
  else None.

Fixpoint search_module (s : str) : option str :=
  match module_at s with
  | Some name => Some name
  | None =>
      match s with
      | [] => None
      | _ :: s' => search_module s'
      end
  end.

End CodeCleaning.

(* ================================================================= *)
(** ** The pipeline of [aianalyst] from the synthesis call on *)

Module Pipeline.
Import PyStr OutputValidator CodeCleaning.

(** A parsed JSON value. *)
Inductive json : Type :=
| JNull
| JBool (b : bool)
| JNumber (digits : str)
| JString (s : str)
| JArray (items : list json)
| JObject (members : list (str * json)).

(** A response of the model gateway.  For each of the two keys the code
    looks for: whether it is present and, if so, the text found by
    indexing under it, or the exception raised on the way to a text:
    by the indexing itself, or by the first string method called on a
    value found there that is not a string. *)
Record response : Type := mkResponse {
  candidates : option (M str);
  choices : option (M str)
}.

(** [subprocess.CompletedProcess]. *)
Record completed : Type := mkCompleted {
  returncode : Z;
  stdout : str;
  stderr : str
}.

(** The three places where the generated program is run: after the
    first synthesis, at the start of repair [n] (for the error context)
    and after the rewrite of repair [n]. *)
Inductive site : Type :=
| Initial
| Context (n : nat)
| Fixed (n : nat).

(** The outside of the pipeline.  A run of the program depends on the
    place, on whether it is the re-run after an install, and on the text
    of [chatgpt_code.py]; a run or an install returns a completed process
    or raises ([TimeoutExpired] or another exception).  [encodable s c]
    says whether the text written at place [s], held here as [c], can
    be encoded for the file: a text that comes from the gateway may
    hold characters that the encoding of the file refuses (a lone
    surrogate out of a JSON escape), which the alphabet of [str] does
    not have. *)
Record World : Type := mkWorld {
  horizon_response : response;
  horizon_fix : nat -> response;
  encodable : site -> str -> bool;
  run_python : site -> bool -> str -> M completed;
  pip_install : site -> str -> M completed;
  json_loads : str -> M json;
  elapsed : Z
}.

(** What the pipeline does to the outside, in order. *)
Inductive event : Type :=
| Sanitize
| Exec (s : site) (rerun : bool)
| Pip (s : site) (module : str)
| FixAttempt (n : nat)
| FixRequest (n : nat).

(** The text of [chatgpt_code.py], as it is on disk, and the events so
    far. *)
Record state : Type := mkState {
  chatgpt_code : str;
  log : list event
}.

(** Computations over the state that may raise; what was done before an
    exception stays done. *)
Definition SM (A : Type) : Type := state -> M A * state.

Definition sret {A : Type} (a : A) : SM A := fun st => (inr a, st).

Definition sbind {A B : Type} (m : SM A) (k : A -> SM B) : SM B :=
  fun st =>
    match m st with
    | (inl e, st') => (inl e, st')
    | (inr a, st') => k a st'
    end.

Definition stry {A : Type} (m : SM A) (h : exn -> SM A) : SM A :=
  fun st =>
    match m st with
    | (inl e, st') => h e st'
    | (inr a, st') => (inr a, st')
    end.

Definition lift {A : Type} (m : M A) : SM A := fun st => (m, st).

Definition emit (e : event) : SM unit :=
  fun st => (inr tt, mkState (chatgpt_code st) (log st ++ [e])).

Definition cr : ascii := ascii_of_nat 13.

(** What a read in text mode makes of the text of a file: a carriage
    return followed by a line feed, and a carriage return alone, each
    become one line feed. *)
Fixpoint universal_newlines (s : str) : str :=
  match s with
  | [] => []
  | c :: rest =>
      if chr_eqb c cr then
        newline ::
          match rest with
          | d :: rest' =>
              if chr_eqb d newline then universal_newlines rest'
              else universal_newlines rest
          | [] => []
          end
      else c :: universal_newlines rest
  end.

(** [open("chatgpt_code.py", "r", encoding="utf-8").read()].  The file
    is one the pipeline wrote, and the read is taken to succeed: the
    files are on a POSIX system whose locale encoding is UTF-8, so
    that what was written is read back, up to the line ends. *)
Definition read_code : SM str :=
  fun st => (inr (universal_newlines (chatgpt_code st)), st).

(** The text on disk, as the interpreter that runs the file gets it. *)
Definition file_text : SM str := fun st => (inr (chatgpt_code st), st).

(** The write of a text that was read from the file and edited: it can
    be encoded, since the file held it; on a POSIX system the line
    feeds are written as they are. *)
Definition write_code (c : str) : SM unit :=
  fun st => (inr tt, mkState c (log st)).

(** The write, at place [s], of a text made from a response of the
    gateway.  Opening the file for writing empties it; a text that
    cannot be encoded then raises before anything is written. *)
Definition write_encoded (w : World) (s : site) (c : str) : SM unit :=
  fun st =>
    if encodable w s c then (inr tt, mkState c (log st))
    else (inl UnicodeEncodeError, mkState [] (log st)).

Declare Scope sm_scope.
Delimit Scope sm_scope with sm.
Notation "x <- m ;; k" := (sbind m (fun x => k))
  (at level 61, m at next level, right associativity) : sm_scope.
Notation "m ;; k" := (sbind m (fun _ => k))
  (at level 61, right associativity) : sm_scope.

(** The two response shapes, and the error for any other. *)
Definition response_text (r : response) : M str :=
  match candidates r with
  | Some text => text
  | None =>
      match choices r with
      | Some content => content
      | None => raise ValueError
      end
  end.

(** One run of the program with the install-and-re-run on a missing
    module.  An exception of the first run is raised; one of the install
    or of the re-run is caught and the first result stands. *)
Definition run_with_self_heal (w : World) (s : site) : SM completed :=
  (code <- file_text ;;
   emit (Exec s false) ;;
   result <- lift (run_python w s false code) ;;
   if negb (returncode result =? 0)%Z then
     match search_module (stderr result) with
     | Some missing_module =>
         stry (emit (Pip s missing_module) ;;
               _ <- lift (pip_install w s missing_module) ;;
               emit (Exec s true) ;;
               lift (run_python w s true code))
              (fun _ => sret result)
     | None => sret result
     end
   else sret result)%sm.

(** The check of a result: the parsed answer when the exit status is
    zero, the extracted text has the shape of a JSON value and parses.
    A [JSONDecodeError] is caught here; any other exception of the parser
    goes to the enclosing handler. *)
Definition parse_result (w : World) (result : completed) : M (option json) :=
  if (returncode result =? 0)%Z then
    let stdout := strip (stdout result) in
    let json_output := extract_json_from_output stdout in
    if is_valid_json_output json_output then
      try_except
        (bind (json_loads w json_output) (fun output_data => ret (Some output_data)))
        (fun e => match e with
                  | JSONDecodeError => ret None
                  | _ => raise e
                  end)
    else ret None
  else ret None.

(** The first synthesis: the program text from the response, without its
    fences; the file written, outside every handler; the [quality=]
    clean-up; the sanitising pass.  The file is rewritten after the
    pass only when some match was disallowed. *)
Definition synthesize (w : World) (allowed_paths : list str) : SM unit :=
  (raw_code <- lift (response_text (horizon_response w)) ;;
   let cleaned_code := strip_fences raw_code in
   write_encoded w Initial cleaned_code ;;
   _code <- read_code ;;
   write_code (strip_quality _code) ;;
   _code <- read_code ;;
   emit Sanitize ;;
   if AccessSanitizer.modified allowed_paths _code
   then write_code (AccessSanitizer.sanitize allowed_paths _code)
   else sret tt)%sm.

(** The first execution and check: every exception ends the attempt
    without an answer. *)
Definition initial_attempt (w : World) : SM (option json) :=
  stry (result <- run_with_self_heal w Initial ;;
        lift (parse_result w result))%sm
       (fun _ => sret None).

(** The body of the repair loop for [fix_attempt = n].  All of it is
    inside one handler, the write of the repaired text included. *)
Definition fix_cycle (w : World) (n : nat) : SM (option json) :=
  stry (code_content <- read_code ;;
        stry (_ <- run_with_self_heal w (Context n) ;; sret tt)
             (fun _ => sret tt) ;;
        emit (FixRequest n) ;;
        fixed_code <- lift (response_text (horizon_fix w n)) ;;
        let cleaned_fixed_code := clean_fixed_code fixed_code in
        write_encoded w (Fixed n) cleaned_fixed_code ;;
        _code <- read_code ;;
        write_code (strip_quality _code) ;;
        result <- run_with_self_heal w (Fixed n) ;;
        lift (parse_result w result))%sm
       (fun _ => sret None).

(** What the endpoint returns. *)
Inductive value : Type :=
| Answer (output_data : json)
| ErrorObject (error : str) (time : Z).

Definition max_fix_attempts : nat := 3.

(** The [while] loop, with a bound on the number of times its test is
    evaluated; [None] when the bound is reached. *)
Fixpoint repair_loop (fuel : nat) (w : World) (fix_attempt : nat) (st : state)
  : option (M value * state) :=
  match fuel with
  | O => None
  | S fuel' =>
      if fix_attempt <? max_fix_attempts then
        let fix_attempt := fix_attempt + 1 in
        match (emit (FixAttempt fix_attempt) ;; fix_cycle w fix_attempt)%sm st with
        | (inr (Some output_data), st') => Some (inr (Answer output_data), st')
        | (inr None, st') => repair_loop fuel' w fix_attempt st'
        | (inl e, st') => Some (inl e, st')
        end
      else
        Some (inr (ErrorObject (lit "Code execution failed after all attempts")
                               (elapsed w)), st)
  end.

Definition initial_state : state := mkState [] [].

(** [aianalyst] from the synthesis call to its end.  What comes before
    (the question, the optional image and table, discovery, scraping,
    probing, the task breakdown) is taken to have completed; the
    sanitizer sees it as [allowed_paths]. *)
Definition aianalyst (fuel : nat) (w : World) (allowed_paths : list str)
  : option (M value * state) :=
  match synthesize w allowed_paths initial_state with
  | (inl e, st) => Some (inl e, st)
  | (inr _, st) =>
      match initial_attempt w st with
      | (inr (Some output_data), st') => Some (inr (Answer output_data), st')
      | (_, st') => repair_loop fuel w 0 st'
      end
  end.

End Pipeline.

(* ================================================================= *)
(** ** Gateway: [ping_gemini], [ping_chatgpt], [ping_horizon] *)

Module Gateway.
Import PyStr.

(** An HTTP response: whether [raise_for_status] passes, and what
    [response.json()] gives. *)
Record http_response (A : Type) : Type := mkHttp {
  status_ok : bool;
  json_body : M A
}.
Arguments mkHttp {A} _ _.
Arguments status_ok {A} _.
Arguments json_body {A} _.

(** What a call returns: the decoded body, the error dictionary, or
    the value [None] of a function that ends without a [return]. *)
Inductive reply (A : Type) : Type :=
| Body (body : A)
| ErrorDict (error : str)
| NoneValue.
Arguments Body {A} _.
Arguments ErrorDict {A} _.
Arguments NoneValue {A}.

(** The body of the [try] of [ping_gemini] and [ping_horizon] on the
    pass with counter value [tries]: the post, the status check, the
    decoding.  [post tries] is what [client.post] does on that pass. *)
Definition checked_pass {A : Type} (post : nat -> M (http_response A))
                        (tries : nat) : M A :=
  (response <- post tries ;;
   if status_ok response then json_body response else raise OtherException)%py.

(** The body of the [try] of [ping_chatgpt]: no status check. *)
Definition unchecked_pass {A : Type} (post : nat -> M (http_response A))
                          (tries : nat) : M A :=
  (response <- post tries ;; json_body response)%py.

(** The [while tries < max_tries] loop the three functions share, with
    a bound on the number of times its test is evaluated and the list
    of the passes made so far; [after] is what follows the loop. *)
Fixpoint ping_loop {A : Type} (fuel : nat) (pass : nat -> M A) (after : reply A)
                   (max_tries : Z) (tries : nat) (posts : list nat)
  : option (reply A * list nat) :=
  match fuel with
  | O => None
  | S fuel' =>
      if (Z.of_nat tries <? max_tries)%Z then
        match pass tries with
        | inr body => Some (Body body, posts ++ [tries])
        | inl _ => ping_loop fuel' pass after max_tries (tries + 1) (posts ++ [tries])
        end
      else Some (after, posts)
  end.

Definition gemini_failed : str := lit "Gemini failed after max retries".

Definition ping_gemini {A : Type} (fuel : nat) (post : nat -> M (http_response A))
                       (max_tries : Z) : option (reply A * list nat) :=
  ping_loop fuel (checked_pass post) (ErrorDict gemini_failed) max_tries 0 [].

Definition ping_chatgpt {A : Type} (fuel : nat) (post : nat -> M (http_response A))
                        (max_tries : Z) : option (reply A * list nat) :=
  ping_loop fuel (unchecked_pass post) NoneValue max_tries 0 [].

Definition ping_horizon {A : Type} (fuel : nat) (post : nat -> M (http_response A))
                        (max_tries : Z) : option (reply A * list nat) :=
  ping_loop fuel (checked_pass post) (ErrorDict gemini_failed) max_tries 0 [].

End Gateway.

(* ================================================================= *)
(** ** SourceExtractor: [extract_all_urls_and_databases] *)

Module SourceExtractor.
Import PyStr Gateway.

(** Index of the last occurrence of [sub] in [s]. *)
Fixpoint rindex_of (s sub : str) : option nat :=
  match s with
  | [] => if startswith [] sub then Some 0 else None
  | _ :: s' =>
      match rindex_of s' sub with
      | Some j => Some (S j)
      | None => if startswith s sub then Some 0 else None
      end
  end.

(** [s.rfind(sub)]. *)
Definition rfind (s sub : str) : Z :=
  match rindex_of s sub with
  | Some i => Z.of_nat i
  | None => (-1)%Z
  end.

(** A slice bound as Python reads it: a negative bound counts from the
    end, and both are clamped to the string. *)
Definition bound (len : nat) (i : Z) : nat :=
  if (i <? 0)%Z then Z.to_nat (Z.max (Z.of_nat len + i) 0)
  else Nat.min (Z.to_nat i) len.

(** [s[a:b]] for integers of either sign. *)
Definition py_slice (s : str) (a b : Z) : str :=
  slice s (bound (length s) a) (bound (length s) b).

(** The text handed to the parser: what stands between the fences when
    the response text has some. *)
Definition json_text (response_text : str) : str :=
  if contains response_text (lit "```json") then
    let json_start := (find response_text (lit "```json") + 7)%Z in
    let json_end := find_from response_text (lit "```") (Z.to_nat json_start) in
    strip (py_slice response_text json_start json_end)
  else if contains response_text (lit "```") then
    let json_start := (find response_text (lit "```") + 3)%Z in
    let json_end := rfind response_text (lit "```") in
    strip (py_slice response_text json_start json_end)
  else response_text.

(** The decoded body of the gateway as the function looks at it:
    whether it has the key [error], whether it has the key
    [candidates] with a value that is not empty, and the text found by
    indexing under it, or the exception that indexing raises. *)
Record gemini_body : Type := mkGeminiBody {
  has_error : bool;
  has_candidates : bool;
  first_text : M str
}.

(** The function after its call of the gateway.  It returns what the
    parser gives, of a type left open, or the dictionary of the regex
    fallback. *)
Definition extract_from_response {A : Type} (json_loads : str -> M A)
    (response : reply gemini_body) (question_text : str)
  : M (A + SourceDiscoverer.sources) :=
  let fallback : M (A + SourceDiscoverer.sources) :=
    (r <- SourceDiscoverer.extract_urls_with_regex question_text ;; ret (inr r))%py in
  try_except
    (match response with
     | ErrorDict _ => fallback
     | NoneValue => raise OtherException
     | Body response =>
         if has_error response then fallback
         else if negb (has_candidates response) then fallback
         else
           (response_text <- first_text response ;;
            let response_text := json_text response_text in
            r <- json_loads response_text ;;
            ret (inl r))%py
     end)
    (fun _ => fallback).

(** The whole function: the result and the passes of the gateway. *)
Definition extract_all_urls_and_databases {A : Type} (fuel : nat)
    (post : nat -> M (http_response gemini_body)) (json_loads : str -> M A)
    (question_text : str)
  : option (M (A + SourceDiscoverer.sources) * list nat) :=
  match ping_gemini fuel post 3 with
  | Some (response, posts) =>
      Some (extract_from_response json_loads response question_text, posts)
  | None => None
  end.

End SourceExtractor.

(* ================================================================= *)
(** ** AllowedPaths: the list of allowed data sources of [aianalyst] *)

Module AllowedPaths.
Import PyStr.

(** [list(dict.fromkeys(xs))]: the first occurrence of each string, in
    the order of the list; [seen] holds the keys already in. *)
Fixpoint fromkeys (seen xs : list str) : list str :=
  match xs with
  | [] => []
  | x :: rest =>
      if mem x seen then fromkeys seen rest
      else x :: fromkeys (x :: seen) rest
  end.

Definition provided_csv_filename : str := lit "ProvidedCSV.csv".

(** The list built for the sanitizer and the prompt.
    [provided_csv_info] says whether the dictionary of the provided
    table was made; its [filename] is then the fixed name. *)
Definition allowed_paths (provided_csv_info : bool)
    (scraped_data : list Scraper.scraped)
    (database_info : list SchemaProbe.db_info) : list str :=
  let allowed_paths :=
    (if provided_csv_info then [provided_csv_filename] else [])
    ++ map Scraper.filename scraped_data
    ++ map SchemaProbe.source_url database_info in
  fromkeys [] (filter (fun p => negb (length p =? 0)) allowed_paths).

(** The text appended to the prompt. *)
Definition allowed_files_text (allowed_paths : list str) : str :=
  match allowed_paths with
  | _ :: _ => lit "ALLOWED_DATA_SOURCES:" ++ [CodeCleaning.newline]
              ++ join [CodeCleaning.newline] allowed_paths
  | [] => lit "ALLOWED_DATA_SOURCES: NONE"
  end.

End AllowedPaths.

(* ================================================================= *)
(** ** The vocabulary of the properties *)

Section OutputValidatorTerms.
Import PyStr OutputValidator.

(** [t] occurs in [s] as a contiguous substring. *)
Definition substring (t s : str) : Prop := exists a c, s = a ++ t ++ c.

(** [s] has no substring that starts with [o] and ends with [c]. *)
Definition no_span (o c : ascii) (s : str) : Prop :=
  forall t, substring t s ->
            ~ (startswith t [o] = true /\ endswith t [c] = true).

(** A decision procedure for [no_span], for distinct delimiters. *)
Fixpoint has_span (o c : ascii) (s : str) : bool :=
  match s with
  | [] => false
  | x :: r => (chr_eqb x o && existsb (chr_eqb c) r) || has_span o c r
  end.

(** The text of the greediness example of the specification. *)
Definition two_spans_input : str :=
  litq "noise{^a^:1}moretext{^a^:1,^b^:2}noise".

End OutputValidatorTerms.

Section AccessSanitizerTerms.
Import PyStr AccessSanitizer.

Definition parquet_call_line : str :=
  lit "print(pd.read_parquet('s3://bucket/x.parquet'))".


(** A program that reads two CSV files the AllowList does not hold. *)
Definition two_reads_program : str :=
  lit "df1 = pd.read_csv('sales_data_2023.csv')" ++ [newline]
  ++ lit "df2 = pd.read_csv('b.csv')" ++ [newline]
  ++ lit "print(df1)".



(** Every match of every pattern of the table names an allowed path. *)
Definition matches_allowed (allowed_paths : list str) (_code : str) : bool :=
  forallb
    (fun p : str * ptype =>
       forallb (fun m => allowed_path allowed_paths (m_group1 m))
               (finditer (fst p) _code))
    patterns.

End AccessSanitizerTerms.

Section PipelineTerms.
Import PyStr Pipeline.

(** The values [fix_attempt] takes, read off the log. *)
Definition fix_attempts (l : list event) : list nat :=
  flat_map (fun e => match e with FixAttempt n => [n] | _ => [] end) l.

(** The events of executing, of sanitising and of asking for a repair. *)
Definition is_work (e : event) : bool :=
  match e with
  | FixAttempt _ => false
  | _ => true
  end.

Definition exhausted_message : str := lit "Code execution failed after all attempts".

(** A computation that adds no [FixAttempt] to the log. *)
Definition quiet {A : Type} (m : SM A) : Prop :=
  forall st, fix_attempts (log (snd (m st))) = fix_attempts (log st).

(** The runs whose result is checked: the first one and the one after
    each of the repairs 1 to 3, not those made for the error context. *)
Definition decides (s : site) : bool :=
  match s with
  | Initial => true
  | Fixed n => (1 <=? n) && (n <=? max_fix_attempts)
  | Context _ => false
  end.

(** A world in which the gateway answers with a program and every run
    of it times out. *)
Definition world_timeouts : World :=
  mkWorld (mkResponse (Some (inr (lit "print(1)"))) None)
          (fun _ => mkResponse None (Some (inr (lit "print(2)"))))
          (fun _ _ => true)
          (fun _ _ _ => inl TimeoutExpired)
          (fun _ _ => inl OtherException)
          (fun _ => inl JSONDecodeError)
          42.

(** A world in which the first synthesis response is the error dictionary
    of the gateway. *)
Definition world_no_shape : World :=
  mkWorld (mkResponse None None)
          (fun _ => mkResponse None None)
          (fun _ _ => true)
          (fun _ _ _ => inl TimeoutExpired)
          (fun _ _ => inl OtherException)
          (fun _ => inl JSONDecodeError)
          7.

(** The events of one run with self-heal at place [s] on the program
    text [code], read off the outside. *)
Definition heal_events (w : World) (s : site) (code : str) : list event :=
  match run_python w s false code with
  | inl _ => [Exec s false]
  | inr c =>
      if negb (returncode c =? 0)%Z then
        match CodeCleaning.search_module (stderr c) with
        | Some name =>
            match pip_install w s name with
            | inl _ => [Exec s false; Pip s name]
            | inr _ => [Exec s false; Pip s name; Exec s true]
            end
        | None => [Exec s false]
        end
      else [Exec s false]
  end.

(** The result of one run with self-heal: the re-run when there was one
    and it returned, the first run otherwise. *)
Definition heal_result (w : World) (s : site) (code : str) : M completed :=
  match run_python w s false code with
  | inl e => inl e
  | inr c =>
      if negb (returncode c =? 0)%Z then
        match CodeCleaning.search_module (stderr c) with
        | Some name =>
            match pip_install w s name with
            | inl _ => inr c
            | inr _ =>
                match run_python w s true code with
                | inl _ => inr c
                | inr c2 => inr c2
                end
            end
        | None => inr c
        end
      else inr c
  end.

(** The answer of an attempt whose run gave [r]: none when the run or
    the parser raised. *)
Definition checked (w : World) (r : M completed) : option json :=
  match bind r (parse_result w) with
  | inr o => o
  | inl _ => None
  end.

(** The text of the program file after the first synthesis, for a
    response text [raw_code] that could be written. *)
Definition synthesized (allowed_paths : list str) (raw_code : str) : str :=
  let written :=
    CodeCleaning.strip_quality (universal_newlines (CodeCleaning.strip_fences raw_code)) in
  let _code := universal_newlines written in
  if AccessSanitizer.modified allowed_paths _code
  then AccessSanitizer.sanitize allowed_paths _code
  else written.

(** The text of the program file after a repair, for a response text
    [fixed_code] that could be written. *)
Definition repaired (fixed_code : str) : str :=
  CodeCleaning.strip_quality
    (universal_newlines (CodeCleaning.clean_fixed_code fixed_code)).

(** The attempt made at place [s] on the program text [code] fails: the
    run with self-heal raises or times out, ends with a status other
    than zero, or prints what has not the shape of a JSON value or
    does not parse. *)
Definition attempt_fails (w : World) (s : site) (code : str) : Prop :=
  checked w (heal_result w s code) = None.

(** A world in which one program text, which the gateway never gives,
    would run with success, and every text the request runs fails. *)
Definition world_other_text_runs : World :=
  mkWorld (mkResponse (Some (inr (lit "print(1)"))) None)
          (fun _ => mkResponse None (Some (inr (lit "print(2)"))))
          (fun _ _ => true)
          (fun _ _ code =>
             if str_eqb code (lit "print('{}')")
             then inr (mkCompleted 0 (lit "{}") [])
             else inr (mkCompleted 1 [] (lit "Traceback")))
          (fun _ _ => inl OtherException)
          (fun _ => inr (JObject []))
          11.

(** A world in which the text of the first synthesis cannot be
    encoded. *)
Definition world_surrogate : World :=
  mkWorld (mkResponse (Some (inr (lit "print('?')"))) None)
          (fun _ => mkResponse None None)
          (fun _ _ => false)
          (fun _ _ _ => inr (mkCompleted 0 (lit "{}") []))
          (fun _ _ => inl OtherException)
          (fun _ => inr (JObject []))
          5.

(** A world in which the repair text has line ends of three kinds. *)
Definition world_repair_crlf : World :=
  mkWorld (mkResponse (Some (inr (lit "print(1)"))) None)
          (fun _ => mkResponse None
                      (Some (inr (lit "import sys" ++ [cr; CodeCleaning.newline]
                                  ++ lit "x = 1" ++ [cr]
                                  ++ lit "print(x)" ++ [CodeCleaning.newline]
                                  ++ lit "sys.exit(0)"))))
          (fun _ _ => true)
          (fun _ _ _ => inr (mkCompleted 1 [] (lit "Traceback")))
          (fun _ _ => inl OtherException)
          (fun _ => inr (JObject []))
          9.

(** Counting the events of one kind. *)
Definition count (f : event -> bool) (l : list event) : nat :=
  length (filter f l).

Definition is_exec (e : event) : bool :=
  match e with Exec _ _ => true | _ => false end.

Definition is_pip (e : event) : bool :=
  match e with Pip _ _ => true | _ => false end.

Definition is_fix_request (e : event) : bool :=
  match e with FixRequest _ => true | _ => false end.

Definition is_sanitize (e : event) : bool :=
  match e with Sanitize => true | _ => false end.

(** The numbers of the repair requests sent, read off the log. *)
Definition fix_requests (l : list event) : list nat :=
  flat_map (fun e => match e with FixRequest n => [n] | _ => [] end) l.

(** A world in which every first run misses the module [pandas], the
    install works and the re-run prints a JSON object. *)
Definition world_heals : World :=
  mkWorld (mkResponse (Some (inr (lit "print(1)"))) None)
          (fun _ => mkResponse None None)
          (fun _ _ => true)
          (fun _ rerun _ =>
             if rerun then inr (mkCompleted 0 (lit "{}") [])
             else inr (mkCompleted 1 []
                    (lit "ModuleNotFoundError: No module named 'pandas'")))
          (fun _ _ => inr (mkCompleted 0 [] []))
          (fun _ => inr (JObject []))
          3.

(** A world in which the first program fails, the first repair answers
    with a fenced program that reads a file, and that program prints a
    JSON object. *)
Definition world_repair : World :=
  mkWorld (mkResponse (Some (inr (lit "print(1)"))) None)
          (fun _ => mkResponse None
                      (Some (inr (lit "```python" ++ [CodeCleaning.newline]
                                  ++ lit "df = pd.read_csv('secret.csv')"
                                  ++ [CodeCleaning.newline] ++ lit "```"))))
          (fun _ _ => true)
          (fun s _ _ =>
             match s with
             | Fixed _ => inr (mkCompleted 0 (lit "{}") [])
             | _ => inr (mkCompleted 1 [] (lit "Traceback"))
             end)
          (fun _ _ => inl OtherException)
          (fun _ => inr (JObject []))
          9.

(** A world in which the first run prints a JSON object after a log
    line and the parser accepts it. *)
Definition world_first_run_ok : World :=
  mkWorld (mkResponse (Some (inr (lit "print(1)"))) None)
          (fun _ => mkResponse None None)
          (fun _ _ => true)
          (fun _ _ _ => inr (mkCompleted 0 (lit "loading... {}") []))
          (fun _ _ => inl OtherException)
          (fun _ => inr (JObject []))
          5.

End PipelineTerms.

Section ScraperTerms.
Import PyStr Scraper.

(** The position [i] leads to a saved file: the scraper returns a table,
    the table is not empty and the write succeeds. *)
Definition saved (w : World) (i : nat) (url : str) : bool :=
  match extract_data w i url with
  | inr df =>
      if df_empty df then false
      else match to_csv w i (filename_for i) df with
           | inr _ => true
           | inl _ => false
           end
  | inl _ => false
  end.

(** The entries one position contributes. *)
Definition entries_of (w : World) (i : nat) (url : str) : list scraped :=
  match scrape_one w i url with
  | inr (Some entry) => [entry]
  | _ => []
  end.

(** [enumerate(xs)] counted from [i]. *)
Definition enumerate_from {A : Type} (i : nat) (xs : list A) : list (nat * A) :=
  combine (seq i (length xs)) xs.

(** A scraper that fails on the second call and returns a one-cell table
    otherwise, with writes that succeed. *)
Definition world_second_fails : World :=
  mkWorld (fun i _ => if i =? 1 then inl OtherException
                      else inr (mkDataFrame [lit "c"] [[lit "1"]]))
          (fun _ _ _ => inr tt).

End ScraperTerms.

Section SchemaProbeTerms.
Import PyStr SchemaProbe.

(** The entries one item contributes: its entry when the probe returns
    one, nothing when the item is skipped or the probe raises. *)
Definition probed (w : World) (i : nat) (db_file : db_ref) : list db_info :=
  match probe_one w i db_file with
  | inr (Some entry) => [entry]
  | _ => []
  end.

(** The entries an item of any kind contributes. *)
Definition probed_item (w : World) (i : nat) (db_file : item) : list db_info :=
  match db_file with
  | Dict d => probed w i d
  | NotDict => []
  end.

Definition is_dict (db_file : item) : bool :=
  match db_file with
  | Dict _ => true
  | NotDict => false
  end.


(** An engine that reads CSV sources and fails on the others, and whose
    extensions do not load. *)
Definition world_csv_only : World :=
  mkWorld (inr tt) (inl OtherException) (fun _ => false)
          (fun _ r _ =>
             match r with
             | ReadCsvAuto =>
                 inr (mkProbe [lit "year"; lit "gdp"] [lit "BIGINT"; lit "DOUBLE"] [])
             | _ => inl OtherException
             end)
          (inr tt).

(** An empty URL, a Parquet source and a CSV source. *)
Definition three_references : list db_ref :=
  [mkDbRef (Some []) (Some (lit "csv")) None;
   mkDbRef (Some (lit "https://h.org/t.parquet")) (Some (lit "parquet")) None;
   mkDbRef (Some (lit "https://h.org/gdp.csv")) (Some (lit "csv")) None].

(** An engine that answers every query with the same one-column schema. *)
Definition world_answers : World :=
  mkWorld (inr tt) (inr tt) (fun _ => false)
          (fun _ _ _ => inr (mkProbe [lit "c"] [lit "VARCHAR"] []))
          (inr tt).


(** A dictionary of the fallback as the schema probe receives it: the
    three keys present. *)
Definition as_reference (d : SourceDiscoverer.db_file) : db_ref :=
  mkDbRef (Some (SourceDiscoverer.url d)) (Some (SourceDiscoverer.format d))
          (Some (SourceDiscoverer.description d)).

End SchemaProbeTerms.

Section SourceDiscovererTerms.
Import PyStr SourceDiscoverer.

(** What the first loop adds to each list for one URL. *)
Definition scrape_of (url : str) : list str :=
  let clean_url := clean url in
  if any_in skip_patterns (lower clean_url) then []
  else if any_in database_exts (lower clean_url) then []
  else if negb (any_in [lit "ecourts.gov.in"] (lower clean_url)) then [clean_url]
  else [].

Definition database_of (url : str) : list db_file :=
  let clean_url := clean url in
  if any_in skip_patterns (lower clean_url) then []
  else if any_in database_exts (lower clean_url) then
    [mkDbFile clean_url (format_type_of clean_url)
       (lit "Database file (" ++ format_type_of clean_url ++ lit ")")]
  else [].

(** What the second loop adds for one S3 path. *)
Definition s3_of (s3_url : str) : list db_file :=
  if any_in placeholders s3_url then []
  else [mkDbFile s3_url (lit "parquet") (lit "S3 parquet file")].

Definition query_string_text : str :=
  lit "Load https://data.gov/export.csv?download=1 and plot it".

Definition query_string_url : str := lit "https://data.gov/export.csv?download=1".

End SourceDiscovererTerms.

Section CodeCleaningTerms.
Import PyStr CodeCleaning.

Definition backtick : ascii := "`"%char.

(** No character of [s] is [c]. *)
Definition free_of (c : ascii) (s : str) : bool :=
  forallb (fun x => negb (chr_eqb x c)) s.

End CodeCleaningTerms.

Section GatewayTerms.
Import PyStr Gateway.

(** The first [k] passes raise. *)
Definition all_raise {A : Type} (pass : nat -> M A) (k : nat) : Prop :=
  forall j, j < k -> exists e, pass j = inl e.

(** A gateway whose first two posts fail, one by an exception and one
    by an error status, and whose third post succeeds. *)
Definition post_third_time : nat -> M (http_response str) :=
  fun tries =>
    match tries with
    | 0 => inl OtherException
    | 1 => inr (mkHttp false (inr (lit "quota")))
    | _ => inr (mkHttp true (inr (lit "ok")))
    end.

(** A gateway that is down. *)
Definition post_down : nat -> M (http_response SourceExtractor.gemini_body) :=
  fun _ => inl OtherException.

End GatewayTerms.

Section AllowedPathsTerms.
Import PyStr.

(** What the scraper gives for three addresses when its second call
    fails, and what the probe gives for the three references. *)
Definition scraped_example : list Scraper.scraped :=
  match Scraper.scrape_all_urls world_second_fails
          [lit "http://a"; lit "http://b"; lit "http://c"] with
  | inr scraped_data => scraped_data
  | inl _ => []
  end.

Definition probed_example : list SchemaProbe.db_info :=
  match SchemaProbe.get_database_schemas world_answers
          (map SchemaProbe.Dict three_references) with
  | inr database_info => database_info
  | inl _ => []
  end.

End AllowedPathsTerms.

(* ================================================================= *)
(** ** Facts about the string primitives *)

Section StringFacts.
Import PyStr.

Lemma chr_eqb_refl (c : ascii) : chr_eqb c c = true.
Proof. apply Ascii.eqb_refl. Qed.

Lemma chr_eqb_eq (a b : ascii) : chr_eqb a b = true <-> a = b.
Proof. apply Ascii.eqb_eq. Qed.

Lemma str_eqb_eq (a b : str) : str_eqb a b = true <-> a = b.
Proof.
  revert b; induction a as [|x a IH]; intros [|y b]; simpl;
    try (split; [discriminate | discriminate]); try tauto.
  rewrite andb_true_iff, chr_eqb_eq, IH.
  split; [intros [-> ->]; reflexivity | intros H; inversion H; auto].
Qed.

Lemma startswith_app (p s : str) : startswith (p ++ s) p = true.
Proof.
  induction p as [|x p IH]; simpl; [destruct s; reflexivity|].
  now rewrite chr_eqb_refl, IH.
Qed.

Lemma startswith_split (s p : str) :
  startswith s p = true -> exists r, s = p ++ r.
Proof.
  revert s; induction p as [|x p IH]; intros s H.
  - exists s; reflexivity.
  - destruct s as [|y s]; simpl in H; [discriminate|].
    apply andb_true_iff in H as [H1 H2].
    apply chr_eqb_eq in H1; subst y.
    destruct (IH _ H2) as [r ->]. exists r; reflexivity.
Qed.

Lemma lstrip_suffix (s : str) : exists a, s = a ++ lstrip s.
Proof.
  induction s as [|c s [a IH]]; simpl.
  - exists []; reflexivity.
  - destruct (is_space c).
    + exists (c :: a); simpl; now rewrite <- IH.
    + exists []; reflexivity.
Qed.

Lemma rstrip_prefix (s : str) : exists c, s = rstrip s ++ c.
Proof.
  unfold rstrip. destruct (lstrip_suffix (rev s)) as [a Ha].
  exists (rev a).
  rewrite <- rev_app_distr, <- Ha. now rewrite rev_involutive.
Qed.

Lemma strip_substring (s : str) : exists a c, s = a ++ strip s ++ c.
Proof.
  unfold strip.
  destruct (lstrip_suffix s) as [a Ha].
  destruct (rstrip_prefix (lstrip s)) as [c Hc].
  exists a, c. now rewrite <- Hc.
Qed.

Lemma last_index_spec (c : ascii) (s : str) (j : nat) :
  last_index c s = Some j ->
  firstn (S j) s = firstn j s ++ [c] /\ j < length s.
Proof.
  revert j; induction s as [|x s IH]; intros j H; simpl in H; [discriminate|].
  destruct (last_index c s) as [k|] eqn:E.
  - injection H as <-. destruct (IH k eq_refl) as [IH1 IH2].
    split; [|simpl; lia].
    change (x :: firstn (S k) s = x :: firstn k s ++ [c]).
    now rewrite IH1.
  - destruct (chr_eqb x c) eqn:Ex; [|discriminate].
    injection H as <-. apply chr_eqb_eq in Ex; subst x.
    split; [reflexivity | simpl; lia].
Qed.

Lemma last_index_none (c : ascii) (s : str) :
  last_index c s = None -> ~ In c s.
Proof.
  induction s as [|x s IH]; simpl; intros H; [tauto|].
  destruct (last_index c s); [discriminate|].
  destruct (chr_eqb x c) eqn:Ex; [discriminate|].
  intros [->|Hin]; [now rewrite chr_eqb_refl in Ex | now apply IH].
Qed.

End StringFacts.

(* ================================================================= *)
(** ** Properties of the output validator *)

Section OutputValidatorFacts.
Import PyStr OutputValidator.

Lemma span_at_shape (o c : ascii) (s m : str) :
  span_at o c s = Some m ->
  (exists r, s = m ++ r)
  /\ startswith m [o] = true /\ endswith m [c] = true.
Proof.
  destruct s as [|x rest]; unfold span_at; [discriminate|].
  destruct (chr_eqb x o) eqn:Ex; [|discriminate].
  destruct (last_index c rest) as [j|] eqn:Ej; [|discriminate].
  intros H; injection H as <-.
  destruct (last_index_spec _ _ _ Ej) as [Hf _].
  split; [|split].
  - exists (skipn (S j) rest).
    rewrite <- (firstn_skipn (S j) rest) at 1. reflexivity.
  - apply chr_eqb_eq in Ex; subst x.
    apply (startswith_app [o] (firstn (S j) rest)).
  - unfold endswith.
    change (startswith (rev (x :: firstn (S j) rest)) (rev [c]) = true).
    rewrite Hf.
    change (x :: firstn j rest ++ [c]) with ((x :: firstn j rest) ++ [c]).
    rewrite rev_app_distr. simpl. now rewrite chr_eqb_refl.
Qed.

Lemma findall_span_nil (o c : ascii) (s : str) (k : nat) :
  (forall a b, s = a ++ b -> span_at o c b = None) ->
  findall_span o c k s = [].
Proof.
  revert k; induction s as [|x s IH]; intros k H; [reflexivity|].
  assert (Hs : forall a b, s = a ++ b -> span_at o c b = None).
  { intros a b ->. apply (H (x :: a)). reflexivity. }
  simpl. destruct k as [|k]; [|now apply IH].
  specialize (H [] (x :: s) eq_refl). simpl in H. rewrite H.
  now apply IH.
Qed.

Lemma no_span_findall (o c : ascii) (s : str) :
  no_span o c s -> findall_span o c 0 s = [].
Proof.
  intros Hno. apply findall_span_nil. intros a b -> .
  destruct (span_at o c b) as [m|] eqn:E; [|reflexivity].
  destruct (span_at_shape _ _ _ _ E) as [[r ->] [H1 H2]].
  exfalso. apply (Hno m); [exists a, r; reflexivity | auto].
Qed.

Lemma no_span_substring (o c : ascii) (t s : str) :
  substring t s -> no_span o c s -> no_span o c t.
Proof.
  intros [a [b ->]] Hno u [a' [b' ->]]. apply Hno.
  exists (a ++ a'), (b' ++ b). now rewrite <- !app_assoc.
Qed.

(** C10. For every text with no substring running from an opening
    brace to a closing brace and none running from an opening bracket
    to a closing bracket, [extract_json_from_output] returns the text
    stripped of leading and trailing whitespace. *)
Theorem extract_fallback_is_strip (output : str) :
  no_span lbrace rbrace output ->
  no_span lbracket rbracket output ->
  extract_json_from_output output = strip output.
Proof.
  intros Hb Hk. unfold extract_json_from_output.
  assert (Hsub : substring (strip output) output) by apply strip_substring.
  rewrite (no_span_findall _ _ _ (no_span_substring _ _ _ _ Hsub Hb)).
  now rewrite (no_span_findall _ _ _ (no_span_substring _ _ _ _ Hsub Hk)).
Qed.

Lemma has_span_app (o c : ascii) (a r : str) :
  has_span o c (a ++ r) = false -> has_span o c r = false.
Proof.
  induction a as [|x a IH]; simpl; [auto|].
  intros H. apply orb_false_iff in H as [_ H]. auto.
Qed.

Lemma has_span_sound (o c : ascii) (s : str) :
  o <> c -> has_span o c s = false -> no_span o c s.
Proof.
  intros Hoc Hs t [a [b ->]] [Ho Hc].
  apply has_span_app in Hs.
  destruct (startswith_split _ _ Ho) as [t' ->].
  unfold endswith in Hc. apply startswith_split in Hc as [u Hu].
  apply (f_equal (@rev ascii)) in Hu. rewrite rev_involutive in Hu.
  simpl in Hu.
  assert (Hin : In c t').
  { destruct (rev u) as [|y w]; simpl in Hu.
    - inversion Hu. contradiction.
    - inversion Hu as [[Hy Hw]]. apply in_or_app.
      right. now left. }
  simpl in Hs. rewrite chr_eqb_refl in Hs. simpl in Hs.
  apply orb_false_iff in Hs as [Hs _].
  assert (He : existsb (chr_eqb c) (t' ++ b) = true).
  { apply existsb_exists. exists c. split; [|apply chr_eqb_refl].
    apply in_or_app. now left. }
  congruence.
Qed.

Lemma extract_fallback_is_strip_witness :
  extract_json_from_output (lit "  } plain ] text [ {  ")
  = lit "} plain ] text [ {".
Proof.
  rewrite (extract_fallback_is_strip (lit "  } plain ] text [ {  ")).
  - reflexivity.
  - apply has_span_sound; [discriminate | reflexivity].
  - apply has_span_sound; [discriminate | reflexivity].
Defined.

(** C5 (evaluation). On the example text the single greedy match runs
    from the first opening brace to the last closing brace; the result
    is that whole span, not the second object alone. *)
Theorem extract_two_spans_returns_outer_span :
  extract_json_from_output two_spans_input
  = litq "{^a^:1}moretext{^a^:1,^b^:2}"
  /\ extract_json_from_output two_spans_input <> litq "{^a^:1,^b^:2}"
  /\ findall_span lbrace rbrace 0 (strip two_spans_input)
     = [litq "{^a^:1}moretext{^a^:1,^b^:2}"].
Proof. repeat split; try reflexivity. vm_compute. discriminate. Qed.

End OutputValidatorFacts.

(* ================================================================= *)
(** ** Properties of the access sanitizer *)

Section AccessSanitizerFacts.
Import PyStr AccessSanitizer.

Lemma index_of_chr_none (c : ascii) (s : str) :
  ~ In c s -> index_of s [c] = None.
Proof.
  induction s as [|x s IH]; intros Hn; simpl; [reflexivity|].
  destruct (chr_eqb c x) eqn:E.
  - apply chr_eqb_eq in E; subst x. exfalso; apply Hn; now left.
  - simpl. rewrite IH; [reflexivity|]. intros Hin; apply Hn; now right.
Qed.

Lemma in_slice (c : ascii) (s : str) (a b : nat) :
  In c (slice s a b) -> In c s.
Proof.
  unfold slice. intros H.
  rewrite <- (firstn_skipn a s). apply in_or_app. right.
  rewrite <- (firstn_skipn (b - a) (skipn a s)). apply in_or_app. now left.
Qed.

(** A line without an equals sign is never an assignment. *)
Lemma is_assignment_no_eq (line : str) (m : rmatch) :
  ~ In "="%char line -> is_assignment line m = false.
Proof.
  intros Hn. unfold is_assignment, find.
  change (lit "=") with ["="%char].
  now rewrite (index_of_chr_none _ _ Hn).
Qed.

(** The Parquet tag on a line that is not an assignment: nothing is
    done, allowed or not. *)
Lemma parquet_not_assignment (allowed_paths : list str) (_code : str) (m : rmatch) :
  is_assignment (offending_line_of _code m) m = false ->
  process_match allowed_paths Parquet _code m = _code.
Proof.
  unfold process_match, offending_line_of. intros ->. simpl.
  now destruct (negb _ && negb _).
Qed.





(** The two Parquet-read patterns leave a text without any equals sign
    as it is. *)
Lemma sanitize_parquet_no_eq (allowed_paths : list str) (_code call : str) :
  ~ In "="%char _code ->
  sanitize_pattern allowed_paths _code (call, Parquet) = _code.
Proof.
  intros Hn. unfold sanitize_pattern. simpl.
  induction (finditer call _code) as [|m ms IH]; [reflexivity|].
  simpl.
  rewrite parquet_not_assignment; [exact IH|].
  apply is_assignment_no_eq. intros Hin. apply Hn.
  unfold offending_line_of in Hin. eapply in_slice; eauto.
Qed.


(** A Parquet read outside an assignment is not safe from the other
    patterns either: the file-open match on the same line names the
    same path, and the single replacement made for it empties the
    first quoted occurrence on the line, which is the Parquet one. *)
Lemma parquet_read_blanked_by_open_match :
  sanitize [] (lit "print(pd.read_parquet('a.parquet'), open('a.parquet'))")
  = lit "print(pd.read_parquet(''), open('a.parquet'))".
Proof. reflexivity. Qed.

(** C1 (evaluation). After the first line is rewritten the offsets of
    the later matches, taken from the text as it was, point past their
    lines: the second read is looked for on the last line, not found,
    and survives with its path. *)
Theorem sanitize_leaves_second_read :
  sanitize [] two_reads_program
  = lit "df1 = ''" ++ [newline]
    ++ lit "df2 = pd.read_csv('b.csv')" ++ [newline]
    ++ lit "print(df1)"
  /\ reads_allowed [] (sanitize [] two_reads_program) = false
  /\ map m_group1 (finditer (lit "pd.read_csv(") (sanitize [] two_reads_program))
     = [lit "b.csv"].
Proof. repeat split; reflexivity. Qed.

(** The same failure from the single replacement on a line that names
    the path twice: the first quoted occurrence is emptied, the read
    itself keeps the path. *)
Lemma sanitize_blanks_wrong_occurrence :
  sanitize [] (lit "os.path.exists('secret.csv') and print(pd.read_csv('secret.csv'))")
  = lit "os.path.exists('') and print(pd.read_csv('secret.csv'))".
Proof. reflexivity. Qed.

End AccessSanitizerFacts.

(* ================================================================= *)
(** ** Properties of the pipeline *)

Section PipelineFacts.
Import PyStr Pipeline.

Lemma quiet_sret {A : Type} (a : A) : quiet (sret a).
Proof. intros st; reflexivity. Qed.

Lemma quiet_lift {A : Type} (m : M A) : quiet (lift m).
Proof. intros st; reflexivity. Qed.

Lemma quiet_read_code : quiet read_code.
Proof. intros st; reflexivity. Qed.

Lemma quiet_file_text : quiet file_text.
Proof. intros st; reflexivity. Qed.

Lemma quiet_write_code (c : str) : quiet (write_code c).
Proof. intros st; reflexivity. Qed.

Lemma quiet_write_encoded (w : World) (s : site) (c : str) :
  quiet (write_encoded w s c).
Proof. intros st. unfold write_encoded. destruct (encodable w s c); reflexivity. Qed.

Lemma quiet_emit (e : event) : is_work e = true -> quiet (emit e).
Proof.
  intros He st. unfold emit, fix_attempts; simpl.
  rewrite flat_map_app. simpl.
  destruct e; simpl in *; try discriminate; now rewrite app_nil_r.
Qed.

Lemma quiet_sbind {A B : Type} (m : SM A) (k : A -> SM B) :
  quiet m -> (forall a, quiet (k a)) -> quiet (sbind m k).
Proof.
  intros Hm Hk st. unfold sbind. specialize (Hm st).
  destruct (m st) as [[e|a] st']; simpl in *; [exact Hm|].
  now rewrite (Hk a st').
Qed.

Lemma quiet_stry {A : Type} (m : SM A) (h : exn -> SM A) :
  quiet m -> (forall e, quiet (h e)) -> quiet (stry m h).
Proof.
  intros Hm Hh st. unfold stry. specialize (Hm st).
  destruct (m st) as [[e|a] st']; simpl in *; [|exact Hm].
  now rewrite (Hh e st').
Qed.

Ltac quiet_step :=
  first
    [ apply quiet_sret | apply quiet_lift | apply quiet_read_code
    | apply quiet_file_text | apply quiet_write_code
    | apply quiet_write_encoded | apply quiet_emit; reflexivity
    | apply quiet_stry; [|intros ?] | apply quiet_sbind; [|intros ?]
    | match goal with
      | |- quiet (if ?b then _ else _) => destruct b
      | |- quiet (match ?x with _ => _ end) => destruct x
      end ].

Lemma quiet_run_with_self_heal (w : World) (s : site) :
  quiet (run_with_self_heal w s).
Proof. unfold run_with_self_heal. repeat quiet_step. Qed.

Lemma quiet_synthesize (w : World) (allowed_paths : list str) :
  quiet (synthesize w allowed_paths).
Proof. unfold synthesize. repeat quiet_step. Qed.

Lemma quiet_initial_attempt (w : World) : quiet (initial_attempt w).
Proof.
  unfold initial_attempt.
  repeat first [apply quiet_run_with_self_heal | quiet_step].
Qed.

Lemma quiet_fix_cycle (w : World) (n : nat) : quiet (fix_cycle w n).
Proof.
  unfold fix_cycle.
  repeat first [apply quiet_run_with_self_heal | quiet_step].
Qed.

(** A handler that returns never lets an exception through. *)
Lemma stry_returns {A : Type} (m : SM A) (a0 : A) (st : state) :
  exists a st', stry m (fun _ => sret a0) st = (inr a, st').
Proof.
  unfold stry. destruct (m st) as [[e|a] st']; [exists a0, st' | exists a, st'];
    reflexivity.
Qed.

Lemma initial_attempt_returns (w : World) (st : state) :
  exists o st', initial_attempt w st = (inr o, st').
Proof. apply stry_returns. Qed.

Lemma fix_cycle_returns (w : World) (n : nat) (st : state) :
  exists o st', fix_cycle w n st = (inr o, st').
Proof. apply stry_returns. Qed.

Lemma fix_attempts_emit (n : nat) (st : state) :
  fix_attempts (log (snd (emit (FixAttempt n) st)))
  = fix_attempts (log st) ++ [n].
Proof. unfold emit, fix_attempts; simpl. now rewrite flat_map_app. Qed.

(** One turn of the loop body: the counter value is logged, then the
    cycle runs and returns. *)
Lemma loop_body_spec (w : World) (n : nat) (st : state) :
  exists o st1 st',
    (sbind (emit (FixAttempt n)) (fun _ => fix_cycle w n)) st = (inr o, st')
    /\ fix_cycle w n st1 = (inr o, st')
    /\ fix_attempts (log st') = fix_attempts (log st) ++ [n].
Proof.
  unfold sbind.
  destruct (emit (FixAttempt n) st) as [[e|[]] st1] eqn:E1;
    [unfold emit in E1; discriminate|].
  destruct (fix_cycle_returns w n st1) as [o [st' E2]].
  exists o, st1, st'. split; [exact E2|]. split; [exact E2|].
  pose proof (quiet_fix_cycle w n st1) as Hq. rewrite E2 in Hq. simpl in Hq.
  rewrite Hq.
  pose proof (fix_attempts_emit n st) as He. rewrite E1 in He. exact He.
Qed.

Lemma seq_snoc (a k : nat) : seq a k ++ [a + k] = seq a (S k).
Proof. now rewrite seq_S. Qed.

(** The loop from counter value [fix_attempt]: with enough fuel it
    returns; the counter values logged continue the sequence up to some
    [k] no larger than the bound; an answer is the answer of one of the
    cycles; the error object comes only with [k] at the bound. *)
Lemma repair_loop_spec (w : World) (fuel fix_attempt : nat) (st : state) :
  fix_attempt <= max_fix_attempts ->
  max_fix_attempts - fix_attempt < fuel ->
  fix_attempts (log st) = seq 1 fix_attempt ->
  exists r st' k,
    repair_loop fuel w fix_attempt st = Some (inr r, st')
    /\ fix_attempt <= k <= max_fix_attempts
    /\ fix_attempts (log st') = seq 1 k
    /\ ((exists output_data n st0 st1,
           r = Answer output_data
           /\ 1 <= n <= max_fix_attempts
           /\ fix_cycle w n st0 = (inr (Some output_data), st1))
        \/ (r = ErrorObject exhausted_message (elapsed w)
            /\ k = max_fix_attempts)).
Proof.
  revert fix_attempt st.
  induction fuel as [|fuel IH]; intros fa st Hle Hfuel Hlog; [lia|].
  simpl. destruct (fa <? max_fix_attempts) eqn:Elt.
  - apply Nat.ltb_lt in Elt.
    destruct (loop_body_spec w (fa + 1) st) as [o [st0 [st1 [E [Ec Hl]]]]].
    rewrite E.
    assert (Hlog1 : fix_attempts (log st1) = seq 1 (fa + 1)).
    { rewrite Hl, Hlog. replace (fa + 1) with (1 + fa) by lia.
      apply seq_snoc. }
    destruct o as [output_data|].
    + exists (Answer output_data), st1, (fa + 1).
      repeat split; try lia; auto. left.
      exists output_data, (fa + 1), st0, st1. repeat split; auto; lia.
    + destruct (IH (fa + 1) st1) as [r [st' [k [Hr [Hk [Hl' Hres]]]]]];
        try lia; auto.
      exists r, st', k. repeat split; auto; lia.
  - apply Nat.ltb_ge in Elt.
    exists (ErrorObject exhausted_message (elapsed w)), st, fa.
    repeat split; auto; try lia. right. split; [reflexivity | lia].
Qed.

(** One run with self-heal, in closed form: the file is left as it is,
    the log grows by the events of the run. *)
Lemma run_with_self_heal_spec (w : World) (s : site) (st : state) :
  run_with_self_heal w s st
  = (heal_result w s (chatgpt_code st),
     mkState (chatgpt_code st) (log st ++ heal_events w s (chatgpt_code st))).
Proof.
  unfold run_with_self_heal, heal_result, heal_events,
    sbind, stry, file_text, emit, lift, sret.
  cbn [chatgpt_code log fst snd].
  destruct (run_python w s false (chatgpt_code st)) as [e|c]; [reflexivity|].
  destruct (negb (returncode c =? 0)%Z); [|reflexivity].
  destruct (CodeCleaning.search_module (stderr c)) as [name|]; [|reflexivity].
  cbn [chatgpt_code log].
  destruct (pip_install w s name) as [e|p];
    [now rewrite <- app_assoc|].
  cbn [chatgpt_code log].
  destruct (run_python w s true (chatgpt_code st)) as [e|c2];
    now rewrite <- !app_assoc.
Qed.

(** The first attempt in closed form. *)
Lemma initial_attempt_spec (w : World) (st : state) :
  initial_attempt w st
  = (inr (checked w (heal_result w Initial (chatgpt_code st))),
     mkState (chatgpt_code st)
             (log st ++ heal_events w Initial (chatgpt_code st))).
Proof.
  unfold initial_attempt, stry, sbind. rewrite run_with_self_heal_spec.
  unfold checked, bind, lift, sret.
  destruct (heal_result w Initial (chatgpt_code st)) as [e|c]; [reflexivity|].
  destruct (parse_result w c) as [e|o]; reflexivity.
Qed.

(** One repair cycle in closed form.  A response without a text and a
    text that cannot be written both end the cycle without an answer;
    the second leaves the program file empty. *)
Lemma fix_cycle_spec (w : World) (n : nat) (st : state) :
  fix_cycle w n st
  = let code := chatgpt_code st in
    let log1 := log st ++ heal_events w (Context n) code ++ [FixRequest n] in
    match response_text (horizon_fix w n) with
    | inl _ => (inr None, mkState code log1)
    | inr fixed_code =>
        if encodable w (Fixed n) (CodeCleaning.clean_fixed_code fixed_code) then
          let code' := repaired fixed_code in
          (inr (checked w (heal_result w (Fixed n) code')),
           mkState code' (log1 ++ heal_events w (Fixed n) code'))
        else (inr None, mkState [] log1)
    end.
Proof.
  unfold fix_cycle.
  unfold stry at 1. unfold sbind at 1. unfold read_code at 1.
  unfold sbind at 1. unfold stry at 1. unfold sbind at 1.
  rewrite run_with_self_heal_spec.
  assert (Hctx : forall r : M completed,
             (match
                (match r with
                 | inl e => ((inl e : M unit), mkState (chatgpt_code st)
                               (log st ++ heal_events w (Context n) (chatgpt_code st)))
                 | inr a => sret tt (mkState (chatgpt_code st)
                               (log st ++ heal_events w (Context n) (chatgpt_code st)))
                 end)
              with
              | (inl e, st') => sret tt st'
              | (inr a, st') => (inr a, st')
              end)
             = (inr tt, mkState (chatgpt_code st)
                          (log st ++ heal_events w (Context n) (chatgpt_code st)))).
  { intros [e|c]; reflexivity. }
  rewrite Hctx. clear Hctx.
  unfold sbind at 1. unfold emit at 1. cbn [chatgpt_code log].
  unfold sbind at 1. unfold lift at 1.
  destruct (response_text (horizon_fix w n)) as [e|fixed_code].
  - cbn. now rewrite <- app_assoc.
  - unfold sbind at 1. unfold write_encoded at 1. cbn [chatgpt_code log].
    destruct (encodable w (Fixed n) (CodeCleaning.clean_fixed_code fixed_code)).
    + unfold sbind at 1. unfold read_code at 1. cbn [chatgpt_code log].
      unfold sbind at 1. unfold write_code at 1. cbn [chatgpt_code log].
      unfold sbind at 1. rewrite run_with_self_heal_spec. cbn [chatgpt_code log].
      unfold checked, bind, lift, sret, repaired.
      rewrite <- !app_assoc.
      destruct (heal_result w (Fixed n) _) as [e|c]; [reflexivity|].
      destruct (parse_result w c) as [e|o]; reflexivity.
    + unfold sret. now rewrite <- app_assoc.
Qed.

(** The first synthesis in closed form.  An exception on the way to the
    text of the response leaves with nothing done; a text that cannot
    be written leaves as [UnicodeEncodeError] with the program file
    emptied; otherwise the file holds the synthesised program and the
    log the sanitising pass. *)
Lemma synthesize_spec (w : World) (allowed_paths : list str) (st : state) :
  synthesize w allowed_paths st
  = match response_text (horizon_response w) with
    | inl e => (inl e, st)
    | inr raw_code =>
        if encodable w Initial (CodeCleaning.strip_fences raw_code) then
          (inr tt, mkState (synthesized allowed_paths raw_code) (log st ++ [Sanitize]))
        else (inl UnicodeEncodeError, mkState [] (log st))
    end.
Proof.
  unfold synthesize, sbind, lift.
  destruct (response_text (horizon_response w)) as [e|raw_code]; [reflexivity|].
  unfold write_encoded.
  destruct (encodable w Initial (CodeCleaning.strip_fences raw_code)); [|reflexivity].
  unfold read_code, write_code, emit, sret, synthesized.
  cbn [chatgpt_code log].
  destruct (AccessSanitizer.modified allowed_paths _); reflexivity.
Qed.

(** What it is for an attempt to fail, case by case. *)
Lemma attempt_fails_iff (w : World) (s : site) (code : str) :
  attempt_fails w s code <->
  (exists e, heal_result w s code = inl e)
  \/ (exists c,
        heal_result w s code = inr c
        /\ (returncode c <> 0%Z
            \/ OutputValidator.is_valid_json_output
                 (OutputValidator.extract_json_from_output (strip (stdout c))) = false
            \/ exists e,
                 json_loads w
                   (OutputValidator.extract_json_from_output (strip (stdout c)))
                 = inl e)).
Proof.
  unfold attempt_fails, checked, bind.
  destruct (heal_result w s code) as [e|c].
  { split; [intros _; left; now exists e | reflexivity]. }
  unfold parse_result.
  destruct (returncode c =? 0)%Z eqn:Erc.
  2:{ apply Z.eqb_neq in Erc. split; [|reflexivity].
      intros _. right. exists c. split; [reflexivity | now left]. }
  apply Z.eqb_eq in Erc.
  destruct (OutputValidator.is_valid_json_output _) eqn:Ev.
  2:{ split; [|reflexivity].
      intros _. right. exists c. split; [reflexivity | right; now left]. }
  unfold try_except, bind, ret, raise.
  destruct (json_loads w _) as [e|v] eqn:Ej.
  - split.
    + intros _. right. exists c. split; [reflexivity|]. right; right. now exists e.
    + intros _. destruct e; reflexivity.
  - split; [discriminate|].
    intros [[e He]|[c' [Hc [Hrc|[Hv|[e He]]]]]].
    + discriminate.
    + injection Hc as <-. contradiction.
    + injection Hc as <-. rewrite Ev in Hv. discriminate.
    + injection Hc as <-. rewrite Ej in He. discriminate.
Qed.

(** A cycle whose attempt fails gives no answer. *)
Lemma fix_cycle_fails (w : World) (n : nat) (st : state) :
  (forall fixed_code,
     response_text (horizon_fix w n) = inr fixed_code ->
     encodable w (Fixed n) (CodeCleaning.clean_fixed_code fixed_code) = true ->
     attempt_fails w (Fixed n) (repaired fixed_code)) ->
  fst (fix_cycle w n st) = inr None.
Proof.
  intros H. rewrite fix_cycle_spec. cbv zeta.
  destruct (response_text (horizon_fix w n)) as [e|t]; [reflexivity|].
  destruct (encodable w (Fixed n) (CodeCleaning.clean_fixed_code t)) eqn:Ee;
    [|reflexivity].
  cbn [fst]. f_equal. exact (H t eq_refl Ee).
Qed.

(** C9. When the first synthesis response has neither a [candidates]
    nor a [choices] key, the pipeline raises [ValueError] at once: the
    program file is not written and the log has no sanitising pass, no
    execution and no repair attempt. *)
Theorem synthesis_protocol_error_is_fatal
    (fuel : nat) (w : World) (allowed_paths : list str) :
  candidates (horizon_response w) = None ->
  choices (horizon_response w) = None ->
  aianalyst fuel w allowed_paths = Some (inl ValueError, initial_state)
  /\ log initial_state = [] /\ chatgpt_code initial_state = [].
Proof.
  intros Hc Hh. repeat split.
  unfold aianalyst. rewrite synthesize_spec.
  unfold response_text. now rewrite Hc, Hh.
Qed.

(** C3 (as amended). With fuel beyond the bound the pipeline returns or
    raises, never runs out; the counter values of the repair loop are
    1, 2, ... up to some [k] of at most 3.  When the first synthesis
    response yields a program text and that text can be written to the
    program file, the outcome is a parsed answer, or the error object
    together with the counter values 1, 2, 3.  When the text cannot be
    written the pipeline raises [UnicodeEncodeError], and when the
    response yields no text it raises the exception met there, in both
    cases with no repair cycle. *)
Theorem attempt_bound (fuel : nat) (w : World) (allowed_paths : list str) :
  max_fix_attempts < fuel ->
  exists r st k,
    aianalyst fuel w allowed_paths = Some (r, st)
    /\ k <= max_fix_attempts
    /\ fix_attempts (log st) = seq 1 k
    /\ (forall raw,
          response_text (horizon_response w) = inr raw ->
          encodable w Initial (CodeCleaning.strip_fences raw) = true ->
          (exists output_data, r = inr (Answer output_data))
          \/ (r = inr (ErrorObject exhausted_message (elapsed w))
              /\ fix_attempts (log st) = [1; 2; 3]))
    /\ (forall raw,
          response_text (horizon_response w) = inr raw ->
          encodable w Initial (CodeCleaning.strip_fences raw) = false ->
          r = inl UnicodeEncodeError /\ k = 0)
    /\ (forall e, response_text (horizon_response w) = inl e ->
                  r = inl e /\ k = 0).
Proof.
  intros Hfuel. unfold aianalyst. rewrite synthesize_spec.
  destruct (response_text (horizon_response w)) as [e|raw] eqn:Er.
  { exists (inl e), initial_state, 0.
    split; [reflexivity|]. split; [lia|]. split; [reflexivity|].
    split; [discriminate|]. split; [discriminate|].
    intros e' [= <-]. now split. }
  destruct (encodable w Initial (CodeCleaning.strip_fences raw)) eqn:Ee.
  2:{ exists (inl UnicodeEncodeError), (mkState [] (log initial_state)), 0.
      split; [reflexivity|]. split; [lia|]. split; [reflexivity|].
      split; [|split; [|discriminate]].
      - intros raw' [= <-]. rewrite Ee. discriminate.
      - intros raw' _ _. now split. }
  set (st0 := mkState (synthesized allowed_paths raw) (log initial_state ++ [Sanitize])).
  destruct (initial_attempt_returns w st0) as [o [st1 E1]].
  pose proof (quiet_initial_attempt w st0) as Hq.
  rewrite E1 in *. cbn [snd] in Hq.
  assert (Hl1 : fix_attempts (log st1) = []) by (rewrite Hq; reflexivity).
  destruct o as [output_data|].
  - exists (inr (Answer output_data)), st1, 0.
    split; [reflexivity|]. split; [lia|]. split; [exact Hl1|].
    split; [|split].
    + intros raw' _ _. left. now exists output_data.
    + intros raw' [= <-]. rewrite Ee. discriminate.
    + discriminate.
  - destruct (repair_loop_spec w fuel 0 st1) as [r [st' [k [Hr [Hk [Hl Hres]]]]]];
      [lia | lia | exact Hl1 |].
    exists (inr r), st', k.
    split; [exact Hr|]. split; [lia|]. split; [exact Hl|].
    split; [|split].
    + intros raw' _ _.
      destruct Hres as [[v [n [st2 [st3 [-> _]]]]]|[-> ->]].
      * left. now exists v.
      * right. split; [reflexivity | exact Hl].
    + intros raw' [= <-]. rewrite Ee. discriminate.
    + discriminate.
Qed.

(** C4. When the first synthesis yields a program text that is written
    to the program file, and every attempt the request makes fails (the
    first run of the synthesised program, and for each of the repairs
    1 to 3 that gets a text and writes it, the run of the repaired
    program: exception or timeout, non-zero exit, output that has not
    the shape of a JSON value or does not parse), the pipeline returns
    the error object with the fixed message and the elapsed time, after
    the counter values 1, 2, 3; it does not raise. *)
Theorem exhaustion_returns_error_object
    (fuel : nat) (w : World) (allowed_paths : list str) (raw : str) :
  max_fix_attempts < fuel ->
  response_text (horizon_response w) = inr raw ->
  encodable w Initial (CodeCleaning.strip_fences raw) = true ->
  attempt_fails w Initial (synthesized allowed_paths raw) ->
  (forall n fixed_code,
     1 <= n <= max_fix_attempts ->
     response_text (horizon_fix w n) = inr fixed_code ->
     encodable w (Fixed n) (CodeCleaning.clean_fixed_code fixed_code) = true ->
     attempt_fails w (Fixed n) (repaired fixed_code)) ->
  exists st,
    aianalyst fuel w allowed_paths
    = Some (inr (ErrorObject (lit "Code execution failed after all attempts")
                             (elapsed w)), st)
    /\ fix_attempts (log st) = [1; 2; 3].
Proof.
  intros Hfuel Hraw Henc H0 Hfix. unfold aianalyst.
  rewrite synthesize_spec, Hraw, Henc.
  set (st0 := mkState (synthesized allowed_paths raw) (log initial_state ++ [Sanitize])).
  pose proof (quiet_initial_attempt w st0) as Hq.
  rewrite initial_attempt_spec in Hq |- *. cbn [snd] in Hq.
  change (chatgpt_code st0) with (synthesized allowed_paths raw) in Hq |- *.
  unfold attempt_fails in H0. rewrite H0.
  set (st1 := mkState (synthesized allowed_paths raw) _) in Hq |- *.
  assert (Hl1 : fix_attempts (log st1) = []) by (rewrite Hq; reflexivity).
  destruct (repair_loop_spec w fuel 0 st1) as [r [st' [k [Hr [Hk [Hl Hres]]]]]];
    [lia | lia | exact Hl1 |].
  destruct Hres as [[v [n [st2 [st3 [_ [Hn Hc]]]]]]|[-> ->]].
  - pose proof (fix_cycle_fails w n st2 (fun t => Hfix n t Hn)) as Hf.
    rewrite Hc in Hf. discriminate.
  - exists st'. split; [exact Hr | exact Hl].
Qed.

Lemma synthesis_protocol_error_is_fatal_witness :
  aianalyst 4 world_no_shape [] = Some (inl ValueError, initial_state)
  /\ log initial_state = [] /\ chatgpt_code initial_state = [].
Proof.
  apply (synthesis_protocol_error_is_fatal 4 world_no_shape []); reflexivity.
Defined.

Lemma attempt_bound_witness :
  exists r st k,
    aianalyst 4 world_timeouts [] = Some (r, st)
    /\ k <= max_fix_attempts
    /\ fix_attempts (log st) = seq 1 k
    /\ (forall raw,
          response_text (horizon_response world_timeouts) = inr raw ->
          encodable world_timeouts Initial (CodeCleaning.strip_fences raw) = true ->
          (exists output_data, r = inr (Answer output_data))
          \/ (r = inr (ErrorObject exhausted_message (elapsed world_timeouts))
              /\ fix_attempts (log st) = [1; 2; 3]))
    /\ (forall raw,
          response_text (horizon_response world_timeouts) = inr raw ->
          encodable world_timeouts Initial (CodeCleaning.strip_fences raw) = false ->
          r = inl UnicodeEncodeError /\ k = 0)
    /\ (forall e, response_text (horizon_response world_timeouts) = inl e ->
                  r = inl e /\ k = 0).
Proof. apply (attempt_bound 4 world_timeouts []). unfold max_fix_attempts. lia. Defined.

Lemma exhaustion_returns_error_object_witness :
  exists st,
    aianalyst 4 world_other_text_runs []
    = Some (inr (ErrorObject (lit "Code execution failed after all attempts") 11), st)
    /\ fix_attempts (log st) = [1; 2; 3].
Proof.
  apply (exhaustion_returns_error_object 4 world_other_text_runs [] (lit "print(1)")).
  - unfold max_fix_attempts. lia.
  - reflexivity.
  - reflexivity.
  - reflexivity.
  - intros n fixed_code _ Hr _. injection Hr as <-. reflexivity.
Defined.

(** In that world a program text exists whose run would pass the check;
    the request never runs it, and ends in the error object all the
    same. *)
Lemma other_text_would_succeed :
  checked world_other_text_runs
    (heal_result world_other_text_runs Initial (lit "print('{}')"))
  = Some (JObject [])
  /\ exists st,
       aianalyst 4 world_other_text_runs []
       = Some (inr (ErrorObject exhausted_message 11), st).
Proof. split; [reflexivity|]. eexists. reflexivity. Qed.

(** C3 (counterexample). A request whose first synthesis response has
    neither shape ends in an exception: neither a parsed answer nor the
    error object, and with no repair cycle at all. *)
Lemma malformed_synthesis_ends_in_exception :
  exists st,
    aianalyst 4 world_no_shape [] = Some (inl ValueError, st)
    /\ (forall output_data,
          aianalyst 4 world_no_shape [] <> Some (inr (Answer output_data), st))
    /\ (forall error time,
          aianalyst 4 world_no_shape [] <> Some (inr (ErrorObject error time), st))
    /\ fix_attempts (log st) = [].
Proof.
  exists initial_state. repeat split; intros; discriminate.
Qed.

(** The same end for a response whose text cannot be written to the
    program file: the exception of the write leaves the request, the
    file is empty, nothing was sanitised or run. *)
Lemma unwritable_synthesis_ends_in_exception :
  aianalyst 4 world_surrogate [] = Some (inl UnicodeEncodeError, mkState [] [])
  /\ response_text (horizon_response world_surrogate) = inr (lit "print('?')").
Proof. split; reflexivity. Qed.

End PipelineFacts.

(* ================================================================= *)
(** ** Properties of scraping *)

Section ScraperFacts.
Import PyStr Scraper.

Lemma nth_error_enumerate_from {A : Type} (k : nat) (xs : list A) (i : nat) (x : A) :
  nth_error xs i = Some x ->
  nth_error (enumerate_from k xs) i = Some (k + i, x).
Proof.
  unfold enumerate_from. revert k i.
  induction xs as [|y l IH]; intros k i H; [destruct i; discriminate|].
  destruct i as [|i]; simpl in *.
  - injection H as ->. now rewrite Nat.add_0_r.
  - rewrite (IH (S k) i H). f_equal. f_equal. lia.
Qed.

Lemma scrape_loop_spec (w : World) (urls : list str) (i : nat) (acc : list scraped) :
  scrape_loop w i urls acc
  = inr (acc ++ flat_map (fun p => entries_of w (fst p) (snd p))
                         (enumerate_from i urls)).
Proof.
  revert i acc. induction urls as [|url rest IH]; intros i acc.
  - simpl. now rewrite app_nil_r.
  - simpl. unfold entries_of at 1. unfold try_except, bind at 1 2.
    destruct (scrape_one w i url) as [e|[entry|]]; simpl;
      rewrite IH; unfold enumerate_from; [reflexivity| |reflexivity].
    now rewrite <- app_assoc.
Qed.

Lemma entries_of_names (w : World) (i : nat) (url : str) :
  map (fun e => (filename e, source_url e)) (entries_of w i url)
  = if saved w i url then [(filename_for i, url)] else [].
Proof.
  unfold entries_of, saved, scrape_one, bind.
  destruct (extract_data w i url) as [e|df]; [reflexivity|].
  destruct (df_empty df); simpl; [reflexivity|].
  destruct (to_csv w i (filename_for i) df); reflexivity.
Qed.

Lemma map_flat_map {A B C : Type} (f : B -> C) (g : A -> list B) (l : list A) :
  map f (flat_map g l) = flat_map (fun a => map f (g a)) l.
Proof.
  induction l as [|a l IH]; simpl; [reflexivity|].
  now rewrite map_app, IH.
Qed.



End ScraperFacts.

(* ================================================================= *)
(** ** Properties of the schema probe *)

Section SchemaProbeFacts.
Import PyStr SchemaProbe.


(** The loop on any list: it returns exactly when every item is a
    dictionary, and raises [AttributeError] otherwise. *)
Lemma probe_loop_spec (w : World) (database_files : list item) (i : nat)
                      (acc : list db_info) :
  probe_loop w i database_files acc
  = if forallb is_dict database_files
    then inr (acc ++ flat_map (fun p => probed_item w (fst p) (snd p))
                              (enumerate_from i database_files))
    else inl AttributeError.
Proof.
  revert i acc. induction database_files as [|db_file rest IH]; intros i acc.
  - simpl. now rewrite app_nil_r.
  - destruct db_file as [d|].
    + cbn [probe_loop probe_item report forallb is_dict andb].
      unfold enumerate_from. cbn [length seq combine flat_map fst snd probed_item].
      fold (enumerate_from (S i) rest).
      unfold probed at 1. unfold try_except, bind, ret.
      destruct (probe_one w i d) as [e|[entry|]] eqn:Ep; cbn [app];
        rewrite IH; destruct (forallb is_dict rest); try reflexivity.
      now rewrite <- app_assoc.
    + reflexivity.
Qed.





End SchemaProbeFacts.

(* ================================================================= *)
(** ** Properties of the regex fallback *)

Section SourceDiscovererFacts.
Import PyStr SourceDiscoverer.

Lemma classify_step (sc : list str) (db : list db_file) (u : str) :
  classify (sc, db) u = (sc ++ scrape_of u, db ++ database_of u).
Proof.
  unfold classify, scrape_of, database_of.
  destruct (any_in skip_patterns (lower (clean u)));
    [now rewrite !app_nil_r|].
  destruct (any_in database_exts (lower (clean u)));
    [now rewrite app_nil_r|].
  destruct (negb _); now rewrite !app_nil_r.
Qed.

Lemma classify_spec (urls : list str) (sc : list str) (db : list db_file) :
  fold_left classify urls (sc, db)
  = (sc ++ flat_map scrape_of urls, db ++ flat_map database_of urls).
Proof.
  revert sc db. induction urls as [|u urls IH]; intros sc db.
  - simpl. now rewrite !app_nil_r.
  - cbn [fold_left flat_map]. rewrite classify_step, IH.
    now rewrite <- !app_assoc.
Qed.

(** Every string [re.findall] returns is a match at some position. *)
Lemma findall_from_matches (at_head : str -> option str) (s : str) (k : nat) (m : str) :
  In m (findall_from at_head k s) -> exists t, at_head t = Some m.
Proof.
  revert k. induction s as [|c s IH]; intros k H; [contradiction|].
  simpl in H. destruct k as [|k]; [|eauto].
  destruct (at_head (c :: s)) as [m'|] eqn:E; [|eauto].
  destruct H as [<-|H]; eauto.
Qed.

Lemma take_while_sat (f : ascii -> bool) (s : str) (c : ascii) :
  In c (take_while f s) -> f c = true.
Proof.
  induction s as [|x s IH]; simpl; [contradiction|].
  destruct (f x) eqn:E; [|contradiction].
  intros [<-|H]; auto.
Qed.

Lemma url_chr_not_space (c : ascii) : url_chr c = true -> is_space c = false.
Proof.
  unfold url_chr. intros H. apply negb_true_iff in H.
  do 4 (apply orb_false_iff in H as [H _]). exact H.
Qed.

(** A non-empty text without whitespace is its own single field. *)
Lemma split_ws_single (u : str) :
  u <> [] -> (forall c, In c u -> is_space c = false) -> split_ws u = [u].
Proof.
  induction u as [|c s IH]; intros Hne Hall; [contradiction|].
  cbn [split_ws]. rewrite (Hall c (or_introl eq_refl)).
  destruct s as [|d s']; [reflexivity|].
  rewrite (Hall d (or_intror (or_introl eq_refl))).
  rewrite IH; [reflexivity | discriminate |].
  intros x Hx. apply Hall. now right.
Qed.

Lemma s3_match_single (t m : str) :
  s3_url_at t = Some m -> split_ws m = [m].
Proof.
  unfold s3_url_at, url_at. destruct (startswith t (lit "s3://")); [|discriminate].
  destruct (take_while url_chr (skipn (length (lit "s3://")) t)) as [|b body] eqn:E;
    [discriminate|].
  intros H; injection H as <-. apply split_ws_single; [discriminate|].
  intros c Hc.
  change (In c (lit "s3://" ++ b :: body)) in Hc.
  apply in_app_or in Hc as [Hc|Hc].
  - simpl in Hc. repeat destruct Hc as [<-|Hc]; try reflexivity. contradiction.
  - apply url_chr_not_space. rewrite <- E in Hc.
    exact (take_while_sat url_chr _ c Hc).
Qed.

(** The second loop never raises on what the S3 pattern matched, and
    adds the entries of the paths without a placeholder. *)
Lemma add_s3_spec (s3_urls : list str) (db : list db_file) :
  (forall u, In u s3_urls -> split_ws u = [u]) ->
  for_each add_s3 s3_urls db = inr (db ++ flat_map s3_of s3_urls).
Proof.
  revert db. induction s3_urls as [|u rest IH]; intros db Hall.
  - simpl. now rewrite app_nil_r.
  - assert (Hrest : forall v, In v rest -> split_ws v = [v])
      by (intros v Hv; apply Hall; now right).
    cbn [for_each flat_map]. unfold add_s3 at 1, s3_of at 1.
    destruct (any_in placeholders u); simpl; [now apply IH|].
    rewrite (Hall u (or_introl eq_refl)). simpl.
    rewrite (IH _ Hrest). now rewrite <- app_assoc.
Qed.

(** What the fallback returns: the two lists of the first loop, the
    second list extended by the second loop. *)
Lemma extract_urls_with_regex_spec (question_text : str) :
  exists r,
    extract_urls_with_regex question_text = inr r
    /\ scrape_urls r = flat_map scrape_of (findall http_url_at question_text)
    /\ database_files r
       = flat_map database_of (findall http_url_at question_text)
         ++ flat_map s3_of (findall s3_url_at question_text).
Proof.
  unfold extract_urls_with_regex. rewrite classify_spec. simpl.
  rewrite add_s3_spec.
  - simpl. eexists. split; [reflexivity|]. split; reflexivity.
  - intros u Hu. destruct (findall_from_matches _ _ _ _ Hu) as [t Ht].
    now apply (s3_match_single t).
Qed.

(** C6 (as amended). The fallback returns.  For every URL the pattern
    finds and the denylist lets through: when its cleaned form contains,
    in any letter case, one of the three extensions anywhere, it becomes
    a database file and no scrape URL.  Its format is chosen by a test
    that looks at the letters as they are written: parquet when the
    cleaned URL contains [.parquet] in lower case, csv when it contains
    [.csv] in lower case and not [.parquet], and json in every other
    case, so also when the only extension it holds is written in upper
    case.  When the cleaned URL contains none of the extensions, and
    does not name the reference site, it becomes a scrape URL.  Every
    S3 path without a placeholder becomes a database file of format
    parquet. *)
Theorem regex_fallback_classification (question_text : str) :
  exists r,
    extract_urls_with_regex question_text = inr r
    /\ (forall url,
          In url (findall http_url_at question_text) ->
          any_in skip_patterns (lower (clean url)) = false ->
          (any_in database_exts (lower (clean url)) = true ->
           ~ In (clean url) (scrape_urls r)
           /\ exists d,
               In d (database_files r)
               /\ SourceDiscoverer.url d = clean url
               /\ description d = lit "Database file (" ++ format d ++ lit ")"
               /\ (contains (clean url) (lit ".parquet") = true ->
                   format d = lit "parquet")
               /\ (contains (clean url) (lit ".parquet") = false ->
                   contains (clean url) (lit ".csv") = true ->
                   format d = lit "csv")
               /\ (contains (clean url) (lit ".parquet") = false ->
                   contains (clean url) (lit ".csv") = false ->
                   format d = lit "json"))
          /\ (any_in database_exts (lower (clean url)) = false ->
              any_in [lit "ecourts.gov.in"] (lower (clean url)) = false ->
              In (clean url) (scrape_urls r)))
    /\ (forall s3_url,
          In s3_url (findall s3_url_at question_text) ->
          any_in placeholders s3_url = false ->
          In (mkDbFile s3_url (lit "parquet") (lit "S3 parquet file"))
             (database_files r)).
Proof.
  destruct (extract_urls_with_regex_spec question_text) as [r [Hr [Hsc Hdb]]].
  exists r. split; [exact Hr|]. split.
  - intros url Hin Hskip. split.
    + intros Hext. split.
      * rewrite Hsc. intros Hc. apply in_flat_map in Hc as [u [_ Hu]].
        unfold scrape_of in Hu.
        destruct (any_in skip_patterns (lower (clean u))); [contradiction|].
        destruct (any_in database_exts (lower (clean u))) eqn:Eu; [contradiction|].
        destruct (negb _); [|contradiction].
        destruct Hu as [Hu|[]]. rewrite Hu in Eu. congruence.
      * eexists. split.
        -- rewrite Hdb. apply in_or_app. left.
           apply in_flat_map. exists url. split; [exact Hin|].
           unfold database_of. rewrite Hskip, Hext. left. reflexivity.
        -- cbn [SourceDiscoverer.url description format].
           split; [reflexivity|]. split; [reflexivity|].
           unfold format_type_of. repeat split.
           ++ intros ->. reflexivity.
           ++ intros -> ->. reflexivity.
           ++ intros -> ->. reflexivity.
    + intros Hext Hsite. rewrite Hsc. apply in_flat_map. exists url.
      split; [exact Hin|]. unfold scrape_of. rewrite Hskip, Hext, Hsite.
      now left.
  - intros s3_url Hin Hp. rewrite Hdb. apply in_or_app. right.
    apply in_flat_map. exists s3_url. split; [exact Hin|].
    unfold s3_of. rewrite Hp. now left.
Qed.

Lemma regex_fallback_classification_witness :
  exists r,
    extract_urls_with_regex query_string_text = inr r
    /\ In (mkDbFile query_string_url (lit "csv") (lit "Database file (csv)"))
          (database_files r).
Proof.
  destruct (regex_fallback_classification query_string_text)
    as [r [Hr [Hhttp _]]].
  exists r. split; [exact Hr|].
  destruct (Hhttp query_string_url) as [Hdb _];
    [left; reflexivity | reflexivity |].
  destruct (Hdb eq_refl) as [_ [d [Hd [Hu [Hdesc [_ [Hcsv _]]]]]]].
  specialize (Hcsv eq_refl eq_refl).
  destruct d as [u f de]. simpl in *. subst. exact Hd.
Defined.

(** C6 (counterexample). A URL with a query string after its file name
    ends in none of the three extensions, and is still made a database
    file and not a scrape URL. *)
Lemma query_string_url_is_database_file :
  findall http_url_at query_string_text = [query_string_url]
  /\ clean query_string_url = query_string_url
  /\ any_in skip_patterns (lower query_string_url) = false
  /\ endswith query_string_url (lit ".csv") = false
  /\ endswith query_string_url (lit ".parquet") = false
  /\ endswith query_string_url (lit ".json") = false
  /\ extract_urls_with_regex query_string_text
     = inr (mkSources []
              [mkDbFile query_string_url (lit "csv") (lit "Database file (csv)")]
              true).
Proof. repeat split; reflexivity. Qed.

(** A URL whose extension is written in upper case passes the
    membership test, which lowers the URL, and fails the two format
    tests, which do not: a CSV file gets the format json. *)
Lemma upper_case_extension_is_json :
  extract_urls_with_regex (lit "Use https://host.org/T.CSV")
  = inr (mkSources []
           [mkDbFile (lit "https://host.org/T.CSV") (lit "json")
              (lit "Database file (json)")]
           true).
Proof. reflexivity. Qed.

(** A URL that ends in one extension and holds another before it takes
    the format of the first extension tested. *)
Lemma nested_extension_takes_parquet :
  extract_urls_with_regex (lit "see http://a.org/x.parquet/y.csv")
  = inr (mkSources []
           [mkDbFile (lit "http://a.org/x.parquet/y.csv") (lit "parquet")
              (lit "Database file (parquet)")]
           true).
Proof. reflexivity. Qed.

End SourceDiscovererFacts.

(* ================================================================= *)
(** ** More on the output validator *)

Section OutputValidatorMore.
Import PyStr OutputValidator.

Lemma last_index_in (c : ascii) (s : str) (j : nat) :
  last_index c s = Some j -> In c s.
Proof.
  intros H. destruct (last_index_spec c s j H) as [Hf _].
  rewrite <- (firstn_skipn (S j) s), Hf.
  apply in_or_app. left. apply in_or_app. right. now left.
Qed.

Lemma last_index_after (c : ascii) (s : str) (j : nat) :
  last_index c s = Some j -> ~ In c (skipn (S j) s).
Proof.
  revert j. induction s as [|x s IH]; intros j H; simpl in H; [discriminate|].
  destruct (last_index c s) as [k|] eqn:E.
  - injection H as <-. simpl. now apply IH.
  - destruct (chr_eqb x c); [|discriminate]. injection H as <-.
    simpl. now apply last_index_none.
Qed.

Lemma last_index_snoc (c : ascii) (l : str) :
  last_index c (l ++ [c]) = Some (length l).
Proof.
  induction l as [|x l IH]; simpl.
  - now rewrite chr_eqb_refl.
  - now rewrite IH.
Qed.

(** Skipping [k] characters is searching the text without them. *)
Lemma findall_span_skip (o c : ascii) (k : nat) (s : str) :
  findall_span o c k s = findall_span o c 0 (skipn k s).
Proof.
  revert k. induction s as [|x s IH]; intros k.
  - now destruct k.
  - destruct k as [|k]; [reflexivity|]. simpl. apply IH.
Qed.

Lemma span_at_none_without (o c : ascii) (s : str) :
  ~ In c s -> span_at o c s = None.
Proof.
  intros Hn. destruct s as [|x rest]; [reflexivity|]. unfold span_at.
  destruct (chr_eqb x o); [|reflexivity].
  destruct (last_index c rest) as [j|] eqn:E; [|reflexivity].
  exfalso. apply Hn. right. eapply last_index_in; eauto.
Qed.

Lemma findall_span_without (o c : ascii) (k : nat) (s : str) :
  ~ In c s -> findall_span o c k s = [].
Proof.
  intros Hn. apply findall_span_nil. intros a b ->.
  apply span_at_none_without. intros Hin. apply Hn. apply in_or_app. now right.
Qed.

(** What the search gives from a position on: nothing, or the one span
    that starts at the first opening delimiter and ends at the last
    closing one. *)
Lemma findall_span_shape (o c : ascii) (s : str) :
  (findall_span o c 0 s = [] /\ has_span o c s = false)
  \/ (exists a m b,
        findall_span o c 0 s = [m]
        /\ s = a ++ m ++ b
        /\ ~ In o a /\ ~ In c b
        /\ startswith m [o] = true /\ endswith m [c] = true
        /\ has_span o c s = true).
Proof.
  induction s as [|x rest IH]; [left; split; reflexivity|].
  cbn [findall_span has_span].
  destruct (span_at o c (x :: rest)) as [m|] eqn:E.
  - right. pose proof (span_at_shape o c (x :: rest) m E) as [[b Hb] [Hs He]].
    assert (Hm : exists j, last_index c rest = Some j
                           /\ m = x :: firstn (S j) rest /\ chr_eqb x o = true).
    { unfold span_at in E.
      destruct (chr_eqb x o); [|discriminate].
      destruct (last_index c rest) as [j|]; [|discriminate].
      injection E as <-. exists j. auto. }
    destruct Hm as [j [Ej [Hm Ex]]].
    destruct (last_index_spec c rest j Ej) as [_ Hj].
    assert (Hlen : length m - 1 = S j).
    { rewrite Hm. cbn [length]. rewrite length_firstn. lia. }
    rewrite Hlen, findall_span_skip.
    rewrite (findall_span_without o c 0 _ (last_index_after c rest j Ej)).
    assert (Hin : existsb (chr_eqb c) rest = true).
    { apply existsb_exists. exists c. split; [|apply chr_eqb_refl].
      eapply last_index_in; eauto. }
    rewrite Ex, Hin.
    exists [], m, (skipn (S j) rest).
    repeat split; auto.
    + rewrite Hm. cbn [app]. rewrite <- (firstn_skipn (S j) rest) at 1.
      reflexivity.
    + apply last_index_after; assumption.
  - assert (H1 : chr_eqb x o && existsb (chr_eqb c) rest = false).
    { unfold span_at in E. destruct (chr_eqb x o) eqn:Ex; [|reflexivity].
      destruct (last_index c rest) as [j|] eqn:Ej; [discriminate|].
      simpl. apply not_true_is_false. intros Hex.
      apply existsb_exists in Hex as [y [Hy Hyc]].
      apply chr_eqb_eq in Hyc. subst y.
      exact (last_index_none c rest Ej Hy). }
    rewrite H1. simpl.
    destruct IH as [[Hf Hh]|[a [m [b [Hf [Hs [Ha [Hb [H2 [H3 Hh]]]]]]]]]].
    + left. split; assumption.
    + right. exists (x :: a), m, b. repeat split; auto.
      * now rewrite Hs.
      * intros [Hx|Hin]; [|now apply Ha].
        subst x. rewrite chr_eqb_refl in H1. simpl in H1.
        assert (Hex : existsb (chr_eqb c) rest = true).
        { apply existsb_exists. exists c. split; [|apply chr_eqb_refl].
          rewrite Hs. apply in_or_app. right. apply in_or_app. left.
          unfold endswith in H3. apply startswith_split in H3 as [u Hu].
          apply (f_equal (@rev ascii)) in Hu. rewrite rev_involutive in Hu.
          rewrite Hu. simpl.
          apply in_or_app. right. now left. }
        congruence.
Qed.

(** Whatever the text, the search for spans returns at most one
    match: the choice of the longest match never has two to choose
    from. *)
Lemma findall_span_at_most_one (o c : ascii) (s : str) :
  length (findall_span o c 0 s) <= 1.
Proof.
  destruct (findall_span_shape o c s) as [[-> _]|[a [m [b [-> _]]]]];
    simpl; lia.
Qed.

(** Texts that do not begin, or end, with whitespace. *)
Lemma lstrip_fixed (x : ascii) (s : str) :
  is_space x = false -> lstrip (x :: s) = x :: s.
Proof. intros H. simpl. now rewrite H. Qed.

Lemma lstrip_split (s : str) :
  exists a, s = a ++ lstrip s /\ forallb is_space a = true.
Proof.
  induction s as [|x s [a [IH Ha]]]; simpl.
  - exists []. split; reflexivity.
  - destruct (is_space x) eqn:E.
    + exists (x :: a). simpl. rewrite E, Ha. split; [now rewrite <- IH | reflexivity].
    + exists []. split; reflexivity.
Qed.

Lemma lstrip_head (s : str) :
  lstrip s = [] \/ exists x r, lstrip s = x :: r /\ is_space x = false.
Proof.
  induction s as [|x s IH]; simpl; [now left|].
  destruct (is_space x) eqn:E; [exact IH|]. right. exists x, s. auto.
Qed.

Lemma lstrip_idem (s : str) : lstrip (lstrip s) = lstrip s.
Proof.
  destruct (lstrip_head s) as [->|[x [r [-> Hx]]]]; [reflexivity|].
  now apply lstrip_fixed.
Qed.

Lemma lstrip_snoc (l : str) (x : ascii) :
  is_space x = false -> lstrip (l ++ [x]) = lstrip l ++ [x].
Proof.
  intros Hx. induction l as [|y l IH]; simpl; [now rewrite Hx|].
  destruct (is_space y); [exact IH | reflexivity].
Qed.

Lemma rstrip_keeps_head (x : ascii) (s : str) :
  is_space x = false -> exists r, rstrip (x :: s) = x :: r.
Proof.
  intros Hx. unfold rstrip. simpl. rewrite (lstrip_snoc _ _ Hx).
  rewrite rev_app_distr. simpl. eauto.
Qed.

Lemma rstrip_idem (s : str) : rstrip (rstrip s) = rstrip s.
Proof. unfold rstrip. now rewrite rev_involutive, lstrip_idem. Qed.

Lemma strip_idem (s : str) : strip (strip s) = strip s.
Proof.
  unfold strip.
  destruct (lstrip_head s) as [->|[x [r [-> Hx]]]]; [reflexivity|].
  destruct (rstrip_keeps_head x r Hx) as [r' Hr].
  rewrite Hr, (lstrip_fixed x r' Hx), <- Hr.
  apply rstrip_idem.
Qed.

(** A text between two delimiters that are not whitespace is its own
    stripped form. *)
Lemma strip_span (o c : ascii) (m : str) :
  is_space o = false -> is_space c = false ->
  startswith m [o] = true -> endswith m [c] = true -> strip m = m.
Proof.
  intros Ho Hc Hs He. unfold strip.
  destruct (startswith_split _ _ Hs) as [r ->]. cbn [app] in *.
  rewrite (lstrip_fixed o r Ho). unfold rstrip.
  unfold endswith in He. destruct (startswith_split _ _ He) as [u Hu].
  rewrite Hu. change (rev [c] ++ u) with (c :: u).
  rewrite (lstrip_fixed c u Hc).
  change (c :: u) with (rev [c] ++ u). rewrite <- Hu.
  apply rev_involutive.
Qed.

(** A text that starts with one delimiter and ends with another holds a
    span. *)
Lemma ends_have_span (o c : ascii) (t : str) :
  o <> c -> startswith t [o] = true -> endswith t [c] = true ->
  has_span o c t = true.
Proof.
  intros Hoc Hs He.
  destruct (has_span o c t) eqn:E; [reflexivity|]. exfalso.
  apply (has_span_sound o c t Hoc E t); [exists [], []; now rewrite app_nil_r|].
  split; assumption.
Qed.

(** A span alone is found whole. *)
Lemma findall_span_self (o c : ascii) (m : str) :
  o <> c -> startswith m [o] = true -> endswith m [c] = true ->
  findall_span o c 0 m = [m].
Proof.
  intros Hoc Hs He.
  destruct (findall_span_shape o c m) as [[_ Hh]|[a [m' [b [Hf [Hm [Ha [Hb [Hs' [He' _]]]]]]]]]].
  - rewrite (ends_have_span o c m Hoc Hs He) in Hh. discriminate.
  - rewrite Hf. f_equal.
    destruct a as [|y a].
    + destruct b as [|z b]; [now rewrite Hm, app_nil_r|]. exfalso.
      unfold endswith in He. apply startswith_split in He as [u Hu].
      assert (Hrev : rev m = rev (z :: b) ++ rev m')
        by (rewrite Hm; cbn [app]; apply rev_app_distr).
      destruct (rev (z :: b)) as [|h t] eqn:Er.
      * apply (f_equal (@length ascii)) in Er. rewrite length_rev in Er.
        discriminate.
      * rewrite Hu in Hrev. injection Hrev as Hh _. apply Hb.
        apply in_rev. rewrite Er. left. congruence.
    + exfalso. apply Ha. apply startswith_split in Hs as [r Hr].
      rewrite Hr in Hm. simpl in Hm. injection Hm as Hy _. subst y. now left.
Qed.

Lemma has_span_prefix (o c : ascii) (m b : str) :
  has_span o c (m ++ b) = false -> has_span o c m = false.
Proof.
  induction m as [|x m IH]; simpl; [reflexivity|].
  intros H. apply orb_false_iff in H as [H1 H2].
  rewrite (IH H2), orb_false_r.
  destruct (chr_eqb x o); [|reflexivity]. simpl in *.
  rewrite existsb_app in H1. now apply orb_false_iff in H1 as [-> _].
Qed.

Lemma has_span_middle (o c : ascii) (a m b : str) :
  has_span o c (a ++ m ++ b) = false -> has_span o c m = false.
Proof. intros H. apply has_span_app in H. now apply has_span_prefix in H. Qed.

Lemma has_span_spaces (o c : ascii) (a : str) :
  is_space o = false -> forallb is_space a = true -> has_span o c a = false.
Proof.
  intros Ho. induction a as [|x a IH]; simpl; [reflexivity|].
  intros H. apply andb_true_iff in H as [Hx Ha]. rewrite (IH Ha), orb_false_r.
  destruct (chr_eqb x o) eqn:E; [|reflexivity].
  apply chr_eqb_eq in E. subst x. congruence.
Qed.

Lemma has_span_after_spaces (o c : ascii) (a s : str) :
  is_space o = false -> forallb is_space a = true ->
  has_span o c (a ++ s) = has_span o c s.
Proof.
  intros Ho. induction a as [|x a IH]; simpl; [reflexivity|].
  intros H. apply andb_true_iff in H as [Hx Ha]. rewrite (IH Ha).
  destruct (chr_eqb x o) eqn:E; [|reflexivity].
  apply chr_eqb_eq in E. subst x. congruence.
Qed.

Lemma existsb_spaces (c : ascii) (w : str) :
  is_space c = false -> forallb is_space w = true ->
  existsb (chr_eqb c) w = false.
Proof.
  intros Hc. induction w as [|x w IH]; simpl; [reflexivity|].
  intros H. apply andb_true_iff in H as [Hx Hw]. rewrite (IH Hw), orb_false_r.
  destruct (chr_eqb c x) eqn:E; [|reflexivity].
  apply chr_eqb_eq in E. subst x. congruence.
Qed.

Lemma has_span_before_spaces (o c : ascii) (s w : str) :
  is_space o = false -> is_space c = false -> forallb is_space w = true ->
  has_span o c (s ++ w) = has_span o c s.
Proof.
  intros Ho Hc Hw. induction s as [|x s IH]; simpl.
  - now apply has_span_spaces.
  - rewrite IH, existsb_app, (existsb_spaces c w Hc Hw), orb_false_r.
    reflexivity.
Qed.

Lemma rstrip_split (s : str) :
  exists w, s = rstrip s ++ w /\ forallb is_space w = true.
Proof.
  unfold rstrip. destruct (lstrip_split (rev s)) as [a [Ha Hs]].
  exists (rev a). split.
  - rewrite <- rev_app_distr, <- Ha. now rewrite rev_involutive.
  - apply forallb_forall. intros x Hx. apply in_rev in Hx.
    revert x Hx. now apply forallb_forall.
Qed.

(** Stripping neither makes nor breaks a span. *)
Lemma has_span_strip (o c : ascii) (s : str) :
  is_space o = false -> is_space c = false ->
  has_span o c (strip s) = has_span o c s.
Proof.
  intros Ho Hc. unfold strip.
  destruct (lstrip_split s) as [a [Ha Hsa]].
  destruct (rstrip_split (lstrip s)) as [w [Hw Hsw]].
  rewrite Ha at 2. rewrite (has_span_after_spaces o c a _ Ho Hsa).
  rewrite Hw at 2. now rewrite (has_span_before_spaces o c _ w Ho Hc Hsw).
Qed.

(** The three cases of the extraction, told apart by the spans the
    output holds. *)
Lemma extract_cases (output : str) :
  (has_span lbrace rbrace output = true
   /\ exists a b,
        strip output = a ++ extract_json_from_output output ++ b
        /\ ~ In lbrace a /\ ~ In rbrace b
        /\ startswith (extract_json_from_output output) [lbrace] = true
        /\ endswith (extract_json_from_output output) [rbrace] = true)
  \/ (has_span lbrace rbrace output = false
      /\ has_span lbracket rbracket output = true
      /\ exists a b,
           strip output = a ++ extract_json_from_output output ++ b
           /\ ~ In lbracket a /\ ~ In rbracket b
           /\ startswith (extract_json_from_output output) [lbracket] = true
           /\ endswith (extract_json_from_output output) [rbracket] = true)
  \/ (has_span lbrace rbrace output = false
      /\ has_span lbracket rbracket output = false
      /\ extract_json_from_output output = strip output).
Proof.
  unfold extract_json_from_output.
  rewrite <- (has_span_strip lbrace rbrace output) by reflexivity.
  rewrite <- (has_span_strip lbracket rbracket output) by reflexivity.
  destruct (findall_span_shape lbrace rbrace (strip output))
    as [[Hf Hh]|[a [m [b [Hf [Hs [Ha [Hb [H1 [H2 Hh]]]]]]]]]]; rewrite Hf, Hh.
  - destruct (findall_span_shape lbracket rbracket (strip output))
      as [[Hf' Hh']|[a [m [b [Hf' [Hs [Ha [Hb [H1 [H2 Hh']]]]]]]]]];
      rewrite Hf', Hh'.
    + right. right. auto.
    + right. left. split; [reflexivity|]. split; [reflexivity|].
      exists a, b. simpl. auto.
  - left. split; [reflexivity|]. exists a, b. simpl. auto.
Qed.

(** X1. When the output holds an opening brace with a closing brace
    somewhere after it, the extraction returns the part of the stripped
    output from its first opening brace to its last closing brace,
    whatever brackets the output also holds. *)
Theorem extract_returns_outer_brace_span (output : str) :
  has_span lbrace rbrace output = true ->
  exists a b,
    strip output = a ++ extract_json_from_output output ++ b
    /\ ~ In lbrace a /\ ~ In rbrace b
    /\ startswith (extract_json_from_output output) [lbrace] = true
    /\ endswith (extract_json_from_output output) [rbrace] = true.
Proof.
  intros H.
  destruct (extract_cases output) as [[_ Hc]|[[Hn _]|[Hn _]]];
    [exact Hc | congruence | congruence].
Qed.

Lemma extract_returns_outer_brace_span_witness :
  exists a b,
    strip (litq " [0] {^a^:[1]} x } ")
    = a ++ extract_json_from_output (litq " [0] {^a^:[1]} x } ") ++ b
    /\ ~ In lbrace a /\ ~ In rbrace b
    /\ startswith (extract_json_from_output (litq " [0] {^a^:[1]} x } ")) [lbrace]
       = true
    /\ endswith (extract_json_from_output (litq " [0] {^a^:[1]} x } ")) [rbrace]
       = true.
Proof.
  apply (extract_returns_outer_brace_span (litq " [0] {^a^:[1]} x } ")).
  reflexivity.
Defined.

(** X2. The extracted text passes the shape check exactly when the
    output holds a brace span or a bracket span. *)
Theorem extracted_text_is_valid_iff_span (output : str) :
  is_valid_json_output (extract_json_from_output output)
  = has_span lbrace rbrace output || has_span lbracket rbracket output.
Proof.
  destruct (extract_cases output)
    as [[Hh [a [b [_ [_ [_ [H1 H2]]]]]]]
       |[[Hn [Hh [a [b [_ [_ [_ [H1 H2]]]]]]]]
        |[Hn [Hn' He]]]].
  - rewrite Hh. unfold is_valid_json_output.
    rewrite (strip_span lbrace rbrace _ eq_refl eq_refl H1 H2).
    now rewrite H1, H2.
  - rewrite Hn, Hh. unfold is_valid_json_output.
    rewrite (strip_span lbracket rbracket _ eq_refl eq_refl H1 H2).
    rewrite H1, H2. now rewrite orb_true_r.
  - rewrite Hn, Hn', He. unfold is_valid_json_output. rewrite strip_idem.
    rewrite <- (has_span_strip lbrace rbrace output) in Hn by reflexivity.
    rewrite <- (has_span_strip lbracket rbracket output) in Hn' by reflexivity.
    apply orb_false_iff. split; apply not_true_is_false; intros H;
      apply andb_true_iff in H as [H1 H2].
    + rewrite (ends_have_span lbrace rbrace _) in Hn; auto; discriminate.
    + rewrite (ends_have_span lbracket rbracket _) in Hn'; auto; discriminate.
Qed.

(** X3. Extracting from an extracted text changes nothing. *)
Theorem extract_idempotent (output : str) :
  extract_json_from_output (extract_json_from_output output)
  = extract_json_from_output output.
Proof.
  destruct (extract_cases output)
    as [[Hh [a [b [_ [_ [_ [H1 H2]]]]]]]
       |[[Hn [Hh [a [b [Hs [_ [_ [H1 H2]]]]]]]]
        |[Hn [Hn' He]]]].
  - set (m := extract_json_from_output output) in *.
    unfold extract_json_from_output at 1.
    rewrite (strip_span lbrace rbrace m eq_refl eq_refl H1 H2).
    rewrite (findall_span_self lbrace rbrace m); auto; discriminate.
  - set (m := extract_json_from_output output) in *.
    unfold extract_json_from_output at 1.
    rewrite (strip_span lbracket rbracket m eq_refl eq_refl H1 H2).
    rewrite <- (has_span_strip lbrace rbrace output) in Hn by reflexivity.
    rewrite Hs in Hn. apply has_span_middle in Hn.
    destruct (findall_span_shape lbrace rbrace m) as [[-> _]|[? [? [? [_ [_ [_ [_ [_ [_ Ht]]]]]]]]]];
      [|congruence].
    rewrite (findall_span_self lbracket rbracket m); auto; discriminate.
  - rewrite He. unfold extract_json_from_output. rewrite strip_idem.
    rewrite <- (has_span_strip lbrace rbrace output) in Hn by reflexivity.
    rewrite <- (has_span_strip lbracket rbracket output) in Hn' by reflexivity.
    destruct (findall_span_shape lbrace rbrace (strip output))
      as [[-> _]|[? [? [? [_ [_ [_ [_ [_ [_ Ht]]]]]]]]]]; [|congruence].
    destruct (findall_span_shape lbracket rbracket (strip output))
      as [[-> _]|[? [? [? [_ [_ [_ [_ [_ [_ Ht]]]]]]]]]]; [|congruence].
    reflexivity.
Qed.

End OutputValidatorMore.

(* ================================================================= *)
(** ** More on the access sanitizer *)

Section AccessSanitizerMore.
Import PyStr AccessSanitizer.

Lemma process_match_allowed (allowed_paths : list str) (pt : ptype)
                            (_code : str) (m : rmatch) :
  allowed_path allowed_paths (m_group1 m) = true ->
  process_match allowed_paths pt _code m = _code.
Proof.
  unfold allowed_path, process_match. intros H.
  destruct (mem (m_group1 m) allowed_paths); [reflexivity|].
  simpl in H. now rewrite H.
Qed.

Lemma sanitize_pattern_allowed (allowed_paths : list str) (_code : str)
                               (p : str * ptype) :
  forallb (fun m => allowed_path allowed_paths (m_group1 m))
          (finditer (fst p) _code) = true ->
  sanitize_pattern allowed_paths _code p = _code.
Proof.
  unfold sanitize_pattern.
  induction (finditer (fst p) _code) as [|m ms IH]; [reflexivity|].
  simpl. intros H. apply andb_true_iff in H as [Hm Hms].
  rewrite (process_match_allowed _ _ _ _ Hm). now apply IH.
Qed.

(** X4. A program in which every literal path matched by the five
    patterns is allowed, by full value or by basename, leaves the pass
    exactly as it entered it. *)
Theorem sanitize_compliant_unchanged (allowed_paths : list str) (_code : str) :
  matches_allowed allowed_paths _code = true ->
  sanitize allowed_paths _code = _code.
Proof.
  unfold matches_allowed, sanitize.
  induction patterns as [|p ps IH]; [reflexivity|].
  simpl. intros H. apply andb_true_iff in H as [Hp Hps].
  rewrite (sanitize_pattern_allowed _ _ _ Hp). now apply IH.
Qed.

Lemma sanitize_compliant_unchanged_witness :
  sanitize [lit "data.csv"; lit "s3://bucket/t.parquet"]
    (lit "df = pd.read_csv('/tmp/data.csv')" ++ [newline]
     ++ lit "t = pd.read_parquet('s3://bucket/t.parquet')")
  = lit "df = pd.read_csv('/tmp/data.csv')" ++ [newline]
    ++ lit "t = pd.read_parquet('s3://bucket/t.parquet')".
Proof.
  apply (sanitize_compliant_unchanged [lit "data.csv"; lit "s3://bucket/t.parquet"]).
  reflexivity.
Defined.

Lemma last_index_app_sep (c : ascii) (dir name : str) :
  ~ In c name -> last_index c (dir ++ c :: name) = Some (length dir).
Proof.
  intros Hn. induction dir as [|x dir IH]; simpl.
  - destruct (last_index c name) as [j|] eqn:E.
    + exfalso. apply Hn. eapply last_index_in; eauto.
    + now rewrite chr_eqb_refl.
  - now rewrite IH.
Qed.

Lemma basename_join (dir name : str) :
  ~ In "/"%char name -> basename (dir ++ "/"%char :: name) = name.
Proof.
  intros Hn. unfold basename, rfind_chr. rewrite firstn_all.
  rewrite (last_index_app_sep _ dir name Hn).
  replace (Z.to_nat (Z.of_nat (length dir) + 1)) with (length dir + 1) by lia.
  rewrite skipn_app, skipn_all2 by lia.
  replace (length dir + 1 - length dir) with 1 by lia. reflexivity.
Qed.

(** X5. When a file name is in the AllowList, a read of that name under
    any directory is taken as allowed: the match is left alone whatever
    the directory is. *)
Theorem allowed_name_under_any_directory
    (allowed_paths : list str) (name dir : str) (pt : ptype)
    (_code : str) (m : rmatch) :
  mem name allowed_paths = true ->
  ~ In "/"%char name ->
  m_group1 m = dir ++ "/"%char :: name ->
  allowed_path allowed_paths (m_group1 m) = true
  /\ process_match allowed_paths pt _code m = _code.
Proof.
  intros Hmem Hn Hm.
  assert (Ha : allowed_path allowed_paths (m_group1 m) = true).
  { unfold allowed_path. rewrite Hm, (basename_join dir name Hn), Hmem.
    apply orb_true_r. }
  split; [exact Ha | now apply process_match_allowed].
Qed.

Lemma allowed_name_under_any_directory_witness :
  exists m,
    In m (finditer (lit "open(") (lit "f = open('/etc/secret/data.csv')"))
    /\ allowed_path [lit "data.csv"] (m_group1 m) = true
    /\ process_match [lit "data.csv"] Open (lit "f = open('/etc/secret/data.csv')") m
       = lit "f = open('/etc/secret/data.csv')".
Proof.
  eexists. split; [left; reflexivity|].
  apply (allowed_name_under_any_directory [lit "data.csv"] (lit "data.csv")
           (lit "/etc/secret")); [reflexivity | | reflexivity].
  simpl. intros H. repeat destruct H as [H|H]; try discriminate. exact H.
Defined.

Lemma index_of_sep (c : ascii) (pre rest : str) :
  ~ In c pre -> index_of (pre ++ c :: rest) [c] = Some (length pre).
Proof.
  intros Hn. induction pre as [|x pre IH].
  - simpl. now rewrite chr_eqb_refl.
  - cbn [app index_of length].
    assert (Hx : startswith (x :: pre ++ c :: rest) [c] = false).
    { simpl. destruct (chr_eqb c x) eqn:E; [|reflexivity].
      apply chr_eqb_eq in E. subst x. exfalso. apply Hn. now left. }
    rewrite Hx, IH; [reflexivity|]. intros Hin. apply Hn. now right.
Qed.

Lemma lstrip_indent (k : nat) (x : ascii) (r : str) :
  is_space x = false -> lstrip (repeat space k ++ x :: r) = x :: r.
Proof.
  intros Hx. induction k as [|k IH]; simpl; [now rewrite Hx | exact IH].
Qed.

(** X6. The line built for a disallowed assignment carries the
    indentation of the original line twice: the left-hand side is copied
    with its leading spaces and the same number of spaces is put in
    front again. *)
Theorem blank_rhs_doubles_indentation (k : nat) (x : ascii) (name rest : str) :
  is_space x = false ->
  ~ In "="%char (x :: name) ->
  blank_rhs (repeat space k ++ (x :: name) ++ "="%char :: rest)
  = repeat space (k + k) ++ (x :: name) ++ lit "= ''".
Proof.
  intros Hx Hn. unfold blank_rhs, find.
  change (lit "=") with ["="%char].
  assert (Hpre : ~ In "="%char (repeat space k ++ x :: name)).
  { intros Hin. apply in_app_or in Hin as [Hin|Hin]; [|now apply Hn].
    apply repeat_spec in Hin. discriminate. }
  replace (repeat space k ++ (x :: name) ++ "="%char :: rest)
    with ((repeat space k ++ x :: name) ++ "="%char :: rest)
    by now rewrite <- app_assoc.
  rewrite (index_of_sep _ _ rest Hpre).
  replace (Z.to_nat (Z.of_nat (length (repeat space k ++ x :: name)) + 1))
    with (length (repeat space k ++ x :: name) + 1) by lia.
  rewrite firstn_app, firstn_all2 by lia.
  replace (length (repeat space k ++ x :: name) + 1
           - length (repeat space k ++ x :: name)) with 1 by lia.
  cbn [firstn].
  rewrite <- (app_assoc (repeat space k) (x :: name) ("="%char :: rest)).
  cbn [app]. rewrite (lstrip_indent k x _ Hx).
  rewrite length_app, repeat_length.
  replace (k + length (x :: name ++ "="%char :: rest)
           - length (x :: name ++ "="%char :: rest)) with k by lia.
  rewrite repeat_app. rewrite <- !app_assoc. reflexivity.
Qed.

Lemma blank_rhs_doubles_indentation_witness :
  blank_rhs (lit "    df = pd.read_csv('other.csv')")
  = lit "        df = ''".
Proof.
  apply (blank_rhs_doubles_indentation 4 "d"%char (lit "f ")
           (lit " pd.read_csv('other.csv')")); [reflexivity|].
  simpl. intros H. repeat destruct H as [H|H]; try discriminate. exact H.
Defined.

(** A match whose path is not disallowed is passed over. *)
Lemma process_match_not_disallowed (allowed_paths : list str) (pt : ptype)
                            (_code : str) (m : rmatch) :
  disallowed allowed_paths m = false ->
  process_match allowed_paths pt _code m = _code.
Proof. unfold disallowed, process_match. cbv zeta. now intros ->. Qed.

Lemma sanitize_pattern_not_disallowed (allowed_paths : list str) (_code : str)
                               (p : str * ptype) :
  existsb (disallowed allowed_paths) (finditer (fst p) _code) = false ->
  sanitize_pattern allowed_paths _code p = _code.
Proof.
  unfold sanitize_pattern.
  induction (finditer (fst p) _code) as [|m ms IH]; [reflexivity|].
  cbn [existsb fold_left]. intros H. apply orb_false_iff in H as [Hm Hms].
  rewrite (process_match_not_disallowed _ _ _ _ Hm). now apply IH.
Qed.

(** The flag, once set, stays set. *)
Lemma modified_stays (allowed_paths : list str) (ps : list (str * ptype))
                     (_code : str) :
  snd (fold_left
         (fun (acc : str * bool) (p : str * ptype) =>
            (sanitize_pattern allowed_paths (fst acc) p,
             snd acc || existsb (disallowed allowed_paths)
                                (finditer (fst p) (fst acc))))
         ps (_code, true)) = true.
Proof.
  revert _code. induction ps as [|p ps IH]; intros c; [reflexivity|].
  cbn [fold_left fst snd orb]. apply IH.
Qed.

(** When [_modified] stays false the pass has changed nothing: the
    rewrite of the program file that it guards is the only one that
    could differ from the text read. *)
Lemma unmodified_is_unchanged (allowed_paths : list str) (_code : str) :
  modified allowed_paths _code = false ->
  sanitize allowed_paths _code = _code.
Proof.
  unfold modified, sanitize. revert _code.
  induction patterns as [|p ps IH]; intros c; [reflexivity|].
  cbn [fold_left fst snd orb].
  destruct (existsb (disallowed allowed_paths) (finditer (fst p) c)) eqn:E.
  - rewrite modified_stays. discriminate.
  - rewrite (sanitize_pattern_not_disallowed _ _ _ E). apply IH.
Qed.

(** The flag is set by a Parquet read outside an assignment although
    the text stays as it is; the file is then rewritten with the text
    just read. *)
Lemma modified_by_exempt_parquet :
  modified [] parquet_call_line = true
  /\ sanitize [] parquet_call_line = parquet_call_line.
Proof. split; reflexivity. Qed.

End AccessSanitizerMore.

(* ================================================================= *)
(** ** More on the regex fallback *)

Section SourceDiscovererMore.
Import PyStr SourceDiscoverer.

Lemma drop_while_idem (f : ascii -> bool) (s : str) :
  drop_while f (drop_while f s) = drop_while f s.
Proof.
  induction s as [|x s IH]; simpl; [reflexivity|].
  destruct (f x) eqn:E; [exact IH|]. simpl. now rewrite E.
Qed.

Lemma clean_idem (url : str) : clean (clean url) = clean url.
Proof. unfold clean. now rewrite rev_involutive, drop_while_idem. Qed.

(** X7. Every scrape URL the fallback returns has no trailing
    punctuation left to remove, matches no denylist pattern, holds none
    of the three data extensions and does not name the reference site,
    all compared in lower case. *)
Theorem scrape_urls_are_filtered (question_text : str) (r : sources) (u : str) :
  extract_urls_with_regex question_text = inr r ->
  In u (scrape_urls r) ->
  clean u = u
  /\ any_in skip_patterns (lower u) = false
  /\ any_in database_exts (lower u) = false
  /\ any_in [lit "ecourts.gov.in"] (lower u) = false.
Proof.
  intros Hr Hu.
  destruct (extract_urls_with_regex_spec question_text) as [r' [Hr' [Hsc _]]].
  assert (r' = r) by congruence. subst r'.
  rewrite Hsc in Hu. apply in_flat_map in Hu as [url [_ Hu]].
  unfold scrape_of in Hu.
  destruct (any_in skip_patterns (lower (clean url))) eqn:E1; [contradiction|].
  destruct (any_in database_exts (lower (clean url))) eqn:E2; [contradiction|].
  destruct (any_in [lit "ecourts.gov.in"] (lower (clean url))) eqn:E3;
    [contradiction|].
  destruct Hu as [<-|[]]. rewrite clean_idem. auto.
Qed.

Lemma scrape_urls_are_filtered_witness :
  exists r,
    extract_urls_with_regex (lit "Tables at https://stats.org/wiki/GDP).") = inr r
    /\ In (lit "https://stats.org/wiki/GDP") (scrape_urls r)
    /\ clean (lit "https://stats.org/wiki/GDP") = lit "https://stats.org/wiki/GDP".
Proof.
  eexists. split; [reflexivity|]. split; [left; reflexivity|].
  eapply (scrape_urls_are_filtered (lit "Tables at https://stats.org/wiki/GDP).")).
  - reflexivity.
  - left. reflexivity.
Defined.

Lemma drop_while_snoc (f : ascii -> bool) (l : str) (x : ascii) :
  f x = false -> drop_while f (l ++ [x]) <> [].
Proof.
  intros Hx. induction l as [|y l IH]; simpl; [now rewrite Hx|].
  destruct (f y); [exact IH | discriminate].
Qed.

Lemma clean_nonempty (x : ascii) (s : str) :
  trailing_punct x = false -> clean (x :: s) <> [].
Proof.
  intros Hx H. unfold clean in H.
  apply (f_equal (@rev ascii)) in H. rewrite rev_involutive in H. simpl in H.
  exact (drop_while_snoc trailing_punct (rev s) x Hx H).
Qed.

Lemma url_at_head (scheme t u : str) :
  url_at scheme t = Some u -> exists body, u = scheme ++ body.
Proof.
  unfold url_at. destruct (startswith t scheme); [|discriminate].
  destruct (take_while url_chr _) as [|b body]; [discriminate|].
  intros H; injection H as <-. eauto.
Qed.

(** The entries of the fallback: a known format and a URL that is not
    empty. *)
Lemma fallback_entry_shape (question_text : str) (r : sources) (d : db_file) :
  extract_urls_with_regex question_text = inr r ->
  In d (database_files r) ->
  (format d = lit "parquet" \/ format d = lit "csv" \/ format d = lit "json")
  /\ url d <> [].
Proof.
  intros Hr Hd.
  destruct (extract_urls_with_regex_spec question_text) as [r' [Hr' [_ Hdb]]].
  assert (r' = r) by congruence. subst r'.
  rewrite Hdb in Hd. apply in_app_or in Hd as [Hd|Hd];
    apply in_flat_map in Hd as [u [Hu Hd]].
  - unfold database_of in Hd.
    destruct (any_in skip_patterns _); [contradiction|].
    destruct (any_in database_exts _); [|contradiction].
    destruct Hd as [<-|[]]. simpl. split.
    + unfold format_type_of.
      destruct (contains (clean u) (lit ".parquet")); [now left|].
      destruct (contains (clean u) (lit ".csv")); [right; now left|].
      right. now right.
    + destruct (findall_from_matches _ _ _ _ Hu) as [t Ht].
      unfold http_url_at in Ht.
      destruct (url_at (lit "https://") t) as [v|] eqn:E.
      * injection Ht as ->. apply url_at_head in E as [body ->].
        now apply clean_nonempty.
      * apply url_at_head in Ht as [body ->]. now apply clean_nonempty.
  - unfold s3_of in Hd. destruct (any_in placeholders u); [contradiction|].
    destruct Hd as [<-|[]]. simpl. split; [now left|].
    destruct (findall_from_matches _ _ _ _ Hu) as [t Ht].
    apply url_at_head in Ht as [body ->]. discriminate.
Qed.

(** X8. Every database entry the fallback returns has one of the three
    formats the schema probe dispatches on, and a URL that is not
    empty. *)
Theorem database_formats_are_known (question_text : str) (r : sources) (d : db_file) :
  extract_urls_with_regex question_text = inr r ->
  In d (database_files r) ->
  (format d = lit "parquet" \/ format d = lit "csv" \/ format d = lit "json")
  /\ url d <> [].
Proof. apply fallback_entry_shape. Qed.

Lemma database_formats_are_known_witness :
  exists r d,
    extract_urls_with_regex (lit "Use https://host.org/T.CSV and s3://b/k") = inr r
    /\ In d (database_files r)
    /\ (format d = lit "parquet" \/ format d = lit "csv" \/ format d = lit "json")
    /\ url d <> [].
Proof.
  eexists. eexists. split; [reflexivity|]. split; [left; reflexivity|].
  eapply (database_formats_are_known
            (lit "Use https://host.org/T.CSV and s3://b/k")).
  - reflexivity.
  - left. reflexivity.
Defined.

Lemma index_of_none_suffix (s sub a b : str) :
  index_of s sub = None -> s = a ++ b -> startswith b sub = false.
Proof.
  revert a b. induction s as [|x s IH]; intros a b H Hs.
  - destruct a; [|discriminate]. simpl in Hs. subst b.
    simpl in H. destruct (startswith [] sub); [discriminate | reflexivity].
  - cbn [index_of] in H.
    destruct (startswith (x :: s) sub) eqn:E; [discriminate|].
    destruct (index_of s sub) eqn:E'; [discriminate|].
    destruct a as [|y a].
    + simpl in Hs. now subst b.
    + injection Hs as _ Hs. now apply (IH a b).
Qed.

Lemma startswith_app_l (s p q : str) :
  startswith s (p ++ q) = true -> startswith (skipn (length p) s) q = true.
Proof.
  intros H. apply startswith_split in H as [r ->].
  rewrite <- app_assoc, skipn_app, skipn_all, Nat.sub_diag. simpl.
  apply startswith_app.
Qed.

(** A text without the scheme separator has no match of a pattern whose
    scheme ends with it. *)
Lemma url_at_none (scheme_name s a b : str) :
  contains s (lit "://") = false -> s = a ++ b ->
  url_at (scheme_name ++ lit "://") b = None.
Proof.
  intros Hc Hs. unfold url_at.
  destruct (startswith b (scheme_name ++ lit "://")) eqn:E; [|reflexivity].
  exfalso. apply startswith_app_l in E.
  unfold contains in Hc. destruct (index_of s (lit "://")) eqn:Ei; [discriminate|].
  rewrite (index_of_none_suffix s (lit "://") (a ++ firstn (length scheme_name) b)
             (skipn (length scheme_name) b) Ei) in E; [discriminate|].
  rewrite <- app_assoc, firstn_skipn. exact Hs.
Qed.

Lemma findall_from_nil (at_head : str -> option str) (s : str) (k : nat) :
  (forall a b, s = a ++ b -> at_head b = None) -> findall_from at_head k s = [].
Proof.
  revert k. induction s as [|x s IH]; intros k H; [reflexivity|].
  assert (Hs : forall a b, s = a ++ b -> at_head b = None).
  { intros a b ->. apply (H (x :: a)). reflexivity. }
  simpl. destruct k as [|k]; [|now apply IH].
  rewrite (H [] (x :: s) eq_refl). now apply IH.
Qed.

(** X9. A question that nowhere holds the scheme separator of a URL
    gives no scrape URL, no database file and the flag off. *)
Theorem no_scheme_no_sources (question_text : str) :
  contains question_text (lit "://") = false ->
  extract_urls_with_regex question_text = inr (mkSources [] [] false).
Proof.
  intros Hc. unfold extract_urls_with_regex, findall.
  rewrite (findall_from_nil http_url_at question_text 0).
  - rewrite (findall_from_nil s3_url_at question_text 0); [reflexivity|].
    intros a b Hs. exact (url_at_none (lit "s3") question_text a b Hc Hs).
  - intros a b Hs. unfold http_url_at.
    pose proof (url_at_none (lit "https") question_text a b Hc Hs) as H1.
    pose proof (url_at_none (lit "http") question_text a b Hc Hs) as H2.
    change (lit "https" ++ lit "://") with (lit "https://") in H1.
    change (lit "http" ++ lit "://") with (lit "http://") in H2.
    now rewrite H1, H2.
Qed.

Lemma no_scheme_no_sources_witness :
  extract_urls_with_regex (lit "Plot sales by year from the attached table.")
  = inr (mkSources [] [] false).
Proof.
  apply (no_scheme_no_sources (lit "Plot sales by year from the attached table.")).
  reflexivity.
Defined.

End SourceDiscovererMore.

(* ================================================================= *)
(** ** More on scraping and probing *)

Section NamingFacts.
Import PyStr.

Lemma of_nat_inj (n n' : nat) : of_nat n = of_nat n' -> n = n'.
Proof.
  unfold of_nat. intros H.
  apply (f_equal string_of_list_ascii) in H.
  rewrite !string_of_list_ascii_of_string in H.
  apply (f_equal DecimalString.NilEmpty.uint_of_string) in H.
  rewrite !DecimalString.NilEmpty.usu in H. injection H as H.
  now apply DecimalNat.Unsigned.to_uint_inj.
Qed.

Lemma of_nat_nonempty (n : nat) : of_nat n <> [].
Proof.
  unfold of_nat. intros H.
  apply (f_equal string_of_list_ascii) in H.
  rewrite string_of_list_ascii_of_string in H. simpl in H.
  apply (f_equal DecimalString.NilEmpty.uint_of_string) in H.
  rewrite DecimalString.NilEmpty.usu in H. simpl in H. injection H as H.
  pose proof (DecimalNat.Unsigned.of_to n) as Hn. rewrite H in Hn.
  simpl in Hn. subst n. discriminate.
Qed.

End NamingFacts.

Section ScraperMore.
Import PyStr Scraper.

Lemma filename_for_inj (i j : nat) : filename_for i = filename_for j -> i = j.
Proof.
  unfold filename_for.
  destruct (0 <? i) eqn:Ei; destruct (0 <? j) eqn:Ej; intros H.
  - apply app_inv_head in H. apply app_inv_tail in H.
    apply of_nat_inj in H. lia.
  - exfalso. change (lit "data.csv") with (lit "data" ++ [] ++ lit ".csv") in H.
    apply app_inv_head in H. apply app_inv_tail in H.
    now apply (of_nat_nonempty (i + 1)).
  - exfalso. change (lit "data.csv") with (lit "data" ++ [] ++ lit ".csv") in H.
    apply app_inv_head in H. apply app_inv_tail in H.
    symmetry in H. now apply (of_nat_nonempty (j + 1)).
  - apply Nat.ltb_ge in Ei, Ej. lia.
Qed.

(** The names given from position [i] on: pairwise distinct, each the
    name of a position not before [i]. *)
Lemma names_from (w : World) (urls : list str) (i : nat) :
  let names :=
    map fst (flat_map (fun p => if saved w (fst p) (snd p)
                                then [(filename_for (fst p), snd p)] else [])
                      (enumerate_from i urls)) in
  NoDup names
  /\ (forall n, In n names -> exists j, i <= j /\ n = filename_for j)
  /\ length names <= length urls.
Proof.
  revert i. induction urls as [|url rest IH]; intros i; simpl.
  - repeat split; [constructor | contradiction | lia].
  - destruct (IH (S i)) as [Hnd [Hfrom Hlen]].
    unfold enumerate_from in *.
    destruct (saved w i url); simpl.
    + repeat split.
      * constructor; [|exact Hnd]. intros Hin.
        destruct (Hfrom _ Hin) as [j [Hj Heq]].
        apply filename_for_inj in Heq. lia.
      * intros n [<-|Hin]; [exists i; split; [lia | reflexivity]|].
        destruct (Hfrom _ Hin) as [j [Hj Heq]]. exists j. split; [lia | exact Heq].
      * lia.
    + repeat split; [exact Hnd | | lia].
      intros n Hin. destruct (Hfrom _ Hin) as [j [Hj Heq]].
      exists j. split; [lia | exact Heq].
Qed.

(** X10. No two entries of a scrape share a file name, so no table saved
    during it is overwritten by a later one; and there are at most as
    many entries as URLs. *)
Theorem scraped_filenames_distinct (w : World) (urls : list str)
                                   (scraped_data : list scraped) :
  scrape_all_urls w urls = inr scraped_data ->
  NoDup (map filename scraped_data)
  /\ length scraped_data <= length urls.
Proof.
  intros H. unfold scrape_all_urls in H. rewrite scrape_loop_spec in H.
  injection H as <-. simpl.
  pose proof (names_from w urls 0) as [Hnd [_ Hlen]]. simpl in Hnd, Hlen.
  assert (Hmap : map filename
                   (flat_map (fun p => entries_of w (fst p) (snd p))
                             (enumerate_from 0 urls))
                 = map fst (flat_map (fun p => if saved w (fst p) (snd p)
                                               then [(filename_for (fst p), snd p)]
                                               else [])
                                     (enumerate_from 0 urls))).
  { rewrite !map_flat_map. apply flat_map_ext. intros [i url]. simpl.
    unfold entries_of, saved, scrape_one, bind.
    destruct (extract_data w i url) as [e|df]; [reflexivity|].
    destruct (df_empty df); simpl; [reflexivity|].
    destruct (to_csv w i (filename_for i) df); reflexivity. }
  split.
  - now rewrite Hmap.
  - rewrite <- (length_map filename), Hmap. exact Hlen.
Qed.

Lemma scraped_filenames_distinct_witness :
  exists scraped_data,
    scrape_all_urls world_second_fails [lit "u1"; lit "u2"; lit "u3"]
    = inr scraped_data
    /\ NoDup (map filename scraped_data)
    /\ length scraped_data <= 3.
Proof.
  eexists. split; [reflexivity|].
  eapply (scraped_filenames_distinct world_second_fails
            [lit "u1"; lit "u2"; lit "u3"]).
  reflexivity.
Defined.

End ScraperMore.

Section SchemaProbeMore.
Import PyStr SchemaProbe.

(** When the function returns, every item was a dictionary and the
    result is made of the entries of the items. *)
Lemma get_database_schemas_returns (w : World) (database_files : list item)
                                   (database_info : list db_info) :
  get_database_schemas w database_files = inr database_info ->
  database_info = flat_map (fun p => probed_item w (fst p) (snd p))
                           (enumerate_from 0 database_files).
Proof.
  unfold get_database_schemas, try_except, bind, ret.
  destruct (connect w) as [e|[]]; [discriminate|].
  assert (Hl : forall (m : M unit) (k : M (list db_info)),
             match (match m with inl _ => inr tt | inr a => inr a end) with
             | inl e => inl e
             | inr _ => k
             end = k).
  { intros [e|[]] k; reflexivity. }
  rewrite Hl, probe_loop_spec.
  destruct (forallb is_dict database_files); [|discriminate].
  destruct (close w); [discriminate|].
  intros [= <-]. reflexivity.
Qed.

Lemma probe_one_entry (w : World) (i : nat) (db_file : db_ref) (entry : db_info) :
  probe_one w i db_file = inr (Some entry) ->
  ref_url db_file = Some (source_url entry)
  /\ ref_format db_file = Some (format entry)
  /\ source_url entry <> []
  /\ contains (source_url entry) hard_excluded = false
  /\ filename entry = lit "database_" ++ of_nat (i + 1)
  /\ total_columns entry = length (columns (schema entry)).
Proof.
  unfold probe_one, getitem, bind, raise, ret.
  destruct (ref_url db_file) as [url|]; [|discriminate].
  destruct (ref_format db_file) as [fmt|]; [|discriminate].
  destruct (length url =? 0) eqn:El; [discriminate|]. simpl.
  destruct (contains url hard_excluded) eqn:Ex; [discriminate|].
  assert (Hne : url <> []).
  { intros ->. discriminate. }
  intros H.
  repeat match type of H with
         | context [if ?b then _ else _] => destruct b
         end;
    try discriminate;
    match type of H with
    | context [query w i ?r url] => destruct (query w i r url); [discriminate|]
    end;
    injection H as <-; simpl; auto 10.
Qed.

(** X11. Every entry the probe returns comes from an item at some
    position whose URL is its source: the URL is not empty and does not
    name the excluded dataset, and the entry is named after the position
    plus one. *)
Theorem probe_entries_are_admitted (w : World) (database_files : list item)
                                   (database_info : list db_info) (entry : db_info) :
  get_database_schemas w database_files = inr database_info ->
  In entry database_info ->
  source_url entry <> []
  /\ contains (source_url entry) hard_excluded = false
  /\ exists i db_file,
       nth_error database_files i = Some (Dict db_file)
       /\ ref_url db_file = Some (source_url entry)
       /\ filename entry = lit "database_" ++ of_nat (i + 1).
Proof.
  intros H Hin.
  apply get_database_schemas_returns in H. subst database_info.
  apply in_flat_map in Hin as [[i x] [Hp He]]. simpl in He.
  destruct x as [db_file|]; [|contradiction]. cbn [probed_item] in He.
  unfold probed in He.
  destruct (probe_one w i db_file) as [e|[entry'|]] eqn:Ep; try contradiction.
  destruct He as [<-|[]].
  destruct (probe_one_entry w i db_file entry' Ep) as [Hu [_ [Hne [Hx [Hf _]]]]].
  split; [exact Hne|]. split; [exact Hx|].
  exists i, db_file. repeat split; auto.
  unfold enumerate_from in Hp. apply In_nth_error in Hp as [n Hn].
  assert (Hlen : n < length database_files).
  { assert (Hn' : nth_error (combine (seq 0 (length database_files)) database_files) n
                  <> None) by congruence.
    apply nth_error_Some in Hn'. rewrite length_combine, length_seq in Hn'. lia. }
  destruct (nth_error database_files n) as [x|] eqn:Ex;
    [|apply nth_error_None in Ex; lia].
  pose proof (nth_error_enumerate_from 0 database_files n x Ex) as Hq.
  unfold enumerate_from in Hq. rewrite Hq in Hn. injection Hn as <- <-.
  exact Ex.
Qed.

Lemma probe_entries_are_admitted_witness :
  exists database_info entry,
    get_database_schemas world_csv_only (map Dict three_references)
    = inr database_info
    /\ In entry database_info
    /\ source_url entry = lit "https://h.org/gdp.csv"
    /\ filename entry = lit "database_3"
    /\ contains (source_url entry) hard_excluded = false.
Proof.
  eexists. eexists. split; [reflexivity|]. split; [left; reflexivity|].
  split; [reflexivity|]. split; [reflexivity|].
  eapply (probe_entries_are_admitted world_csv_only (map Dict three_references));
    [reflexivity|].
  left. reflexivity.
Defined.

(** X12. Every database entry of the regex fallback reaches a reader of
    the schema probe: unless its URL names the excluded dataset, and
    provided the engine answers, the probe returns an entry for it with
    the same URL, format and description. *)
Theorem fallback_sources_are_probed
    (question_text : str) (r : SourceDiscoverer.sources)
    (d : SourceDiscoverer.db_file) (w : World) (i : nat) :
  SourceDiscoverer.extract_urls_with_regex question_text = inr r ->
  In d (SourceDiscoverer.database_files r) ->
  contains (SourceDiscoverer.url d) hard_excluded = false ->
  (forall rd, exists p, query w i rd (SourceDiscoverer.url d) = inr p) ->
  exists entry,
    probe_one w i (as_reference d) = inr (Some entry)
    /\ source_url entry = SourceDiscoverer.url d
    /\ format entry = SourceDiscoverer.format d
    /\ description entry = SourceDiscoverer.description d.
Proof.
  intros Hr Hd Hx Hq.
  destruct (fallback_entry_shape question_text r d Hr Hd) as [Hf Hne].
  unfold probe_one, as_reference, getitem, bind, ret. cbn [ref_url ref_format ref_description].
  assert (Hlen : (length (SourceDiscoverer.url d) =? 0) = false)
    by (destruct (SourceDiscoverer.url d); [contradiction | reflexivity]).
  rewrite Hlen, Hx. cbn [orb].
  destruct (Hq ReadCsvAuto) as [p1 ->].
  destruct (Hq ReadParquet) as [p2 ->].
  destruct (Hq ReadJsonAuto) as [p3 ->].
  destruct Hf as [ -> | [ -> | -> ] ];
    repeat match goal with
           | |- context [if ?b then _ else _] => destruct b eqn:?
           end;
    try (eexists; repeat split; reflexivity);
    simpl in *; discriminate.
Qed.

Lemma fallback_sources_are_probed_witness :
  exists r d entry,
    SourceDiscoverer.extract_urls_with_regex query_string_text = inr r
    /\ In d (SourceDiscoverer.database_files r)
    /\ probe_one world_answers 0 (as_reference d) = inr (Some entry)
    /\ source_url entry = query_string_url.
Proof.
  eexists. eexists.
  destruct (fallback_sources_are_probed query_string_text _ _ world_answers 0
              eq_refl (or_introl eq_refl) eq_refl)
    as [entry [He [Hu _]]].
  - intros rd. eexists. reflexivity.
  - exists entry. split; [reflexivity|]. split; [left; reflexivity|].
    split; [exact He | exact Hu].
Defined.

End SchemaProbeMore.

(* ================================================================= *)
(** ** Properties of the text clean-ups *)

Section CodeCleaningFacts.
Import PyStr CodeCleaning.

Lemma contains_intro (a sub b : str) : contains (a ++ sub ++ b) sub = true.
Proof.
  unfold contains. destruct (index_of (a ++ sub ++ b) sub) eqn:E; [reflexivity|].
  pose proof (index_of_none_suffix (a ++ sub ++ b) sub a (sub ++ b) E eq_refl) as H.
  rewrite (startswith_app sub b) in H. discriminate.
Qed.

Lemma index_of_some (s sub : str) (i : nat) :
  index_of s sub = Some i ->
  exists l1 l2, s = l1 ++ l2 /\ startswith l2 sub = true.
Proof.
  revert i. induction s as [|x s IH]; intros i H; cbn [index_of] in H.
  - destruct (startswith [] sub) eqn:E; [|discriminate]. exists [], []. auto.
  - destruct (startswith (x :: s) sub) eqn:E.
    + exists [], (x :: s). auto.
    + destruct (index_of s sub) as [j|] eqn:Ej; [|discriminate].
      destruct (IH j eq_refl) as [l1 [l2 [-> Hs]]].
      exists (x :: l1), l2. auto.
Qed.

Lemma startswith_app_r (s b p : str) :
  startswith s p = true -> startswith (s ++ b) p = true.
Proof.
  intros H. apply startswith_split in H as [r ->].
  rewrite <- app_assoc. apply startswith_app.
Qed.

(** A text that does not hold [sub] has no part that holds it. *)
Lemma contains_part (s sub a l b : str) :
  contains s sub = false -> s = a ++ l ++ b -> contains l sub = false.
Proof.
  unfold contains. intros H Hs.
  destruct (index_of s sub) eqn:E; [discriminate|].
  destruct (index_of l sub) as [i|] eqn:El; [|reflexivity].
  destruct (index_of_some l sub i El) as [l1 [l2 [-> Hl2]]].
  assert (Hsplit : s = (a ++ l1) ++ (l2 ++ b))
    by (rewrite Hs, <- !app_assoc; reflexivity).
  pose proof (index_of_none_suffix s sub (a ++ l1) (l2 ++ b) E Hsplit) as H'.
  rewrite (startswith_app_r l2 b sub Hl2) in H'. discriminate.
Qed.

Lemma contains_false_head (s sub : str) :
  contains s sub = false -> startswith s sub = false.
Proof.
  unfold contains. intros H. destruct (index_of s sub) eqn:E; [discriminate|].
  exact (index_of_none_suffix s sub [] s E eq_refl).
Qed.

Lemma replace_aux_skip (old new : str) (k : nat) (s : str) :
  replace_aux old new k s = replace_aux old new 0 (skipn k s).
Proof.
  revert k. induction s as [|x s IH]; intros k.
  - now destruct k.
  - destruct k as [|k]; [reflexivity|]. simpl. apply IH.
Qed.

Lemma startswith_cons (x y : ascii) (t p : str) :
  startswith (x :: t) (y :: p) = chr_eqb y x && startswith t p.
Proof. reflexivity. Qed.

Lemma startswith_fence (x : ascii) (t : str) :
  startswith (x :: t) fence
  = chr_eqb backtick x && startswith t [backtick; backtick].
Proof. reflexivity. Qed.

Lemma unfence_no_match (x : ascii) (t : str) :
  startswith (x :: t) fence = false ->
  replace_aux fence [] 0 (x :: t) = x :: replace_aux fence [] 0 t.
Proof. intros H. cbn [replace_aux]. now rewrite H. Qed.

Lemma unfence_other (x : ascii) (t : str) :
  chr_eqb backtick x = false ->
  replace_aux fence [] 0 (x :: t) = x :: replace_aux fence [] 0 t.
Proof.
  intros H. apply unfence_no_match.
  rewrite startswith_fence. now rewrite H.
Qed.

(** After a backtick that does not open a fence, the text without
    fences does not begin with two backticks. *)
Lemma unfence_two (t : str) :
  startswith t [backtick; backtick] = false ->
  startswith (replace_aux fence [] 0 t) [backtick; backtick] = false.
Proof.
  intros H.
  destruct t as [|y t]; [reflexivity|].
  destruct (chr_eqb backtick y) eqn:Ey.
  - apply chr_eqb_eq in Ey. subst y.
    destruct t as [|z t]; [reflexivity|].
    rewrite !startswith_cons, chr_eqb_refl in H. cbn [andb startswith] in H.
    rewrite andb_true_r in H.
    assert (Hf : startswith (backtick :: z :: t) fence = false)
      by (rewrite startswith_fence, !startswith_cons, H; now rewrite andb_false_r).
    rewrite (unfence_no_match backtick (z :: t) Hf).
    rewrite (unfence_other z t H).
    rewrite !startswith_cons, H. now rewrite andb_false_r.
  - rewrite (unfence_other y t Ey). now rewrite startswith_cons, Ey.
Qed.

Lemma unfence_no_fence_bounded (n : nat) (s : str) :
  length s <= n -> index_of (replace_aux fence [] 0 s) fence = None.
Proof.
  revert s. induction n as [|n IH]; intros s Hlen.
  - destruct s; [reflexivity | simpl in Hlen; lia].
  - destruct s as [|x t]; [reflexivity|].
    cbn [replace_aux].
    destruct (startswith (x :: t) fence) eqn:Ef.
    + cbn [app]. rewrite replace_aux_skip. apply IH.
      rewrite length_skipn. simpl in Hlen. lia.
    + assert (Ht : index_of (replace_aux fence [] 0 t) fence = None)
        by (apply IH; simpl in Hlen; lia).
      cbn [index_of]. rewrite Ht.
      assert (Hh : startswith (x :: replace_aux fence [] 0 t) fence = false).
      { rewrite startswith_fence.
        destruct (chr_eqb backtick x) eqn:Ex; [|reflexivity].
        rewrite startswith_fence, Ex in Ef. simpl in Ef.
        now rewrite (unfence_two t Ef). }
      now rewrite Hh.
Qed.

(** X13. Whatever the gateway returned, the program text written after
    the first synthesis holds no Markdown fence. *)
Theorem strip_fences_leaves_no_fence (raw_code : str) :
  contains (strip_fences raw_code) fence = false.
Proof.
  unfold strip_fences.
  destruct (contains (strip raw_code) fence) eqn:E; [|exact E].
  unfold contains, replace.
  now rewrite (unfence_no_fence_bounded _ _ (le_n _)).
Qed.

Lemma split_chr_nonempty (sep : ascii) (s : str) : split_chr sep s <> [].
Proof.
  destruct s as [|c s]; [discriminate|]. simpl.
  destruct (chr_eqb c sep); [discriminate|].
  destruct (split_chr sep s); discriminate.
Qed.

(** Splitting at a separator and joining with it gives the text back. *)
Lemma join_split_chr (sep : ascii) (s : str) :
  join [sep] (split_chr sep s) = s.
Proof.
  induction s as [|c s IH]; [reflexivity|]. simpl.
  pose proof (split_chr_nonempty sep s) as Hne.
  destruct (chr_eqb c sep) eqn:E.
  - apply chr_eqb_eq in E. subst c.
    destruct (split_chr sep s) as [|l ls]; [contradiction|].
    simpl. now rewrite <- IH.
  - destruct (split_chr sep s) as [|l ls]; [contradiction|].
    simpl in *. destruct ls; simpl in *; now rewrite <- IH.
Qed.

Lemma split_chr_head (sep : ascii) (t l0 : str) (ls : list str) :
  split_chr sep t = l0 :: ls -> exists r, t = l0 ++ r.
Proof.
  revert l0 ls. induction t as [|d t IH]; intros l0 ls H; simpl in H.
  - injection H as <- _. exists []. reflexivity.
  - destruct (chr_eqb d sep).
    + injection H as <- _. exists (d :: t). reflexivity.
    + destruct (split_chr sep t) as [|l1 ls1] eqn:E1.
      * injection H as <- _. exists t. reflexivity.
      * injection H as <- _. destruct (IH l1 ls1 eq_refl) as [r ->].
        exists r. reflexivity.
Qed.

(** Each line of a split is a part of the text. *)
Lemma split_chr_part (sep : ascii) (s l : str) :
  In l (split_chr sep s) -> exists a b, s = a ++ l ++ b.
Proof.
  revert l. induction s as [|c s IH]; intros l H; simpl in H.
  - destruct H as [<-|[]]. exists [], []. reflexivity.
  - destruct (chr_eqb c sep).
    + destruct H as [<-|H].
      * exists [], (c :: s). reflexivity.
      * destruct (IH l H) as [a [b ->]]. exists (c :: a), b. reflexivity.
    + destruct (split_chr sep s) as [|l0 ls] eqn:Es.
      * destruct H as [<-|[]]. exists [], s. reflexivity.
      * destruct H as [<-|H].
        -- destruct (split_chr_head sep s l0 ls Es) as [r ->].
           exists [], r. reflexivity.
        -- destruct (IH l (or_intror H)) as [a [b ->]].
           exists (c :: a), b. reflexivity.
Qed.

Lemma clean_lines_keep (lines : list str) :
  (forall l, In l lines ->
             startswith (strip l) fence = false /\ contains l fence = false) ->
  clean_lines false lines = lines.
Proof.
  induction lines as [|l ls IH]; intros H; [reflexivity|]. cbn [clean_lines].
  destruct (H l (or_introl eq_refl)) as [-> ->]. cbn [negb andb orb].
  f_equal. apply IH. intros l' Hl'. apply H. now right.
Qed.

(** X14. A repair text that holds no fence is kept as it is, up to the
    whitespace at its two ends. *)
Theorem clean_fixed_code_without_fence (fixed_code : str) :
  contains fixed_code fence = false ->
  clean_fixed_code fixed_code = strip fixed_code.
Proof.
  intros H. unfold clean_fixed_code.
  rewrite clean_lines_keep; [now rewrite join_split_chr|].
  intros l Hl. destruct (split_chr_part newline fixed_code l Hl) as [a [b Hs]].
  pose proof (contains_part fixed_code fence a l b H Hs) as Hc.
  split; [|exact Hc].
  destruct (strip_substring l) as [a' [c' Hl']].
  apply contains_false_head. exact (contains_part l fence a' (strip l) c' Hc Hl').
Qed.

Lemma clean_fixed_code_without_fence_witness :
  clean_fixed_code (lit "  import json" ++ [newline] ++ lit "print(json.dumps({}))  ")
  = lit "import json" ++ [newline] ++ lit "print(json.dumps({}))".
Proof.
  rewrite (clean_fixed_code_without_fence
             (lit "  import json" ++ [newline] ++ lit "print(json.dumps({}))  "));
    reflexivity.
Defined.

Lemma strip_quality_from_id (s : str) :
  (forall a b, s = a ++ b -> quality_at b = None) ->
  strip_quality_from 0 s = s.
Proof.
  induction s as [|c s IH]; intros H; [reflexivity|].
  cbn [strip_quality_from]. rewrite (H [] (c :: s) eq_refl).
  f_equal. apply IH. intros a b ->. apply (H (c :: a)). reflexivity.
Qed.

(** X15. A program that never names [savefig] goes through the
    [quality=] clean-up unchanged. *)
Theorem strip_quality_without_savefig (_code : str) :
  contains _code (lit "savefig") = false ->
  strip_quality _code = _code.
Proof.
  intros H. apply strip_quality_from_id. intros a b Hs.
  unfold quality_at.
  assert (Hb : startswith b (lit "savefig") = false).
  { unfold contains in H.
    destruct (index_of _code (lit "savefig")) eqn:E; [discriminate|].
    exact (index_of_none_suffix _code (lit "savefig") a b E Hs). }
  now rewrite Hb.
Qed.

Lemma strip_quality_without_savefig_witness :
  strip_quality (lit "print(quality=3, x)") = lit "print(quality=3, x)".
Proof.
  apply (strip_quality_without_savefig (lit "print(quality=3, x)")). reflexivity.
Defined.

Lemma take_while_split (f : ascii -> bool) (r : str) :
  r = take_while f r ++ skipn (length (take_while f r)) r
  /\ (forall c rest, skipn (length (take_while f r)) r = c :: rest -> f c = false).
Proof.
  induction r as [|x r [IH1 IH2]]; simpl.
  - split; [reflexivity | discriminate].
  - destruct (f x) eqn:E; simpl.
    + split; [now rewrite <- IH1 | exact IH2].
    + split; [reflexivity|]. intros c rest H. injection H as <- _. exact E.
Qed.

Lemma search_module_found (s name : str) :
  search_module s = Some name ->
  exists a t, s = a ++ t /\ module_at t = Some name.
Proof.
  induction s as [|c s IH]; cbn [search_module]; intros H.
  - destruct (module_at []) eqn:E; [|discriminate].
    injection H as ->. exists [], []. auto.
  - destruct (module_at (c :: s)) eqn:E.
    + injection H as ->. exists [], (c :: s). auto.
    + destruct (IH H) as [a [t [-> Ht]]]. exists (c :: a), t. auto.
Qed.

(** X16. The module name read off an error output is not empty, holds
    no quote, and stands in the output between the message and a closing
    quote. *)
Theorem search_module_sound (stderr name : str) :
  search_module stderr = Some name ->
  name <> []
  /\ ~ In "'"%char name
  /\ contains stderr (lit "No module named '" ++ name ++ lit "'") = true.
Proof.
  intros H. destruct (search_module_found stderr name H) as [a [t [-> Ht]]].
  unfold module_at in Ht.
  destruct (startswith t (lit "No module named '")) eqn:Es; [|discriminate].
  set (f := fun c : ascii => negb (chr_eqb c "'"%char)) in *.
  set (r := skipn 17 t) in *.
  destruct (take_while_split f r) as [Hr Hnext].
  destruct (take_while f r) as [|n0 ns] eqn:En; [discriminate|].
  destruct (skipn (length (n0 :: ns)) r) as [|q rest] eqn:Eq; [discriminate|].
  injection Ht as <-.
  split; [discriminate|]. split.
  - intros Hin. rewrite <- En in Hin.
    apply (take_while_sat f r) in Hin. discriminate.
  - assert (Hq : q = "'"%char).
    { pose proof (Hnext q rest eq_refl) as Hf. unfold f in Hf.
      apply negb_false_iff in Hf. now apply chr_eqb_eq in Hf. }
    subst q.
    apply startswith_split in Es as [r' Ht'].
    assert (Hr' : r = r').
    { unfold r. rewrite Ht'. reflexivity. }
    rewrite Ht', <- Hr', Hr.
    replace (a ++ lit "No module named '" ++ (n0 :: ns) ++ "'"%char :: rest)
      with (a ++ (lit "No module named '" ++ (n0 :: ns) ++ lit "'") ++ rest).
    + apply contains_intro.
    + rewrite <- !app_assoc. reflexivity.
Qed.

Lemma search_module_sound_witness :
  search_module (lit "ModuleNotFoundError: No module named 'seaborn'")
  = Some (lit "seaborn")
  /\ contains (lit "ModuleNotFoundError: No module named 'seaborn'")
              (lit "No module named '" ++ lit "seaborn" ++ lit "'") = true.
Proof.
  split; [reflexivity|].
  apply (search_module_sound (lit "ModuleNotFoundError: No module named 'seaborn'")
           (lit "seaborn")).
  reflexivity.
Defined.

End CodeCleaningFacts.

(* ================================================================= *)
(** ** More on the pipeline *)

Section PipelineMore.
Import PyStr Pipeline.

Lemma universal_newlines_bounded (n : nat) (s : str) :
  length s <= n ->
  ~ In cr (universal_newlines s)
  /\ (~ In cr s -> universal_newlines s = s).
Proof.
  revert s. induction n as [|n IH]; intros s Hn.
  { destruct s; [|cbn in Hn; lia]. split; [intros [] | reflexivity]. }
  destruct s as [|c rest]; [split; [intros [] | reflexivity]|].
  cbn [length] in Hn.
  destruct (IH rest ltac:(lia)) as [Hr1 Hr2].
  cbn [universal_newlines].
  destruct (chr_eqb c cr) eqn:Ec.
  - apply chr_eqb_eq in Ec. subst c. split.
    + intros [H|H]; [discriminate|].
      destruct rest as [|d rest']; [exact H|].
      destruct (chr_eqb d CodeCleaning.newline).
      * cbn [length] in Hn.
        now destruct (IH rest' ltac:(lia)) as [Hr3 _].
      * now apply Hr1.
    + intros Hc. exfalso. apply Hc. now left.
  - split.
    + intros [H|H].
      * subst c. unfold chr_eqb in Ec. now rewrite Ascii.eqb_refl in Ec.
      * now apply Hr1.
    + intros Hc. f_equal. apply Hr2. intros H. apply Hc. now right.
Qed.

(** A text read in text mode holds no carriage return. *)
Lemma universal_newlines_no_cr (s : str) : ~ In cr (universal_newlines s).
Proof. now apply (universal_newlines_bounded (length s) s). Qed.

(** A text without a carriage return is read as it is, so that reading
    what was read changes nothing more. *)
Lemma universal_newlines_without_cr (s : str) :
  ~ In cr s -> universal_newlines s = s.
Proof. now apply (universal_newlines_bounded (length s) s). Qed.

Lemma universal_newlines_idempotent (s : str) :
  universal_newlines (universal_newlines s) = universal_newlines s.
Proof. apply universal_newlines_without_cr, universal_newlines_no_cr. Qed.

(** The three kinds of line end, read back. *)
Lemma universal_newlines_example :
  universal_newlines (lit "a" ++ [cr; CodeCleaning.newline] ++ lit "b" ++ [cr]
                      ++ lit "c" ++ [CodeCleaning.newline] ++ lit "d")
  = lit "a" ++ [CodeCleaning.newline] ++ lit "b" ++ [CodeCleaning.newline]
    ++ lit "c" ++ [CodeCleaning.newline] ++ lit "d".
Proof. reflexivity. Qed.

Lemma loop_body_eq (w : World) (n : nat) (st : state) :
  sbind (emit (FixAttempt n)) (fun _ => fix_cycle w n) st
  = fix_cycle w n (mkState (chatgpt_code st) (log st ++ [FixAttempt n])).
Proof. reflexivity. Qed.

Lemma count_app (f : event -> bool) (l1 l2 : list event) :
  count f (l1 ++ l2) = count f l1 + count f l2.
Proof. unfold count. now rewrite filter_app, length_app. Qed.

Lemma count_cons (f : event -> bool) (e : event) (l : list event) :
  count f (e :: l) = (if f e then 1 else 0) + count f l.
Proof. unfold count. cbn [filter]. destruct (f e); reflexivity. Qed.

Lemma count_nil (f : event -> bool) : count f [] = 0.
Proof. reflexivity. Qed.

Ltac count_norm :=
  rewrite ?count_app, ?count_cons, ?count_nil;
  cbn [is_exec is_pip is_sanitize is_fix_request].

Lemma fix_requests_app (l1 l2 : list event) :
  fix_requests (l1 ++ l2) = fix_requests l1 ++ fix_requests l2.
Proof. apply flat_map_app. Qed.

Lemma fix_attempts_app (l1 l2 : list event) :
  fix_attempts (l1 ++ l2) = fix_attempts l1 ++ fix_attempts l2.
Proof. apply flat_map_app. Qed.

(** What one run with self-heal adds to the log. *)
Lemma heal_events_counts (w : World) (s : site) (code : str) :
  count is_exec (heal_events w s code) <= 2
  /\ count is_pip (heal_events w s code) <= 1
  /\ count is_sanitize (heal_events w s code) = 0
  /\ fix_requests (heal_events w s code) = []
  /\ fix_attempts (heal_events w s code) = [].
Proof.
  unfold heal_events.
  destruct (run_python w s false code) as [e|c]; [cbn; repeat split; try reflexivity; lia|].
  destruct (negb (returncode c =? 0)%Z); [|cbn; repeat split; try reflexivity; lia].
  destruct (CodeCleaning.search_module (stderr c)) as [name|]; [|cbn; repeat split; try reflexivity; lia].
  destruct (pip_install w s name); cbn; repeat split; try reflexivity; lia.
Qed.

(** What one repair cycle adds to the log. *)
Lemma fix_cycle_events (w : World) (n : nat) (st : state) :
  exists evs,
    log (snd (fix_cycle w n st)) = log st ++ evs
    /\ count is_exec evs <= 4
    /\ count is_pip evs <= 2
    /\ count is_sanitize evs = 0
    /\ fix_requests evs = [n]
    /\ fix_attempts evs = [].
Proof.
  rewrite fix_cycle_spec. cbv zeta.
  destruct (heal_events_counts w (Context n) (chatgpt_code st))
    as [He [Hp [Hs [Hr Ha]]]].
  assert (Hshort :
            count is_exec (heal_events w (Context n) (chatgpt_code st)
                           ++ [FixRequest n]) <= 4
            /\ count is_pip (heal_events w (Context n) (chatgpt_code st)
                             ++ [FixRequest n]) <= 2
            /\ count is_sanitize (heal_events w (Context n) (chatgpt_code st)
                                  ++ [FixRequest n]) = 0
            /\ fix_requests (heal_events w (Context n) (chatgpt_code st)
                             ++ [FixRequest n]) = [n]
            /\ fix_attempts (heal_events w (Context n) (chatgpt_code st)
                             ++ [FixRequest n]) = []).
  { rewrite !count_app, fix_requests_app, fix_attempts_app, Hr, Ha.
    cbn. repeat split; try reflexivity; lia. }
  destruct (response_text (horizon_fix w n)) as [e|fixed_code]; cbn [snd log].
  - exists (heal_events w (Context n) (chatgpt_code st) ++ [FixRequest n]).
    split; [reflexivity | exact Hshort].
  - destruct (encodable w (Fixed n) (CodeCleaning.clean_fixed_code fixed_code));
      cbn [snd log].
    + set (code' := repaired fixed_code).
      destruct (heal_events_counts w (Fixed n) code')
        as [He' [Hp' [Hs' [Hr' Ha']]]].
      exists ((heal_events w (Context n) (chatgpt_code st) ++ [FixRequest n])
              ++ heal_events w (Fixed n) code').
      rewrite <- !app_assoc.
      rewrite !count_app, !fix_requests_app, !fix_attempts_app, Hr, Ha, Hr', Ha'.
      cbn. repeat split; try reflexivity; lia.
    + exists (heal_events w (Context n) (chatgpt_code st) ++ [FixRequest n]).
      split; [reflexivity | exact Hshort].
Qed.

(** A property kept by every turn of the loop holds when the loop ends,
    for the number of turns made. *)
Lemma repair_loop_invariant (w : World) (I : nat -> state -> Prop) :
  (forall n st, n < max_fix_attempts -> I n st ->
     I (n + 1) (snd (fix_cycle w (n + 1)
                  (mkState (chatgpt_code st) (log st ++ [FixAttempt (n + 1)]))))) ->
  forall fuel fix_attempt st r st',
    fix_attempt <= max_fix_attempts ->
    I fix_attempt st ->
    repair_loop fuel w fix_attempt st = Some (r, st') ->
    exists k, k <= max_fix_attempts /\ I k st'.
Proof.
  intros Hstep fuel.
  induction fuel as [|fuel IH]; intros fa st r st' Hle HI Hrun; [discriminate|].
  cbn [repair_loop] in Hrun.
  destruct (fa <? max_fix_attempts) eqn:Elt.
  - apply Nat.ltb_lt in Elt.
    rewrite loop_body_eq in Hrun.
    pose proof (Hstep fa st Elt HI) as HI'.
    destruct (fix_cycle w (fa + 1) _) as [[e|[v|]] st1] eqn:E;
      cbn [snd] in HI'.
    + injection Hrun as _ <-. exists (fa + 1). split; [lia | exact HI'].
    + injection Hrun as _ <-. exists (fa + 1). split; [lia | exact HI'].
    + apply (IH (fa + 1) st1 r st'); [lia | exact HI' | exact Hrun].
  - injection Hrun as _ <-. exists fa. split; [exact Hle | exact HI].
Qed.

(** The loop never raises, and an answer it returns is the answer of
    one of its cycles. *)
Lemma repair_loop_result (w : World) (fuel fix_attempt : nat) (st : state)
    (r : M value) (st' : state) :
  repair_loop fuel w fix_attempt st = Some (r, st') ->
  (exists output_data n st0,
      r = inr (Answer output_data)
      /\ 1 <= n <= max_fix_attempts
      /\ fst (fix_cycle w n st0) = inr (Some output_data))
  \/ r = inr (ErrorObject exhausted_message (elapsed w)).
Proof.
  revert fix_attempt st.
  induction fuel as [|fuel IH]; intros fa st Hrun; [discriminate|].
  cbn [repair_loop] in Hrun.
  destruct (fa <? max_fix_attempts) eqn:Elt.
  - apply Nat.ltb_lt in Elt.
    rewrite loop_body_eq in Hrun.
    destruct (fix_cycle w (fa + 1) _) as [[e|[v|]] st1] eqn:E.
    + exfalso. rewrite fix_cycle_spec in E. cbv zeta in E.
      destruct (response_text (horizon_fix w (fa + 1))); [discriminate|].
      destruct (encodable w (Fixed (fa + 1)) _); discriminate.
    + injection Hrun as <- _. left.
      eexists v, (fa + 1), _. rewrite E. repeat split; lia.
    + apply (IH (fa + 1) st1 Hrun).
  - injection Hrun as <- _. right. reflexivity.
Qed.

(** An answer of a check is the parse of the output of a run that ended
    with status zero. *)
Lemma checked_some (w : World) (r : M completed) (output_data : json) :
  checked w r = Some output_data ->
  exists c,
    r = inr c
    /\ returncode c = 0%Z
    /\ OutputValidator.is_valid_json_output
         (OutputValidator.extract_json_from_output (strip (stdout c))) = true
    /\ json_loads w
         (OutputValidator.extract_json_from_output (strip (stdout c)))
       = inr output_data.
Proof.
  unfold checked, bind. destruct r as [e|c]; [discriminate|].
  unfold parse_result.
  destruct (returncode c =? 0)%Z eqn:Erc; [|discriminate].
  destruct (OutputValidator.is_valid_json_output _) eqn:Ev; [|discriminate].
  unfold try_except, bind, ret, raise.
  destruct (json_loads w _) as [e|v] eqn:Ej.
  - destruct e; discriminate.
  - intros [= <-]. exists c. repeat split; auto. now apply Z.eqb_eq.
Qed.

(** The result of a run with self-heal is the result of the first run
    or of the re-run. *)
Lemma heal_result_from (w : World) (s : site) (code : str) (c : completed) :
  heal_result w s code = inr c ->
  exists rerun, run_python w s rerun code = inr c.
Proof.
  unfold heal_result.
  destruct (run_python w s false code) as [e|c1] eqn:E1; [discriminate|].
  destruct (negb (returncode c1 =? 0)%Z);
    [|intros [= <-]; now exists false].
  destruct (CodeCleaning.search_module (stderr c1));
    [|intros [= <-]; now exists false].
  destruct (pip_install w s _); [intros [= <-]; now exists false|].
  destruct (run_python w s true code) as [e|c2] eqn:E2;
    intros [= <-]; [now exists false | now exists true].
Qed.

(** X17. An install is made only after a first run that returned a
    non-zero status with the missing-module message in its error
    output, and it installs the module that message names. *)
Theorem self_heal_installs_only_named_module
    (w : World) (s : site) (st : state) (s' : site) (module : str) :
  In (Pip s' module) (log (snd (run_with_self_heal w s st))) ->
  In (Pip s' module) (log st)
  \/ (s' = s
      /\ exists c,
           run_python w s false (chatgpt_code st) = inr c
           /\ returncode c <> 0%Z
           /\ CodeCleaning.search_module (stderr c) = Some module).
Proof.
  rewrite run_with_self_heal_spec. cbn [snd log].
  intros H. apply in_app_or in H. destruct H as [H|H]; [now left|]. right.
  unfold heal_events in H.
  destruct (run_python w s false (chatgpt_code st)) as [e|c] eqn:E1.
  { destruct H as [H|[]]; discriminate. }
  destruct (negb (returncode c =? 0)%Z) eqn:Erc.
  2:{ destruct H as [H|[]]; discriminate. }
  destruct (CodeCleaning.search_module (stderr c)) as [name|] eqn:Em.
  2:{ destruct H as [H|[]]; discriminate. }
  assert (Hp : Pip s name = Pip s' module).
  { destruct (pip_install w s name).
    - destruct H as [H|[H|[]]]; [discriminate | exact H].
    - destruct H as [H|[H|[H|[]]]]; [discriminate | exact H | discriminate]. }
  injection Hp as -> ->. split; [reflexivity|].
  exists c. repeat split; auto.
  apply negb_true_iff, Z.eqb_neq in Erc. exact Erc.
Qed.

Lemma self_heal_installs_only_named_module_witness :
  In (Pip Initial (lit "pandas")) (log initial_state)
  \/ (Initial = Initial
      /\ exists c,
           run_python world_heals Initial false (chatgpt_code initial_state) = inr c
           /\ returncode c <> 0%Z
           /\ CodeCleaning.search_module (stderr c) = Some (lit "pandas")).
Proof.
  apply (self_heal_installs_only_named_module world_heals Initial initial_state
           Initial (lit "pandas")).
  right. left. reflexivity.
Defined.

(** X18. A run with self-heal raises exactly when its first run does,
    with the same exception.  When the first run returns, the call
    returns the first result or the result of the re-run, and failures
    of the install and of the re-run are not seen by the caller.  The
    program file is never changed. *)
Theorem self_heal_raises_only_on_first_run
    (w : World) (s : site) (st : state) :
  chatgpt_code (snd (run_with_self_heal w s st)) = chatgpt_code st
  /\ (forall e, run_python w s false (chatgpt_code st) = inl e ->
                fst (run_with_self_heal w s st) = inl e)
  /\ (forall c, run_python w s false (chatgpt_code st) = inr c ->
        fst (run_with_self_heal w s st) = inr c
        \/ exists c2, run_python w s true (chatgpt_code st) = inr c2
                      /\ returncode c <> 0%Z
                      /\ fst (run_with_self_heal w s st) = inr c2).
Proof.
  rewrite run_with_self_heal_spec. cbn [fst snd chatgpt_code].
  split; [reflexivity|]. unfold heal_result. split.
  - intros e ->. reflexivity.
  - intros c ->.
    destruct (negb (returncode c =? 0)%Z) eqn:Erc; [|now left].
    destruct (CodeCleaning.search_module (stderr c)); [|now left].
    destruct (pip_install w s _); [now left|].
    destruct (run_python w s true (chatgpt_code st)) as [e|c2]; [now left|].
    right. exists c2. repeat split.
    apply negb_true_iff, Z.eqb_neq in Erc. exact Erc.
Qed.

Lemma self_heal_raises_only_on_first_run_witness :
  chatgpt_code (snd (run_with_self_heal world_heals Initial initial_state))
  = chatgpt_code initial_state
  /\ (forall e, run_python world_heals Initial false (chatgpt_code initial_state)
                = inl e ->
                fst (run_with_self_heal world_heals Initial initial_state) = inl e)
  /\ (forall c, run_python world_heals Initial false (chatgpt_code initial_state)
                = inr c ->
        fst (run_with_self_heal world_heals Initial initial_state) = inr c
        \/ exists c2, run_python world_heals Initial true
                        (chatgpt_code initial_state) = inr c2
                      /\ returncode c <> 0%Z
                      /\ fst (run_with_self_heal world_heals Initial initial_state)
                         = inr c2).
Proof. exact (self_heal_raises_only_on_first_run world_heals Initial initial_state). Defined.

(** X19. One request runs the program at most fourteen times, tries
    at most seven installs and makes at most one sanitising pass. *)
Theorem request_work_is_bounded
    (fuel : nat) (w : World) (allowed_paths : list str)
    (r : M value) (st : state) :
  aianalyst fuel w allowed_paths = Some (r, st) ->
  count is_exec (log st) <= 14
  /\ count is_pip (log st) <= 7
  /\ count is_sanitize (log st) <= 1.
Proof.
  unfold aianalyst. rewrite synthesize_spec.
  destruct (response_text (horizon_response w)) as [e|raw_code].
  { intros [= _ <-]. cbn. lia. }
  destruct (encodable w Initial (CodeCleaning.strip_fences raw_code)).
  2:{ intros [= _ <-]. cbn. lia. }
  rewrite initial_attempt_spec. cbn [chatgpt_code log initial_state app].
  set (code := synthesized allowed_paths raw_code).
  destruct (heal_events_counts w Initial code) as [He [Hp [Hs _]]].
  set (st1 := mkState code (Sanitize :: heal_events w Initial code)).
  assert (H1 : count is_exec (log st1) <= 2 + 0 * 4
               /\ count is_pip (log st1) <= 1 + 0 * 2
               /\ count is_sanitize (log st1) <= 1).
  { unfold st1. cbn [log].
    change (Sanitize :: heal_events w Initial code)
      with ([Sanitize] ++ heal_events w Initial code).
    count_norm. lia. }
  assert (Hloop : forall r st,
             repair_loop fuel w 0 st1 = Some (r, st) ->
             count is_exec (log st) <= 14
             /\ count is_pip (log st) <= 7
             /\ count is_sanitize (log st) <= 1).
  { intros r0 st0 Hrun.
    destruct (repair_loop_invariant w
                (fun n st => count is_exec (log st) <= 2 + n * 4
                             /\ count is_pip (log st) <= 1 + n * 2
                             /\ count is_sanitize (log st) <= 1))
      with (fuel := fuel) (fix_attempt := 0) (st := st1) (r := r0) (st' := st0)
      as [k [Hk [Ke [Kp Ks]]]].
    - intros n st2 _ [Ie [Ip Is]].
      destruct (fix_cycle_events w (n + 1)
                  (mkState (chatgpt_code st2) (log st2 ++ [FixAttempt (n + 1)])))
        as [evs [-> [Ce [Cp [Cs _]]]]].
      cbn [log]. count_norm. lia.
    - unfold max_fix_attempts. lia.
    - exact H1.
    - exact Hrun.
    - unfold max_fix_attempts in Hk. lia. }
  destruct (checked w (heal_result w Initial code)) as [v|].
  - intros [= _ <-]. lia.
  - apply Hloop.
Qed.

Lemma request_work_is_bounded_witness :
  count is_exec [Sanitize; Exec Initial false; Pip Initial (lit "pandas");
                 Exec Initial true] <= 14
  /\ count is_pip [Sanitize; Exec Initial false; Pip Initial (lit "pandas");
                   Exec Initial true] <= 7
  /\ count is_sanitize [Sanitize; Exec Initial false; Pip Initial (lit "pandas");
                        Exec Initial true] <= 1.
Proof.
  apply (request_work_is_bounded 4 world_heals [] (inr (Answer (JObject [])))
           (mkState (lit "print(1)")
              [Sanitize; Exec Initial false; Pip Initial (lit "pandas");
               Exec Initial true])).
  reflexivity.
Defined.

(** X20. Every counted repair attempt makes exactly one call of
    [ping_horizon] for a repair, under the same number, whatever the
    run for the error context did. *)
Theorem every_attempt_sends_one_fix_request
    (fuel : nat) (w : World) (allowed_paths : list str)
    (r : M value) (st : state) :
  aianalyst fuel w allowed_paths = Some (r, st) ->
  fix_requests (log st) = fix_attempts (log st).
Proof.
  unfold aianalyst. rewrite synthesize_spec.
  destruct (response_text (horizon_response w)) as [e|raw_code].
  { intros [= _ <-]. reflexivity. }
  destruct (encodable w Initial (CodeCleaning.strip_fences raw_code)).
  2:{ intros [= _ <-]. reflexivity. }
  rewrite initial_attempt_spec. cbn [chatgpt_code log initial_state app].
  set (code := synthesized allowed_paths raw_code).
  destruct (heal_events_counts w Initial code) as [_ [_ [_ [Hr Ha]]]].
  set (st1 := mkState code (Sanitize :: heal_events w Initial code)).
  assert (H1 : fix_requests (log st1) = fix_attempts (log st1)).
  { unfold st1. cbn [log].
    change (Sanitize :: heal_events w Initial code)
      with ([Sanitize] ++ heal_events w Initial code).
    rewrite fix_requests_app, fix_attempts_app, Hr, Ha. reflexivity. }
  destruct (checked w (heal_result w Initial code)) as [v|].
  - intros [= _ <-]. exact H1.
  - intros Hrun.
    destruct (repair_loop_invariant w
                (fun _ st => fix_requests (log st) = fix_attempts (log st)))
      with (fuel := fuel) (fix_attempt := 0) (st := st1) (r := r) (st' := st)
      as [k [_ Hk]].
    + intros n st2 _ I2.
      destruct (fix_cycle_events w (n + 1)
                  (mkState (chatgpt_code st2) (log st2 ++ [FixAttempt (n + 1)])))
        as [evs [-> [_ [_ [_ [Cr Ca]]]]]].
      cbn [log].
      rewrite !fix_requests_app, !fix_attempts_app, Cr, Ca, I2.
      change (fix_requests [FixAttempt (n + 1)]) with (@nil nat).
      change (fix_attempts [FixAttempt (n + 1)]) with [n + 1].
      now rewrite !app_nil_r.
    + unfold max_fix_attempts. lia.
    + exact H1.
    + exact Hrun.
    + exact Hk.
Qed.

Lemma every_attempt_sends_one_fix_request_witness :
  fix_requests
    [Sanitize; Exec Initial false; FixAttempt 1; Exec (Context 1) false;
     FixRequest 1; Exec (Fixed 1) false]
  = fix_attempts
      [Sanitize; Exec Initial false; FixAttempt 1; Exec (Context 1) false;
       FixRequest 1; Exec (Fixed 1) false].
Proof.
  apply (every_attempt_sends_one_fix_request 4 world_repair []
           (inr (Answer (JObject [])))
           (mkState (lit "df = pd.read_csv('secret.csv')")
              [Sanitize; Exec Initial false; FixAttempt 1; Exec (Context 1) false;
               FixRequest 1; Exec (Fixed 1) false])).
  reflexivity.
Defined.

(** X21. A repair whose response has a text that can be written
    leaves in the program file that text after the fence cleaning, the
    reading back in text mode, which turns every carriage return with
    its line feed and every lone carriage return into one line feed,
    and the [quality=] clean-up, and nothing more: the sanitising pass
    is not made on it, with any list of allowed paths. *)
Theorem repair_writes_unsanitized_text
    (w : World) (n : nat) (st : state) (fixed_code : str) :
  response_text (horizon_fix w n) = inr fixed_code ->
  encodable w (Fixed n) (CodeCleaning.clean_fixed_code fixed_code) = true ->
  chatgpt_code (snd (fix_cycle w n st))
  = CodeCleaning.strip_quality
      (universal_newlines (CodeCleaning.clean_fixed_code fixed_code))
  /\ count is_sanitize (log (snd (fix_cycle w n st)))
     = count is_sanitize (log st).
Proof.
  intros H He.
  destruct (fix_cycle_events w n st) as [evs [Hl [_ [_ [Hs _]]]]].
  rewrite Hl, count_app, Hs.
  rewrite fix_cycle_spec, H, He. cbn [snd chatgpt_code].
  split; [reflexivity | lia].
Qed.

Lemma repair_writes_unsanitized_text_witness :
  chatgpt_code (snd (fix_cycle world_repair_crlf 1
                       (mkState (lit "print(1)") [Sanitize])))
  = lit "import sys" ++ [CodeCleaning.newline]
    ++ lit "x = 1" ++ [CodeCleaning.newline]
    ++ lit "print(x)" ++ [CodeCleaning.newline]
    ++ lit "sys.exit(0)"
  /\ count is_sanitize
       (log (snd (fix_cycle world_repair_crlf 1
                    (mkState (lit "print(1)") [Sanitize]))))
     = 1.
Proof.
  apply (repair_writes_unsanitized_text world_repair_crlf 1
           (mkState (lit "print(1)") [Sanitize])
           (lit "import sys" ++ [cr; CodeCleaning.newline]
            ++ lit "x = 1" ++ [cr]
            ++ lit "print(x)" ++ [CodeCleaning.newline]
            ++ lit "sys.exit(0)")); reflexivity.
Defined.

(** A repair text that cannot be written ends the cycle after the
    request: the exception of the write is caught, the cycle gives no
    answer, the program file is left empty and nothing is run on it. *)
Lemma unwritable_repair_ends_cycle
    (w : World) (n : nat) (st : state) (fixed_code : str) :
  response_text (horizon_fix w n) = inr fixed_code ->
  encodable w (Fixed n) (CodeCleaning.clean_fixed_code fixed_code) = false ->
  fix_cycle w n st
  = (inr None,
     mkState [] (log st ++ heal_events w (Context n) (chatgpt_code st)
                 ++ [FixRequest n])).
Proof. intros H He. now rewrite fix_cycle_spec, H, He. Qed.

(** A repair whose response has neither shape, or whose text
    cannot be taken out, ends at the request: the cycle gives no
    answer, the program file keeps its text and nothing is run after
    the request. *)
Lemma failed_fix_request_ends_cycle
    (w : World) (n : nat) (st : state) (e : exn) :
  response_text (horizon_fix w n) = inl e ->
  fst (fix_cycle w n st) = inr None
  /\ chatgpt_code (snd (fix_cycle w n st)) = chatgpt_code st
  /\ exists evs,
       log (snd (fix_cycle w n st)) = log st ++ evs ++ [FixRequest n]
       /\ forall rerun, ~ In (Exec (Fixed n) rerun) evs.
Proof.
  intros H. rewrite fix_cycle_spec, H. cbn [fst snd chatgpt_code log].
  repeat split.
  exists (heal_events w (Context n) (chatgpt_code st)). split; [reflexivity|].
  intros rerun. unfold heal_events.
  destruct (run_python w (Context n) false (chatgpt_code st)) as [e1|c].
  { intros [Hx|[]]; discriminate. }
  destruct (negb (returncode c =? 0)%Z).
  2:{ intros [Hx|[]]; discriminate. }
  destruct (CodeCleaning.search_module (stderr c)) as [name|].
  2:{ intros [Hx|[]]; discriminate. }
  destruct (pip_install w (Context n) name).
  - intros [Hx|[Hx|[]]]; discriminate.
  - intros [Hx|[Hx|[Hx|[]]]]; discriminate.
Qed.

Lemma failed_fix_request_ends_cycle_witness :
  fst (fix_cycle world_heals 1 initial_state) = inr None
  /\ chatgpt_code (snd (fix_cycle world_heals 1 initial_state))
     = chatgpt_code initial_state
  /\ exists evs,
       log (snd (fix_cycle world_heals 1 initial_state))
       = log initial_state ++ evs ++ [FixRequest 1]
       /\ forall rerun, ~ In (Exec (Fixed 1) rerun) evs.
Proof.
  apply (failed_fix_request_ends_cycle world_heals 1 initial_state ValueError).
  reflexivity.
Defined.

(** The program file at the end of a request whose synthesis
    response had a text that could be written holds the synthesised
    program, or the cleaned, unsanitised text of one of the three
    repair responses, or nothing, after a repair text that could not
    be written. *)
Lemma final_program_is_first_or_repair
    (fuel : nat) (w : World) (allowed_paths : list str)
    (r : M value) (st : state) (raw_code : str) :
  response_text (horizon_response w) = inr raw_code ->
  encodable w Initial (CodeCleaning.strip_fences raw_code) = true ->
  aianalyst fuel w allowed_paths = Some (r, st) ->
  chatgpt_code st = synthesized allowed_paths raw_code
  \/ exists n fixed_code,
       1 <= n <= max_fix_attempts
       /\ response_text (horizon_fix w n) = inr fixed_code
       /\ (chatgpt_code st = repaired fixed_code
           \/ (encodable w (Fixed n) (CodeCleaning.clean_fixed_code fixed_code)
               = false
               /\ chatgpt_code st = [])).
Proof.
  intros Hraw Henc. unfold aianalyst. rewrite synthesize_spec, Hraw, Henc.
  rewrite initial_attempt_spec. cbn [chatgpt_code log initial_state app].
  set (code := synthesized allowed_paths raw_code).
  set (st1 := mkState code (Sanitize :: heal_events w Initial code)).
  destruct (checked w (heal_result w Initial code)) as [v|].
  { intros [= _ <-]. now left. }
  intros Hrun.
  destruct (repair_loop_invariant w
              (fun k st =>
                 chatgpt_code st = code
                 \/ exists n fixed_code,
                      1 <= n <= k
                      /\ response_text (horizon_fix w n) = inr fixed_code
                      /\ (chatgpt_code st = repaired fixed_code
                          \/ (encodable w (Fixed n)
                                (CodeCleaning.clean_fixed_code fixed_code) = false
                              /\ chatgpt_code st = []))))
    with (fuel := fuel) (fix_attempt := 0) (st := st1) (r := r) (st' := st)
    as [k [Hk [HI|[n [t [Hn [Hr Hc]]]]]]].
  - intros n st2 _ I2. rewrite fix_cycle_spec. cbv zeta.
    destruct (response_text (horizon_fix w (n + 1))) as [e|t] eqn:Er;
      cbn [snd chatgpt_code].
    + destruct I2 as [I2|[m [t [Hm [Hr Hc]]]]]; [now left|].
      right. exists m, t. repeat split; auto; lia.
    + destruct (encodable w (Fixed (n + 1)) (CodeCleaning.clean_fixed_code t))
        eqn:Ee; cbn [snd chatgpt_code].
      * right. exists (n + 1), t. repeat split; auto; lia.
      * right. exists (n + 1), t. repeat split; auto; lia.
  - unfold max_fix_attempts. lia.
  - now left.
  - exact Hrun.
  - now left.
  - right. exists n, t. repeat split; auto; lia.
Qed.

Lemma final_program_is_first_or_repair_witness :
  lit "df = pd.read_csv('secret.csv')" = synthesized [] (lit "print(1)")
  \/ exists n fixed_code,
       1 <= n <= max_fix_attempts
       /\ response_text (horizon_fix world_repair n) = inr fixed_code
       /\ (lit "df = pd.read_csv('secret.csv')" = repaired fixed_code
           \/ (encodable world_repair (Fixed n)
                 (CodeCleaning.clean_fixed_code fixed_code) = false
               /\ lit "df = pd.read_csv('secret.csv')" = [])).
Proof.
  apply (final_program_is_first_or_repair 4 world_repair []
           (inr (Answer (JObject [])))
           (mkState (lit "df = pd.read_csv('secret.csv')")
              [Sanitize; Exec Initial false; FixAttempt 1; Exec (Context 1) false;
               FixRequest 1; Exec (Fixed 1) false])
           (lit "print(1)")); reflexivity.
Defined.

(** X22. An answer returned by a request is the parse of what a run of
    the program printed: a first run or a re-run, after the synthesis
    or after one of the repairs 1 to 3 and never a run made for the
    error context, which ended with status zero and whose extracted
    output has the shape of a JSON value. *)
Theorem answer_comes_from_a_checked_run
    (fuel : nat) (w : World) (allowed_paths : list str)
    (output_data : json) (st : state) :
  aianalyst fuel w allowed_paths = Some (inr (Answer output_data), st) ->
  exists s rerun code c,
    decides s = true
    /\ run_python w s rerun code = inr c
    /\ returncode c = 0%Z
    /\ OutputValidator.is_valid_json_output
         (OutputValidator.extract_json_from_output (strip (stdout c))) = true
    /\ json_loads w
         (OutputValidator.extract_json_from_output (strip (stdout c)))
       = inr output_data.
Proof.
  unfold aianalyst. rewrite synthesize_spec.
  destruct (response_text (horizon_response w)) as [e|raw_code]; [discriminate|].
  destruct (encodable w Initial (CodeCleaning.strip_fences raw_code));
    [|discriminate].
  rewrite initial_attempt_spec. cbn [chatgpt_code log initial_state app].
  set (code := synthesized allowed_paths raw_code).
  destruct (checked w (heal_result w Initial code)) as [v|] eqn:Ec.
  - intros [= <- _].
    destruct (checked_some w _ v Ec) as [c [Hc [Hrc [Hv Hj]]]].
    destruct (heal_result_from w Initial code c Hc) as [rerun Hrun].
    exists Initial, rerun, code, c. repeat split; auto.
  - intros Hrun.
    destruct (repair_loop_result w fuel 0 _ _ _ Hrun)
      as [[v [n [st0 [Hr [Hn Hf]]]]]|Hr]; [|discriminate].
    injection Hr as <-.
    rewrite fix_cycle_spec in Hf. cbv zeta in Hf.
    destruct (response_text (horizon_fix w n)) as [e|t]; [discriminate|].
    destruct (encodable w (Fixed n) (CodeCleaning.clean_fixed_code t));
      [|discriminate].
    cbn [fst] in Hf. injection Hf as Hf.
    destruct (checked_some w _ output_data Hf) as [c [Hc [Hrc [Hv Hj]]]].
    destruct (heal_result_from w (Fixed n) _ c Hc) as [rerun Hrun'].
    exists (Fixed n), rerun, (repaired t), c.
    repeat split; auto.
    unfold decides. apply andb_true_iff.
    split; [apply Nat.leb_le | apply Nat.leb_le]; lia.
Qed.

Lemma answer_comes_from_a_checked_run_witness :
  exists s rerun code c,
    decides s = true
    /\ run_python world_heals s rerun code = inr c
    /\ returncode c = 0%Z
    /\ OutputValidator.is_valid_json_output
         (OutputValidator.extract_json_from_output (strip (stdout c))) = true
    /\ json_loads world_heals
         (OutputValidator.extract_json_from_output (strip (stdout c)))
       = inr (JObject []).
Proof.
  apply (answer_comes_from_a_checked_run 4 world_heals [] (JObject [])
           (mkState (lit "print(1)")
              [Sanitize; Exec Initial false; Pip Initial (lit "pandas");
               Exec Initial true])).
  reflexivity.
Defined.

(** X23. When the text of the first synthesis response can be written
    and the first run of the program file, as the synthesis left it
    (fences removed, read back in text mode, [quality=] clean-up,
    sanitising pass written only when it met a disallowed path), ends
    with status zero and prints a JSON value that parses, the request
    returns that value after one sanitising pass and one run: no
    install, no repair attempt and no repair request are made. *)
Theorem first_run_success_needs_no_repair
    (fuel : nat) (w : World) (allowed_paths : list str)
    (raw_code : str) (c : completed) (output_data : json) :
  response_text (horizon_response w) = inr raw_code ->
  encodable w Initial (CodeCleaning.strip_fences raw_code) = true ->
  run_python w Initial false (synthesized allowed_paths raw_code) = inr c ->
  returncode c = 0%Z ->
  OutputValidator.is_valid_json_output
    (OutputValidator.extract_json_from_output (strip (stdout c))) = true ->
  json_loads w (OutputValidator.extract_json_from_output (strip (stdout c)))
  = inr output_data ->
  aianalyst fuel w allowed_paths
  = Some (inr (Answer output_data),
          mkState (synthesized allowed_paths raw_code)
                  [Sanitize; Exec Initial false])
  /\ fst (synthesize w allowed_paths initial_state) = inr tt
  /\ chatgpt_code (snd (synthesize w allowed_paths initial_state))
     = synthesized allowed_paths raw_code.
Proof.
  intros Hraw Henc Hrun Hrc Hv Hj.
  unfold aianalyst. rewrite synthesize_spec, Hraw, Henc, initial_attempt_spec.
  cbn [chatgpt_code log initial_state app fst snd].
  unfold heal_result, heal_events. rewrite Hrun, Hrc. cbn [Z.eqb negb].
  unfold checked, bind, parse_result. rewrite Hrc. cbn [Z.eqb].
  rewrite Hv. unfold try_except, bind, ret. rewrite Hj.
  repeat split.
Qed.

Lemma first_run_success_needs_no_repair_witness :
  aianalyst 0 world_first_run_ok []
  = Some (inr (Answer (JObject [])),
          mkState (synthesized [] (lit "print(1)"))
                  [Sanitize; Exec Initial false])
  /\ fst (synthesize world_first_run_ok [] initial_state) = inr tt
  /\ chatgpt_code (snd (synthesize world_first_run_ok [] initial_state))
     = synthesized [] (lit "print(1)").
Proof.
  apply (first_run_success_needs_no_repair 0 world_first_run_ok []
           (lit "print(1)") (mkCompleted 0 (lit "loading... {}") [])
           (JObject [])); reflexivity.
Defined.

(** X24. An exception leaves a request in two ways only, both before
    anything is sanitised or run: the exception met on the way to the
    text of the first synthesis response, with the program file not
    touched, and the encoding error of the first write of the program
    file, which is outside every handler and leaves the file empty.
    Every later exception is caught. *)
Theorem only_synthesis_errors_escape
    (fuel : nat) (w : World) (allowed_paths : list str) (e : exn) (st : state) :
  aianalyst fuel w allowed_paths = Some (inl e, st) ->
  (response_text (horizon_response w) = inl e /\ st = initial_state)
  \/ (exists raw_code,
        response_text (horizon_response w) = inr raw_code
        /\ encodable w Initial (CodeCleaning.strip_fences raw_code) = false
        /\ e = UnicodeEncodeError
        /\ chatgpt_code st = [] /\ log st = []).
Proof.
  unfold aianalyst. rewrite synthesize_spec.
  destruct (response_text (horizon_response w)) as [e0|raw_code].
  { intros [= -> <-]. left. split; reflexivity. }
  destruct (encodable w Initial (CodeCleaning.strip_fences raw_code)) eqn:Ee.
  2:{ intros [= <- <-]. right. exists raw_code. repeat split. exact Ee. }
  rewrite initial_attempt_spec.
  destruct (checked w _) as [v|]; [discriminate|].
  intros Hrun.
  destruct (repair_loop_result w fuel 0 _ _ _ Hrun)
    as [[v [n [st0 [Hr _]]]]|Hr]; discriminate.
Qed.

Lemma only_synthesis_errors_escape_witness :
  (response_text (horizon_response world_surrogate) = inl UnicodeEncodeError
   /\ mkState [] [] = initial_state)
  \/ (exists raw_code,
        response_text (horizon_response world_surrogate) = inr raw_code
        /\ encodable world_surrogate Initial (CodeCleaning.strip_fences raw_code)
           = false
        /\ UnicodeEncodeError = UnicodeEncodeError
        /\ chatgpt_code (mkState [] []) = [] /\ log (mkState [] []) = []).
Proof.
  apply (only_synthesis_errors_escape 4 world_surrogate [] UnicodeEncodeError
           (mkState [] [])).
  reflexivity.
Defined.

End PipelineMore.

(* ================================================================= *)
(** ** The gateway *)

Section GatewayFacts.
Import PyStr Gateway.

(** The loop from counter value [tries]: with enough fuel it returns
    after the passes [tries], [tries + 1], ..., the body of the first
    that does not raise, or what follows the loop when the counter
    reaches [max_tries]. *)
Lemma ping_loop_spec {A : Type} (pass : nat -> M A) (after : reply A)
    (max_tries : Z) (fuel tries : nat) (posts : list nat) :
  Z.to_nat max_tries - tries < fuel ->
  exists k,
    tries <= k
    /\ (forall j, tries <= j < k -> exists e, pass j = inl e)
    /\ ((exists body,
           (Z.of_nat k < max_tries)%Z
           /\ pass k = inr body
           /\ ping_loop fuel pass after max_tries tries posts
              = Some (Body body, posts ++ seq tries (S k - tries)))
        \/ (k = Nat.max tries (Z.to_nat max_tries)
            /\ ping_loop fuel pass after max_tries tries posts
               = Some (after, posts ++ seq tries (k - tries)))).
Proof.
  revert tries posts.
  induction fuel as [|fuel IH]; intros tries posts Hfuel; [lia|].
  cbn [ping_loop].
  destruct (Z.of_nat tries <? max_tries)%Z eqn:Elt.
  - apply Z.ltb_lt in Elt.
    destruct (pass tries) as [e|body] eqn:Ep.
    + destruct (IH (tries + 1) (posts ++ [tries])) as [k [Hk [Hall Hres]]];
        [lia|].
      exists k. split; [lia|]. split.
      * intros j Hj. destruct (Nat.eq_dec j tries) as [->|Hne];
          [now exists e | apply Hall; lia].
      * destruct Hres as [[body [Hlt [Hp Hr]]]|[Hkm Hr]].
        -- left. exists body. repeat split; auto. rewrite Hr, <- app_assoc.
           replace (S k - tries) with (S (S k - (tries + 1))) by lia.
           cbn [seq app]. now replace (tries + 1) with (S tries) by lia.
        -- right. split; [lia|]. rewrite Hr, <- app_assoc.
           replace (k - tries) with (S (k - (tries + 1))) by lia.
           cbn [seq app]. now replace (tries + 1) with (S tries) by lia.
    + exists tries. split; [lia|]. split; [intros j Hj; lia|].
      left. exists body. repeat split; auto.
      now replace (S tries - tries) with 1 by lia.
  - apply Z.ltb_ge in Elt.
    exists tries. split; [lia|]. split; [intros j Hj; lia|].
    right. split; [lia|].
    replace (tries - tries) with 0 by lia. cbn [seq]. now rewrite app_nil_r.
Qed.

(** X25. With fuel above [max_tries], [ping_horizon] (and [ping_gemini],
    which is the same loop) returns: the decoded body of the first pass
    on which neither the post, the status check nor the decoding
    raises, after one post per pass up to it and none after; or, when
    all [max_tries] passes raise, the error dictionary, after exactly
    [max_tries] posts. *)
Theorem ping_horizon_returns_first_success {A : Type}
    (fuel : nat) (post : nat -> M (http_response A)) (max_tries : Z) :
  Z.to_nat max_tries < fuel ->
  exists k,
    all_raise (checked_pass post) k
    /\ ((exists body,
           (Z.of_nat k < max_tries)%Z
           /\ checked_pass post k = inr body
           /\ ping_horizon fuel post max_tries = Some (Body body, seq 0 (S k)))
        \/ (k = Z.to_nat max_tries
            /\ ping_horizon fuel post max_tries
               = Some (ErrorDict gemini_failed, seq 0 k))).
Proof.
  intros Hfuel. unfold ping_horizon.
  destruct (ping_loop_spec (checked_pass post) (ErrorDict gemini_failed)
              max_tries fuel 0 []) as [k [_ [Hall Hres]]]; [lia|].
  exists k. split.
  - intros j Hj. apply Hall. lia.
  - destruct Hres as [[body [Hlt [Hp Hr]]]|[Hk Hr]].
    + left. exists body. split; [exact Hlt|]. split; [exact Hp|].
      rewrite Hr. reflexivity.
    + right. split; [lia|]. rewrite Hr. now rewrite Nat.sub_0_r.
Qed.

Lemma ping_horizon_returns_first_success_witness :
  exists k,
    all_raise (checked_pass post_third_time) k
    /\ ((exists body,
           (Z.of_nat k < 3)%Z
           /\ checked_pass post_third_time k = inr body
           /\ ping_horizon 4 post_third_time 3 = Some (Body body, seq 0 (S k)))
        \/ (k = Z.to_nat 3
            /\ ping_horizon 4 post_third_time 3
               = Some (ErrorDict gemini_failed, seq 0 k))).
Proof.
  apply (ping_horizon_returns_first_success 4 post_third_time 3).
  change (Z.to_nat 3) with 3. lia.
Defined.

(** [ping_chatgpt] makes no status check: a first response with an
    error status whose body decodes is returned at once, where
    [ping_horizon] counts that pass as failed. *)
Lemma ping_chatgpt_has_no_status_check {A : Type}
    (fuel : nat) (post : nat -> M (http_response A)) (max_tries : Z)
    (response : http_response A) (body : A) :
  (0 < max_tries)%Z ->
  post 0 = inr response ->
  status_ok response = false ->
  json_body response = inr body ->
  ping_chatgpt (S fuel) post max_tries = Some (Body body, [0])
  /\ checked_pass post 0 = inl OtherException.
Proof.
  intros Hm Hp Hs Hb. unfold ping_chatgpt, checked_pass. cbn [ping_loop].
  unfold unchecked_pass, bind. rewrite Hp, Hs, Hb.
  destruct (Z.of_nat 0 <? max_tries)%Z eqn:E;
    [split; reflexivity | apply Z.ltb_ge in E; cbn in E; lia].
Qed.

Lemma ping_chatgpt_has_no_status_check_witness :
  ping_chatgpt 1 (fun _ => inr (mkHttp false (inr (lit "quota")))) 3
  = Some (Body (lit "quota"), [0])
  /\ checked_pass (fun _ : nat => inr (mkHttp false (inr (lit "quota")))) 0
     = inl OtherException.
Proof.
  apply (ping_chatgpt_has_no_status_check 0
           (fun _ => inr (mkHttp false (inr (lit "quota")))) 3
           (mkHttp false (inr (lit "quota"))) (lit "quota"));
    reflexivity.
Defined.

End GatewayFacts.

(* ================================================================= *)
(** ** The extraction of the sources *)

Section SourceExtractorFacts.
Import PyStr Gateway SourceExtractor.

Lemma free_of_app (c : ascii) (a b : str) :
  free_of c (a ++ b) = free_of c a && free_of c b.
Proof. unfold free_of. apply forallb_app. Qed.

(** A string with no character equal to the first of [sub] has no
    occurrence of [sub]. *)
Lemma startswith_free (c : ascii) (sub s : str) :
  free_of c s = true -> s <> [] -> startswith s (c :: sub) = false.
Proof.
  intros H Hne. destruct s as [|x s]; [contradiction|].
  cbn [free_of forallb] in H. apply andb_true_iff in H as [H _].
  cbn [startswith]. apply negb_true_iff in H.
  destruct (chr_eqb c x) eqn:E; [|reflexivity].
  apply chr_eqb_eq in E. subst x. now rewrite chr_eqb_refl in H.
Qed.

(** The first occurrence of [c :: sub] after a prefix free of [c]. *)
Lemma index_of_after_free (c : ascii) (sub pre rest : str) :
  free_of c pre = true ->
  index_of (pre ++ (c :: sub) ++ rest) (c :: sub) = Some (length pre).
Proof.
  intros H. induction pre as [|x pre IH].
  - cbn [app length index_of].
    pose proof (startswith_app (c :: sub) rest) as Hs. cbn [app] in Hs.
    now rewrite Hs.
  - cbn [free_of forallb] in H. apply andb_true_iff in H as [Hx Hpre].
    change ((x :: pre) ++ (c :: sub) ++ rest)
      with (x :: (pre ++ (c :: sub) ++ rest)).
    cbn [length index_of].
    assert (Hs : startswith (x :: pre ++ (c :: sub) ++ rest) (c :: sub) = false).
    { cbn [startswith]. apply negb_true_iff in Hx.
      destruct (chr_eqb c x) eqn:E; [|reflexivity].
      apply chr_eqb_eq in E. subst x. now rewrite chr_eqb_refl in Hx. }
    rewrite Hs, (IH Hpre). reflexivity.
Qed.

(** No occurrence of [c :: sub] in a string free of [c]. *)
Lemma index_of_free (c : ascii) (sub s : str) :
  free_of c s = true -> index_of s (c :: sub) = None.
Proof.
  intros H. induction s as [|x s IH]; [reflexivity|].
  cbn [index_of]. rewrite (startswith_free c sub (x :: s) H) by discriminate.
  cbn [free_of forallb] in H. apply andb_true_iff in H as [_ H].
  now rewrite (IH H).
Qed.

Lemma slice_middle (pre mid post : str) :
  slice (pre ++ mid ++ post) (length pre) (length pre + length mid) = mid.
Proof.
  unfold slice. rewrite skipn_app, skipn_all, Nat.sub_diag. cbn [skipn app].
  replace (length pre + length mid - length pre) with (length mid) by lia.
  rewrite firstn_app, firstn_all, Nat.sub_diag. cbn [firstn].
  apply app_nil_r.
Qed.

(** X26. A response text that holds its JSON between a fence marked
    [json] and a closing fence is unwrapped to that JSON without its
    outer whitespace, whatever follows the closing fence, when neither
    the text before the fence nor the JSON has a backtick. *)
Theorem json_text_unwraps_fenced_json (pre body post : str) :
  free_of backtick pre = true ->
  free_of backtick body = true ->
  json_text (pre ++ lit "```json" ++ body ++ lit "```" ++ post) = strip body.
Proof.
  intros Hpre Hbody. unfold json_text.
  set (s := pre ++ lit "```json" ++ body ++ lit "```" ++ post).
  assert (Hi : index_of s (lit "```json") = Some (length pre)).
  { exact (index_of_after_free backtick (lit "``json") pre
             (body ++ lit "```" ++ post) Hpre). }
  unfold contains, find. rewrite Hi.
  replace (Z.to_nat (Z.of_nat (length pre) + 7)) with (length pre + 7) by lia.
  assert (Hlen : length s = length pre + 7 + length body + 3 + length post).
  { unfold s. rewrite !length_app. cbn [length lit]. simpl. lia. }
  assert (Hskip : skipn (length pre + 7) s = body ++ lit "```" ++ post).
  { unfold s.
    replace (pre ++ lit "```json" ++ body ++ lit "```" ++ post)
      with ((pre ++ lit "```json") ++ body ++ lit "```" ++ post)
      by now rewrite <- app_assoc.
    rewrite skipn_app.
    replace (length pre + 7) with (length (pre ++ lit "```json"))
      by (rewrite length_app; reflexivity).
    rewrite skipn_all, Nat.sub_diag. reflexivity. }
  unfold find_from.
  replace (length s <? length pre + 7) with false
    by (symmetry; apply Nat.ltb_ge; lia).
  rewrite Hskip.
  assert (Hj : index_of (body ++ lit "```" ++ post) (lit "```")
               = Some (length body))
    by exact (index_of_after_free backtick (lit "``") body post Hbody).
  rewrite Hj.
  unfold py_slice, bound.
  replace (Z.of_nat (length pre) + 7 <? 0)%Z with false
    by (symmetry; apply Z.ltb_ge; lia).
  replace (Z.of_nat (length pre + 7 + length body) <? 0)%Z with false
    by (symmetry; apply Z.ltb_ge; lia).
  replace (Nat.min (Z.to_nat (Z.of_nat (length pre) + 7)) (length s))
    with (length (pre ++ lit "```json"))
    by (rewrite length_app; change (length (lit "```json")) with 7; lia).
  replace (Nat.min (Z.to_nat (Z.of_nat (length pre + 7 + length body))) (length s))
    with (length (pre ++ lit "```json") + length body)
    by (rewrite length_app; change (length (lit "```json")) with 7; lia).
  f_equal. unfold s.
  replace (pre ++ lit "```json" ++ body ++ lit "```" ++ post)
    with ((pre ++ lit "```json") ++ body ++ (lit "```" ++ post))
    by now rewrite <- app_assoc.
  apply slice_middle.
Qed.

Lemma json_text_unwraps_fenced_json_witness :
  json_text (lit "Here it is: " ++ lit "```json" ++ lit " {} "
             ++ lit "```" ++ lit " Done.")
  = strip (lit " {} ").
Proof.
  apply (json_text_unwraps_fenced_json (lit "Here it is: ") (lit " {} ")
           (lit " Done.")); reflexivity.
Defined.

(** X27. When the fence marked [json] is never closed, the search for
    the closing fence gives -1 and the slice ends one character before
    the end: the last character of the JSON is dropped. *)
Theorem json_text_unclosed_fence_drops_last (pre body : str) :
  free_of backtick pre = true ->
  free_of backtick body = true ->
  json_text (pre ++ lit "```json" ++ body) = strip (removelast body).
Proof.
  intros Hpre Hbody. unfold json_text.
  set (s := pre ++ lit "```json" ++ body).
  assert (Hi : index_of s (lit "```json") = Some (length pre)).
  { apply (index_of_after_free backtick (lit "``json") pre body Hpre). }
  unfold contains, find. rewrite Hi.
  replace (Z.to_nat (Z.of_nat (length pre) + 7)) with (length pre + 7) by lia.
  assert (Hlen : length s = length pre + 7 + length body).
  { unfold s. rewrite !length_app. change (length (lit "```json")) with 7. lia. }
  assert (Hskip : skipn (length pre + 7) s = body).
  { unfold s. rewrite app_assoc, skipn_app.
    replace (length pre + 7) with (length (pre ++ lit "```json"))
      by (rewrite length_app; reflexivity).
    rewrite skipn_all, Nat.sub_diag. reflexivity. }
  unfold find_from.
  replace (length s <? length pre + 7) with false
    by (symmetry; apply Nat.ltb_ge; lia).
  assert (Hj : index_of body (lit "```") = None)
    by exact (index_of_free backtick (lit "``") body Hbody).
  rewrite Hskip, Hj.
  unfold py_slice, bound.
  replace (Z.of_nat (length pre) + 7 <? 0)%Z with false
    by (symmetry; apply Z.ltb_ge; lia).
  change (-1 <? 0)%Z with true.
  replace (Nat.min (Z.to_nat (Z.of_nat (length pre) + 7)) (length s))
    with (length pre + 7) by lia.
  replace (Z.to_nat (Z.max (Z.of_nat (length s) + -1) 0))
    with (length s - 1) by lia.
  f_equal. unfold slice. rewrite Hskip.
  replace (length s - 1 - (length pre + 7))
    with (pred (length body)) by lia.
  symmetry. apply removelast_firstn_len.
Qed.

Lemma json_text_unclosed_fence_drops_last_witness :
  json_text (lit "```json" ++ lit "{}") = strip (removelast (lit "{}")).
Proof.
  apply (json_text_unclosed_fence_drops_last [] (lit "{}")); reflexivity.
Defined.

(** X28. When every pass of the gateway raises, the sources are those
    of the regex fallback, found after exactly three posts, whatever
    the parser would give. *)
Theorem gateway_failure_falls_back_to_regex {A : Type}
    (fuel : nat) (post : nat -> M (http_response gemini_body))
    (json_loads : str -> M A) (question_text : str) :
  3 < fuel ->
  all_raise (checked_pass post) 3 ->
  extract_all_urls_and_databases fuel post json_loads question_text
  = Some (bind (SourceDiscoverer.extract_urls_with_regex question_text)
               (fun r => ret (inr r)),
          [0; 1; 2]).
Proof.
  intros Hfuel Hall. unfold extract_all_urls_and_databases, ping_gemini.
  destruct (ping_loop_spec (checked_pass post) (ErrorDict gemini_failed)
              3 fuel 0 []) as [k [_ [Hk Hres]]]; [simpl; lia|].
  destruct Hres as [[body [Hlt [Hp _]]]|[Hkm Hr]].
  - destruct (Hall k) as [e He]; [lia|]. rewrite He in Hp. discriminate.
  - rewrite Hr. subst k. cbn [Nat.max Z.to_nat Pos.to_nat Pos.iter_op
                              Nat.add Nat.sub seq app].
    unfold extract_from_response, try_except.
    destruct (bind (SourceDiscoverer.extract_urls_with_regex question_text)
                   (fun r => ret (inr r))); reflexivity.
Qed.

Lemma gateway_failure_falls_back_to_regex_witness :
  extract_all_urls_and_databases 4 post_down
    (fun _ : str => inl JSONDecodeError : M unit) (lit "no sources here")
  = Some (bind (SourceDiscoverer.extract_urls_with_regex (lit "no sources here"))
               (fun r => ret (inr r)),
          [0; 1; 2]).
Proof.
  apply (gateway_failure_falls_back_to_regex 4 post_down
           (fun _ : str => inl JSONDecodeError : M unit) (lit "no sources here")).
  - lia.
  - intros j _. exists OtherException. reflexivity.
Defined.

End SourceExtractorFacts.

(* ================================================================= *)
(** ** The allowed data sources *)

Section AllowedPathsFacts.
Import PyStr AllowedPaths.

Lemma mem_In (x : str) (xs : list str) : mem x xs = true <-> In x xs.
Proof.
  unfold mem. rewrite existsb_exists. split.
  - intros [y [Hy He]]. apply str_eqb_eq in He. now subst y.
  - intros H. exists x. split; [exact H | now apply str_eqb_eq].
Qed.

(** [fromkeys]: no string twice, and the strings of the list that were
    not seen before. *)
Lemma fromkeys_spec (xs seen : list str) :
  NoDup (fromkeys seen xs)
  /\ (forall x, In x (fromkeys seen xs) <-> In x xs /\ ~ In x seen).
Proof.
  revert seen. induction xs as [|y xs IH]; intros seen.
  - split; [constructor | intros x; simpl; tauto].
  - cbn [fromkeys]. destruct (mem y seen) eqn:Em.
    + apply mem_In in Em. destruct (IH seen) as [Hnd Hin].
      split; [exact Hnd|]. intros x. rewrite Hin. simpl.
      split; [tauto|]. intros [[<-|Hx] Hns]; [contradiction | tauto].
    + assert (Hns : ~ In y seen).
      { intros H. apply mem_In in H. rewrite H in Em. discriminate. }
      destruct (IH (y :: seen)) as [Hnd Hin]. split.
      * constructor; [|exact Hnd]. rewrite Hin. simpl. tauto.
      * intros x. simpl. rewrite Hin. simpl.
        split.
        -- intros [<-|[Hx Hn]]; [tauto|]. split; [tauto|]. tauto.
        -- intros [[<-|Hx] Hn]; [now left|].
           destruct (list_eq_dec Ascii.ascii_dec y x) as [->|Hne];
             [now left | right; tauto].
Qed.

Lemma allowed_paths_spec
    (provided_csv_info : bool) (scraped_data : list Scraper.scraped)
    (database_info : list SchemaProbe.db_info) :
  NoDup (allowed_paths provided_csv_info scraped_data database_info)
  /\ forall p,
       In p (allowed_paths provided_csv_info scraped_data database_info)
       <-> p <> []
           /\ ((provided_csv_info = true /\ p = provided_csv_filename)
               \/ In p (map Scraper.filename scraped_data)
               \/ In p (map SchemaProbe.source_url database_info)).
Proof.
  unfold allowed_paths.
  destruct (fromkeys_spec
              (filter (fun p => negb (length p =? 0))
                 ((if provided_csv_info then [provided_csv_filename] else [])
                  ++ map Scraper.filename scraped_data
                  ++ map SchemaProbe.source_url database_info)) [])
    as [Hnd Hin].
  split; [exact Hnd|]. intros p. rewrite Hin, filter_In, !in_app_iff.
  assert (Hne : negb (length p =? 0) = true <-> p <> []).
  { destruct p; simpl; split; intros H; congruence. }
  rewrite Hne.
  assert (Hp : In p (if provided_csv_info then [provided_csv_filename] else [])
               <-> provided_csv_info = true /\ p = provided_csv_filename).
  { destruct provided_csv_info; simpl; split.
    - intros [<-|[]]. now split.
    - intros [_ ->]. now left.
    - intros [].
    - intros [H _]. discriminate. }
  rewrite Hp. simpl. tauto.
Qed.

(** X29. The list of allowed data sources has no entry twice and no
    empty entry, and holds exactly the fixed name of the provided
    table when there is one, the file names of the scraped tables and
    the source addresses of the probed databases. *)
Theorem allowed_paths_are_the_sources
    (provided_csv_info : bool) (scraped_data : list Scraper.scraped)
    (database_info : list SchemaProbe.db_info) :
  NoDup (allowed_paths provided_csv_info scraped_data database_info)
  /\ forall p,
       In p (allowed_paths provided_csv_info scraped_data database_info)
       <-> p <> []
           /\ ((provided_csv_info = true /\ p = provided_csv_filename)
               \/ In p (map Scraper.filename scraped_data)
               \/ In p (map SchemaProbe.source_url database_info)).
Proof. exact (allowed_paths_spec provided_csv_info scraped_data database_info). Qed.

Lemma allowed_paths_are_the_sources_witness :
  NoDup (allowed_paths true scraped_example probed_example)
  /\ forall p,
       In p (allowed_paths true scraped_example probed_example)
       <-> p <> []
           /\ ((true = true /\ p = provided_csv_filename)
               \/ In p (map Scraper.filename scraped_example)
               \/ In p (map SchemaProbe.source_url probed_example)).
Proof. exact (allowed_paths_are_the_sources true scraped_example probed_example). Defined.

Lemma filename_for_nonempty (i : nat) : Scraper.filename_for i <> [].
Proof.
  unfold Scraper.filename_for. destruct (0 <? i); intros H;
    apply (f_equal (@length ascii)) in H; rewrite ?length_app in H;
    simpl in H; lia.
Qed.

Lemma scraped_filename_nonempty (w : Scraper.World) (urls : list str)
    (scraped_data : list Scraper.scraped) (entry : Scraper.scraped) :
  Scraper.scrape_all_urls w urls = inr scraped_data ->
  In entry scraped_data -> Scraper.filename entry <> [].
Proof.
  intros H Hin. unfold Scraper.scrape_all_urls in H.
  rewrite scrape_loop_spec in H. injection H as <-. simpl in Hin.
  apply in_flat_map in Hin as [[i url] [_ He]]. simpl in He.
  apply (in_map (fun e => (Scraper.filename e, Scraper.source_url e))) in He.
  rewrite entries_of_names in He.
  destruct (saved w i url); [|contradiction].
  destruct He as [He|[]]. injection He as <- _. apply filename_for_nonempty.
Qed.

Lemma probed_source_nonempty (w : SchemaProbe.World)
    (database_files : list SchemaProbe.item)
    (database_info : list SchemaProbe.db_info) (entry : SchemaProbe.db_info) :
  SchemaProbe.get_database_schemas w database_files = inr database_info ->
  In entry database_info -> SchemaProbe.source_url entry <> [].
Proof.
  intros H Hin.
  apply get_database_schemas_returns in H. subst database_info.
  apply in_flat_map in Hin as [[i x] [_ He]]. simpl in He.
  destruct x as [db_file|]; [|contradiction]. cbn [probed_item] in He.
  unfold probed in He.
  destruct (SchemaProbe.probe_one w i db_file) as [e|[entry'|]] eqn:Ep;
    try contradiction.
  destruct He as [<-|[]].
  now destruct (probe_one_entry w i db_file entry' Ep) as [_ [_ [Hne _]]].
Qed.

(** X30. Every table the scraper saved and every database the probe
    described is an allowed data source of the generated program: the
    sanitizer lets a read of it through. *)
Theorem saved_sources_are_allowed
    (ws : Scraper.World) (urls : list str) (scraped_data : list Scraper.scraped)
    (wp : SchemaProbe.World) (database_files : list SchemaProbe.item)
    (database_info : list SchemaProbe.db_info) (provided_csv_info : bool) :
  Scraper.scrape_all_urls ws urls = inr scraped_data ->
  SchemaProbe.get_database_schemas wp database_files = inr database_info ->
  (forall entry, In entry scraped_data ->
     AccessSanitizer.allowed_path
       (allowed_paths provided_csv_info scraped_data database_info)
       (Scraper.filename entry) = true)
  /\ (forall entry, In entry database_info ->
        AccessSanitizer.allowed_path
          (allowed_paths provided_csv_info scraped_data database_info)
          (SchemaProbe.source_url entry) = true).
Proof.
  intros Hs Hp.
  destruct (allowed_paths_spec provided_csv_info scraped_data database_info)
    as [_ Hin].
  split; intros entry He; unfold AccessSanitizer.allowed_path;
    apply orb_true_iff; left; apply mem_In; apply Hin.
  - split.
    + apply (scraped_filename_nonempty ws urls scraped_data entry Hs He).
    + right. left. now apply in_map.
  - split.
    + apply (probed_source_nonempty wp database_files database_info entry Hp He).
    + right. right. now apply in_map.
Qed.

Lemma saved_sources_are_allowed_witness :
  (forall entry, In entry scraped_example ->
     AccessSanitizer.allowed_path
       (allowed_paths true scraped_example probed_example)
       (Scraper.filename entry) = true)
  /\ (forall entry, In entry probed_example ->
        AccessSanitizer.allowed_path
          (allowed_paths true scraped_example probed_example)
          (SchemaProbe.source_url entry) = true).
Proof.
  apply (saved_sources_are_allowed world_second_fails
           [lit "http://a"; lit "http://b"; lit "http://c"] scraped_example
           world_answers (map SchemaProbe.Dict three_references)
           probed_example true);
    reflexivity.
Defined.

End AllowedPathsFacts.
